(** * Route-optimisation demo: vehicle simulator and OSRM client

    A shallow embedding of [backend_v2/app/services/simulator.py] and
    [backend_v2/app/services/osrm_client.py], and what holds of them.

    Numbers.  Python [float] values are modelled as real numbers ([R]),
    so rounding, overflow, NaN and infinities are outside the model;
    [int] indices and lengths are [Z] or [nat].  [Doubles] repeats the
    angle loops on binary64 numbers, where they behave differently.

    Effects.  The coroutines read the wall clock, sleep, talk to a remote
    service and draw random numbers.  They are modelled in a small
    state-and-exception monad over an explicit world (clock, request
    counter, draw counter, logs); the remote service and the random
    source are oracles indexed by those counters.  One asyncio task runs
    sequentially, so [await f(...)] inside a task is a monadic call, and
    [await asyncio.sleep(d)] advances the clock of whoever awaits it.
    The clock advances by sleeps only (a request takes no time), and the
    operations of the engine are not interleaved with one another.

    Layout.  [Geo], [Doubles], [Mon], [Osrm], [Sim], [Matrix] and
    [Status] hold the
    embedding, function by function; [OsrmSpec], [SimSpec], [MatrixSpec]
    and [EngineSpec] hold the words the statements are written in and
    the concrete inputs they are tried on; the lemmas and theorems
    follow, one section per topic. *)

From Stdlib Require Import Reals Lra Lia List ZArith String Bool Arith.
From Stdlib Require Floats.
Import ListNotations.
Local Open Scope R_scope.

(** ** Geodesic mathematics shared by both services *)

Module Geo.

(** [math.radians] and [math.degrees]. *)
Definition radians (deg : R) : R := deg * (PI / 180).
Definition degrees (rad : R) : R := rad * (180 / PI).

(** [math.atan2 y x] on reals (signed zeros are not modelled). *)
Definition atan2 (y x : R) : R :=
  if Rlt_dec 0 x then atan (y / x)
  else if Rlt_dec x 0 then
    (if Rle_dec 0 y then atan (y / x) + PI else atan (y / x) - PI)
  else if Rlt_dec 0 y then PI / 2
  else if Rlt_dec y 0 then - (PI / 2)
  else 0.

(** [_normalize_angle]: two [while] loops.  Each loop is a fixpoint on a
    fuel argument; [None] means the fuel ran out before the loop test
    became false. *)
Fixpoint raise_angle (fuel : nat) (angle : R) : option R :=
  if Rlt_dec angle 0 then
    match fuel with
    | O => None
    | S fuel' => raise_angle fuel' (angle + 360)
    end
  else Some angle.

Fixpoint lower_angle (fuel : nat) (angle : R) : option R :=
  if Rge_dec angle 360 then
    match fuel with
    | O => None
    | S fuel' => lower_angle fuel' (angle - 360)
    end
  else Some angle.

Definition normalize_angle_fuel (fuel : nat) (angle : R) : option R :=
  match raise_angle fuel angle with
  | Some a => lower_angle fuel a
  | None => None
  end.

(** Number of loop iterations that is always sufficient for [angle]. *)
Definition turns (angle : R) : nat := Z.to_nat (up (Rabs angle / 360)).

(** [_normalize_angle] as a total function: the loops are run with
    [turns angle] units of fuel, which [normalize_angle_fuel_turns]
    below shows is always enough. *)
Definition normalize_angle (angle : R) : R :=
  match normalize_angle_fuel (turns angle) angle with
  | Some a => a
  | None => angle
  end.

Definition earth_radius : R := 6371.

(** [VehicleSimulator._calculate_distance] (kilometres). *)
Definition calculate_distance (lat1 lon1 lat2 lon2 : R) : R :=
  let lat1_rad := radians lat1 in
  let lon1_rad := radians lon1 in
  let lat2_rad := radians lat2 in
  let lon2_rad := radians lon2 in
  let dlat := lat2_rad - lat1_rad in
  let dlon := lon2_rad - lon1_rad in
  let a := sin (dlat / 2) ^ 2 +
           cos lat1_rad * cos lat2_rad * sin (dlon / 2) ^ 2 in
  let c := 2 * asin (sqrt a) in
  earth_radius * c.

(** [VehicleSimulator._calculate_bearing] (degrees). *)
Definition calculate_bearing (lat1 lon1 lat2 lon2 : R) : R :=
  let lat1_rad := radians lat1 in
  let lat2_rad := radians lat2 in
  let dlon_rad := radians (lon2 - lon1) in
  let y := sin dlon_rad * cos lat2_rad in
  let x := cos lat1_rad * sin lat2_rad -
           sin lat1_rad * cos lat2_rad * cos dlon_rad in
  let bearing_rad := atan2 y x in
  let bearing_deg := degrees bearing_rad in
  normalize_angle bearing_deg.

(** [VehicleSimulator._move_along_bearing]. *)
Definition move_along_bearing (lat lon bearing distance_km : R) : R * R :=
  let lat_rad := radians lat in
  let lon_rad := radians lon in
  let bearing_rad := radians bearing in
  let lat2_rad :=
    asin (sin lat_rad * cos (distance_km / earth_radius) +
          cos lat_rad * sin (distance_km / earth_radius) * cos bearing_rad) in
  let lon2_rad :=
    lon_rad + atan2
      (sin bearing_rad * sin (distance_km / earth_radius) * cos lat_rad)
      (cos (distance_km / earth_radius) - sin lat_rad * sin lat2_rad) in
  (degrees lat2_rad, degrees lon2_rad).

(** [EnhancedOSRMClient._haversine_distance] on [(lat, lon)] pairs
    (kilometres). *)
Definition haversine_distance (point1 point2 : R * R) : R :=
  let lat1 := radians (fst point1) in
  let lon1 := radians (snd point1) in
  let lat2 := radians (fst point2) in
  let lon2 := radians (snd point2) in
  let dlat := lat2 - lat1 in
  let dlon := lon2 - lon1 in
  let a := sin (dlat / 2) ^ 2 + cos lat1 * cos lat2 * sin (dlon / 2) ^ 2 in
  let c := 2 * asin (sqrt a) in
  let r := 6371 in
  c * r.

End Geo.

(** ** The angle loops on double-precision numbers

    [_normalize_angle] once more, on the numbers Python computes with:
    [float] is IEEE 754 binary64, here Rocq's primitive [float].  On the
    reals its two loops always end; on doubles an angle can be so large
    that adding or subtracting 360 rounds back to the angle itself. *)

Module Doubles.

Import Floats.PrimFloat.

Local Open Scope float_scope.

(** [while angle < 0: angle += 360]. *)
Fixpoint raise_angle (fuel : nat) (angle : float) : option float :=
  if angle <? 0 then
    match fuel with
    | O => None
    | S fuel' => raise_angle fuel' (angle + 360)
    end
  else Some angle.

(** [while angle >= 360: angle -= 360]. *)
Fixpoint lower_angle (fuel : nat) (angle : float) : option float :=
  if 360 <=? angle then
    match fuel with
    | O => None
    | S fuel' => lower_angle fuel' (angle - 360)
    end
  else Some angle.

(** [_normalize_angle] with at most [fuel] iterations of each loop;
    [None] means that a loop was still running when the fuel ran out. *)
Definition normalize_angle_fuel (fuel : nat) (angle : float) : option float :=
  match raise_angle fuel angle with
  | Some a => lower_angle fuel a
  | None => None
  end.

(** An angle on which the loop that is entered makes no progress: the
    test of the loop holds, and its step rounds back to the angle. *)
Definition absorbs_a_turn (angle : float) : Prop :=
  ((angle <? 0) = true /\ angle + 360 = angle) \/
  ((angle <? 0) = false /\ (360 <=? angle) = true /\ angle - 360 = angle).

Definition huge : float := 1e20.

End Doubles.

(** ** A state-and-exception monad for the coroutines

    [M S A] is a computation over a state [S] that either returns a value
    or raises.  State changes made before a [raise] are kept, as in
    Python.  The exception value itself is not modelled: the services only
    log it. *)

Module Mon.

Definition M (S A : Type) : Type := S -> option A * S.

Definition ret {S A : Type} (a : A) : M S A := fun s => (Some a, s).

Definition bind {S A B : Type} (m : M S A) (f : A -> M S B) : M S B :=
  fun s =>
    match m s with
    | (Some a, s') => f a s'
    | (None, s') => (None, s')
    end.

Definition raise {S A : Type} : M S A := fun s => (None, s).

(** [try: body  except Exception: handler]. *)
Definition try_except {S A : Type} (body handler : M S A) : M S A :=
  fun s =>
    match body s with
    | (Some a, s') => (Some a, s')
    | (None, s') => handler s'
    end.

Definition gets {S A : Type} (f : S -> A) : M S A := fun s => (Some (f s), s).

Definition modify {S : Type} (f : S -> S) : M S unit := fun s => (Some tt, f s).

(** A value that may be missing ([KeyError], [IndexError], invalid JSON). *)
Definition must {S A : Type} (o : option A) : M S A :=
  match o with
  | Some a => ret a
  | None => raise
  end.

End Mon.

Import Mon.

Declare Scope mon_scope.
Delimit Scope mon_scope with mon.
Notation "x <- m ;; k" := (bind m (fun x => k))
  (at level 61, m at next level, right associativity) : mon_scope.
Notation "m ;;; k" := (bind m (fun _ => k))
  (at level 61, right associativity) : mon_scope.

(** ** The routing data client ([osrm_client.py]) *)

Module Osrm.

Local Open Scope mon_scope.

Record RoutePoint : Type := mkRoutePoint {
  latitude : R;
  longitude : R;
  name : string;
  weight : R;
  delivery_time : Z
}.

(** One turn-by-turn step: an uninterpreted JSON object. *)
Definition Step : Type := string.

Record RouteGeometry : Type := mkRouteGeometry {
  coordinates : list (R * R);
  distance : R;          (* metres *)
  duration : R;          (* seconds *)
  steps : list Step;
  geometry_string : string
}.

(** *** What the remote service may answer

    [NetworkError]: [session.get] raises (timeout, refused connection).
    [Reply status body]: a response arrived; [body = None] when the body
    is not valid JSON, so that [response.json()] raises.  In the payload
    records a field of type [option] is a key that may be missing. *)
Inductive Response (P : Type) : Type :=
| NetworkError
| Reply (status : Z) (body : option P).
Arguments NetworkError {P}.
Arguments Reply {P} status body.

Record TableBody : Type := mkTableBody {
  tbl_code : option string;
  tbl_distances : option (list (list R))
}.

Record LegJson : Type := mkLegJson {
  leg_steps : option (list Step)
}.

Record RouteJson : Type := mkRouteJson {
  rj_coordinates : option (list (R * R));   (* [lon, lat] pairs *)
  rj_geometry_text : string;                (* str(route["geometry"]) *)
  rj_legs : option (list LegJson);
  rj_distance : option R;
  rj_duration : option R
}.

Record RouteBody : Type := mkRouteBody {
  rb_code : option string;
  rb_routes : list RouteJson      (* data.get("routes"), [] if absent *)
}.

Record TripJson : Type := mkTripJson {
  trip_legs : option (list (option Z))      (* each leg's "waypoint_index" *)
}.

Record TripBody : Type := mkTripBody {
  tb_code : option string;
  tb_trips : list TripJson
}.

(** The remote service as an oracle: the answer to the [n]-th request
    of the process, sent to [base_url] for the given coordinate list. *)
Record Network : Type := mkNetwork {
  table_reply : nat -> string -> list (R * R) -> Response TableBody;
  route_reply : nat -> string -> list (R * R) -> Response RouteBody;
  trip_reply : nat -> string -> list (R * R) -> Response TripBody
}.

Inductive Service : Type := Table | Route | Trip.

Inductive Event : Type :=
| Requested (service : Service) (base_url : string) (coords : list (R * R))
| Slept (seconds : R).

Record CacheEntry : Type := mkCacheEntry {
  geometry : RouteGeometry;
  timestamp : R
}.

(** The cache key "route_<lon>,<lat>;..." is modelled by the coordinate
    list it prints. *)
Definition CacheKey : Type := list (R * R).

(** [EnhancedOSRMClient]; its distance-matrix cache is kept beside it, in
    [Matrix.Store] below. *)
Record Client : Type := mkClient {
  primary_url : string;
  fallback_url : string;
  current_url : string;
  route_cache : list (CacheKey * CacheEntry)
}.

Definition cache_ttl : R := 3600.
Definition max_retries : nat := 3.
Definition retry_delay : R := 1.

(** The process as the client sees it: wall clock, the requests sent so
    far, the log of requests and sleeps, the remote oracle, the client. *)
Record World : Type := mkWorld {
  now : R;
  sent : nat;
  events : list Event;
  net : Network;
  client : Client
}.

Definition set_client (c : Client) (w : World) : World :=
  mkWorld (now w) (sent w) (events w) (net w) c.

Definition set_current_url (u : string) (c : Client) : Client :=
  mkClient (primary_url c) (fallback_url c) u (route_cache c).

Definition key_eq_dec : forall a b : CacheKey, {a = b} + {a <> b}.
Proof.
  apply list_eq_dec. intros [x1 y1] [x2 y2].
  destruct (Req_dec_T x1 x2); destruct (Req_dec_T y1 y2);
    [left; congruence | right; congruence ..].
Defined.

(** Dictionary read [cache[key]] and write [cache[key] = entry]. *)
Fixpoint cache_get (key : CacheKey) (cache : list (CacheKey * CacheEntry))
  : option CacheEntry :=
  match cache with
  | [] => None
  | (k, e) :: rest => if key_eq_dec key k then Some e else cache_get key rest
  end.

Fixpoint cache_put (key : CacheKey) (entry : CacheEntry)
  (cache : list (CacheKey * CacheEntry)) : list (CacheKey * CacheEntry) :=
  match cache with
  | [] => [(key, entry)]
  | (k, e) :: rest =>
      if key_eq_dec key k then (k, entry) :: rest
      else (k, e) :: cache_put key entry rest
  end.

Definition set_route_cache (rc : list (CacheKey * CacheEntry)) (c : Client)
  : Client :=
  mkClient (primary_url c) (fallback_url c) (current_url c) rc.

(** [EnhancedOSRMClient.__init__] with its default arguments. *)
Definition init_client : Client :=
  mkClient "https://router.project-osrm.org" "http://localhost:5000"
           "https://router.project-osrm.org" [].

(** [await asyncio.sleep(seconds)]. *)
Definition sleep (seconds : R) : M World unit :=
  modify (fun w =>
    mkWorld (now w + Rmax 0 seconds) (sent w) (events w ++ [Slept seconds])
            (net w) (client w)).

(** [session.get(f"{self.current_url}/<service>/...")]: the request is
    logged and counted; a network error raises.  The time a request
    takes is not modelled: the clock of the model advances by sleeps
    only, so it measures the time slept, not the time elapsed. *)
Definition http_get {P : Type} (service : Service)
  (reply : Network -> nat -> string -> list (R * R) -> Response P)
  (coords : list (R * R)) : M World (Z * option P) :=
  fun w =>
    let url := current_url (client w) in
    let w' := mkWorld (now w) (S (sent w))
                      (events w ++ [Requested service url coords])
                      (net w) (client w) in
    match reply (net w) (sent w) url coords with
    | NetworkError => (None, w')
    | Reply status body => (Some (status, body), w')
    end.

Definition is_ok (code : option string) : bool :=
  match code with
  | Some c => String.eqb c "Ok"
  | None => false
  end.

(** One iteration of the [for attempt in range(self.max_retries)] loop of
    [_fetch_distance_matrix].  [Some m]: the function returns [m];
    [None]: the loop goes on to the next attempt. *)
Definition table_attempt (coords : list (R * R)) (attempt : nat)
  : M World (option (list (list R))) :=
  try_except
    (r <- http_get Table table_reply coords ;;
     let '(status, body) := r in
     found <- (if (status =? 200)%Z then
                 data <- must body ;;
                 if is_ok (tbl_code data) then
                   distances <- must (tbl_distances data) ;;
                   ret (Some (map (map (fun d => d / 1000)) distances))
                 else ret None
               else ret None) ;;
     match found with
     | Some m => ret (Some m)
     | None =>
         c <- gets client ;;
         if (String.eqb (current_url c) (primary_url c) &&
             Nat.eqb attempt 0)%bool
         then modify (set_client (set_current_url (fallback_url c) c)) ;;;
              ret None
         else ret None
     end)
    (if (attempt <? max_retries - 1)%nat
     then sleep (retry_delay * (INR attempt + 1)) ;;; ret None
     else ret None).

Fixpoint table_attempts (coords : list (R * R)) (attempts : list nat)
  : M World (list (list R)) :=
  match attempts with
  | [] => raise
  | attempt :: rest =>
      r <- table_attempt coords attempt ;;
      match r with
      | Some m => ret m
      | None => table_attempts coords rest
      end
  end.

(** [_fetch_distance_matrix]. *)
Definition fetch_distance_matrix (coords : list (R * R))
  : M World (list (list R)) :=
  table_attempts coords (seq 0 max_retries).

(** Steps of all legs, in order: legs without "steps" contribute none. *)
Definition collect_steps (legs : option (list LegJson)) : list Step :=
  match legs with
  | Some ls =>
      flat_map (fun leg => match leg_steps leg with
                           | Some st => st
                           | None => []
                           end) ls
  | None => []
  end.

(** [_fetch_route_geometry]: a single request to the current endpoint. *)
Definition fetch_route_geometry (coords : list (R * R))
  : M World RouteGeometry :=
  r <- http_get Route route_reply coords ;;
  let '(status, body) := r in
  if (status =? 200)%Z then
    data <- must body ;;
    match is_ok (rb_code data), rb_routes data with
    | true, route :: _ =>
        lonlat <- must (rj_coordinates route) ;;
        let coordinates := map (fun c => (snd c, fst c)) lonlat in
        let steps := collect_steps (rj_legs route) in
        dist <- must (rj_distance route) ;;
        dur <- must (rj_duration route) ;;
        ret (mkRouteGeometry coordinates dist dur steps
                             (rj_geometry_text route))
    | _, _ => raise
    end
  else raise.

(** The [for i in range(len(coordinates) - 1)] loop: [total] accumulates
    the great-circle length of each consecutive segment. *)
Fixpoint path_length_from (total : R) (coordinates : list (R * R)) : R :=
  match coordinates with
  | p :: (q :: _) as rest =>
      path_length_from (total + Geo.haversine_distance p q) rest
  | _ => total
  end.

(** [_create_fallback_geometry]. *)
Definition create_fallback_geometry (points : list RoutePoint)
  : RouteGeometry :=
  let coordinates := map (fun p => (latitude p, longitude p)) points in
  let total_distance := path_length_from 0 coordinates in
  let duration := (total_distance / 50) * 3600 in
  mkRouteGeometry coordinates (total_distance * 1000) duration [] "".

Definition lonlat (points : list RoutePoint) : list (R * R) :=
  map (fun p => (longitude p, latitude p)) points.

(** [get_route_geometry_async]. *)
Definition get_route_geometry_async (start finish : RoutePoint)
  (waypoints : list RoutePoint) : M World RouteGeometry :=
  let all_points := [start] ++ waypoints ++ [finish] in
  let coords := lonlat all_points in
  cached <- gets (fun w =>
    match cache_get coords (route_cache (client w)) with
    | Some entry =>
        if Rlt_dec (now w - timestamp entry) cache_ttl
        then Some (geometry entry) else None
    | None => None
    end) ;;
  match cached with
  | Some g => ret g
  | None =>
      try_except
        (g <- fetch_route_geometry coords ;;
         modify (fun w =>
           set_client
             (set_route_cache
                (cache_put coords (mkCacheEntry g (now w))
                           (route_cache (client w)))
                (client w)) w) ;;;
         ret g)
        (ret (create_fallback_geometry all_points))
  end.

(** A remote service that cannot be reached at all. *)
Definition silent_network : Network :=
  mkNetwork (fun _ _ _ => NetworkError) (fun _ _ _ => NetworkError)
            (fun _ _ _ => NetworkError).

(** [list(range(n))]. *)
Definition range (n : nat) : list Z := map Z.of_nat (seq 0 n).

(** [[wp["waypoint_index"] for wp in trip["legs"]]]: raises as soon as
    one leg has no such key. *)
Fixpoint waypoint_indices (legs : list (option Z)) : option (list Z) :=
  match legs with
  | [] => Some []
  | Some i :: rest =>
      match waypoint_indices rest with
      | Some rest' => Some (i :: rest')
      | None => None
      end
  | None :: _ => None
  end.

(** [get_optimized_route_order]. *)
Definition get_optimized_route_order (depot : RoutePoint)
  (delivery_points : list RoutePoint) : M World (list Z) :=
  answer <- try_except
    (let all_points := depot :: delivery_points in
     r <- http_get Trip trip_reply (lonlat all_points) ;;
     let '(status, body) := r in
     if (status =? 200)%Z then
       data <- must body ;;
       match is_ok (tb_code data), tb_trips data with
       | true, trip :: _ =>
           legs <- must (trip_legs trip) ;;
           idxs <- must (waypoint_indices legs) ;;
           ret (Some (map (fun idx => (idx - 1)%Z)
                          (filter (fun idx => (0 <? idx)%Z) idxs)))
       | _, _ => ret None
       end
     else ret None)
    (ret None) ;;
  match answer with
  | Some order => ret order
  | None => ret (range (List.length delivery_points))
  end.

End Osrm.

(** ** The simulation engine ([simulator.py]) *)

Module Sim.

Local Open Scope mon_scope.

Inductive VehicleStatus : Type :=
| IDLE | MOVING | DELIVERING | RETURNING | COMPLETED.

Definition status_eqb (a b : VehicleStatus) : bool :=
  match a, b with
  | IDLE, IDLE | MOVING, MOVING | DELIVERING, DELIVERING
  | RETURNING, RETURNING | COMPLETED, COMPLETED => true
  | _, _ => false
  end.

Record VehicleState : Type := mkVehicleState {
  vehicle_id : string;
  latitude : R;
  longitude : R;
  speed : R;                 (* km/h *)
  heading : R;               (* degrees *)
  status : VehicleStatus;
  current_cargo : R;         (* kg *)
  fuel_used : R;             (* litres *)
  progress : R;              (* 0-100 *)
  current_order_index : Z;
  last_updated : R
}.

(** One entry of [route['orders']]. *)
Record Order : Type := mkOrder {
  loc_lat : R;
  loc_lon : R;
  loc_name : string;
  order_weight : R
}.

(** One element of the [routes] argument of [start_simulation]. *)
Record RouteDict : Type := mkRouteDict {
  rd_vehicle_id : string;
  rd_orders : list Order;
  rd_total_distance : option R;
  rd_estimated_time : option R
}.

Record SimulationRoute : Type := mkSimulationRoute {
  route_vehicle_id : string;
  waypoints : list Osrm.RoutePoint;
  geometry : option Osrm.RouteGeometry;
  total_distance : R;
  estimated_time : R;
  orders : list Order
}.

(** What one broadcast hands to the callbacks. *)
Record Snapshot : Type := mkSnapshot {
  snap_timestamp : R;
  snap_vehicles : list VehicleState;
  snap_active : bool
}.

(** [VehicleSimulator].  Dictionaries are association lists in insertion
    order, the order in which the tick loop visits the vehicles.
    [websocket_callbacks] counts the registered callbacks;
    [task_alive] says whether [simulation_task] exists and is not done. *)
Record Simulator : Type := mkSimulator {
  active_simulations : list (string * VehicleState);
  simulation_routes : list (string * SimulationRoute);
  websocket_callbacks : nat;
  simulation_speed_multiplier : R;
  is_running : bool;
  task_alive : bool
}.

(** Parameters set once in [__init__] and never assigned again. *)
Definition update_interval : R := 2.
Definition average_speed : R := 45.
Definition delivery_time : R := 3.
Definition max_speed : R := 80.
Definition min_speed : R := 20.
Definition acceleration_rate : R := 10.
Definition deceleration_rate : R := 15.

(** [VehicleSimulator.__init__]. *)
Definition init_simulator : Simulator :=
  mkSimulator [] [] 0 100 false false.

(** The process as the engine sees it.  [draws n] is the value of the
    [n]-th call of [random.uniform(0.8, 1.2)].  [snapshots] and
    [status_log] are observation logs: every snapshot handed to the
    callbacks and every assignment to a vehicle's [status], in order. *)
Record World : Type := mkWorld {
  osrm : Osrm.World;
  draws : nat -> R;
  drawn : nat;
  sim : Simulator;
  snapshots : list Snapshot;
  status_log : list (string * VehicleStatus)
}.

Definition lift {A : Type} (m : M Osrm.World A) : M World A :=
  fun w =>
    let '(r, o) := m (osrm w) in
    (r, mkWorld o (draws w) (drawn w) (sim w) (snapshots w) (status_log w)).

Definition set_sim (s : Simulator) (w : World) : World :=
  mkWorld (osrm w) (draws w) (drawn w) s (snapshots w) (status_log w).

(** [time.time()]. *)
Definition time : M World R := gets (fun w => Osrm.now (osrm w)).

Definition sleep (seconds : R) : M World unit := lift (Osrm.sleep seconds).

(** [random.uniform(0.8, 1.2)]. *)
Definition random_uniform : M World R :=
  fun w =>
    (Some (draws w (drawn w)),
     mkWorld (osrm w) (draws w) (S (drawn w)) (sim w) (snapshots w)
             (status_log w)).

(** *** Python containers *)

Fixpoint dict_get {V : Type} (key : string) (d : list (string * V))
  : option V :=
  match d with
  | [] => None
  | (k, v) :: rest => if String.eqb key k then Some v else dict_get key rest
  end.

Fixpoint dict_set {V : Type} (key : string) (value : V)
  (d : list (string * V)) : list (string * V) :=
  match d with
  | [] => [(key, value)]
  | (k, v) :: rest =>
      if String.eqb key k then (k, value) :: rest
      else (k, v) :: dict_set key value rest
  end.

Definition len {A : Type} (l : list A) : Z := Z.of_nat (List.length l).

(** [l[i]] with Python's negative indices; [None] is [IndexError]. *)
Definition py_nth {A : Type} (l : list A) (i : Z) : option A :=
  if (0 <=? i)%Z then nth_error l (Z.to_nat i)
  else if (0 <=? len l + i)%Z then nth_error l (Z.to_nat (len l + i))
  else None.

(** [sum(...)]: left to right, starting from 0. *)
Definition py_sum (l : list R) : R := fold_left Rplus l 0.

(** *** Setters of the mutable vehicle record *)

Definition with_status (st : VehicleStatus) (v : VehicleState) :=
  mkVehicleState (vehicle_id v) (latitude v) (longitude v) (speed v)
    (heading v) st (current_cargo v) (fuel_used v) (progress v)
    (current_order_index v) (last_updated v).

Definition with_progress (p : R) (v : VehicleState) :=
  mkVehicleState (vehicle_id v) (latitude v) (longitude v) (speed v)
    (heading v) (status v) (current_cargo v) (fuel_used v) p
    (current_order_index v) (last_updated v).

Definition with_cargo (c : R) (v : VehicleState) :=
  mkVehicleState (vehicle_id v) (latitude v) (longitude v) (speed v)
    (heading v) (status v) c (fuel_used v) (progress v)
    (current_order_index v) (last_updated v).

Definition with_speed (s : R) (v : VehicleState) :=
  mkVehicleState (vehicle_id v) (latitude v) (longitude v) s
    (heading v) (status v) (current_cargo v) (fuel_used v) (progress v)
    (current_order_index v) (last_updated v).

Definition with_heading (h : R) (v : VehicleState) :=
  mkVehicleState (vehicle_id v) (latitude v) (longitude v) (speed v)
    h (status v) (current_cargo v) (fuel_used v) (progress v)
    (current_order_index v) (last_updated v).

Definition with_order_index (i : Z) (v : VehicleState) :=
  mkVehicleState (vehicle_id v) (latitude v) (longitude v) (speed v)
    (heading v) (status v) (current_cargo v) (fuel_used v) (progress v)
    i (last_updated v).

Definition with_position (lat lon t : R) (v : VehicleState) :=
  mkVehicleState (vehicle_id v) lat lon (speed v)
    (heading v) (status v) (current_cargo v) (fuel_used v) (progress v)
    (current_order_index v) t.

Definition with_fuel (f : R) (v : VehicleState) :=
  mkVehicleState (vehicle_id v) (latitude v) (longitude v) (speed v)
    (heading v) (status v) (current_cargo v) f (progress v)
    (current_order_index v) (last_updated v).

(** [vehicle_state.status = st], recorded in the status log. *)
Definition assign_status (st : VehicleStatus) (v : VehicleState)
  : M World VehicleState :=
  modify (fun w =>
    mkWorld (osrm w) (draws w) (drawn w) (sim w) (snapshots w)
            (status_log w ++ [(vehicle_id v, st)])) ;;;
  ret (with_status st v).

(** *** Per-vehicle advance *)

(** The arithmetic of [_calculate_target_speed] once the traffic factor
    is drawn. *)
Definition cruise_speed (cargo traffic_factor : R) : R :=
  let weight_factor := 1 - (cargo / 2000 * 0.2) in
  let base_speed := average_speed * weight_factor * traffic_factor in
  Rmax min_speed (Rmin max_speed base_speed).

(** [_calculate_target_speed]. *)
Definition calculate_target_speed (v : VehicleState) : M World R :=
  match status v with
  | DELIVERING => ret 0
  | IDLE => ret 0
  | _ =>
      traffic_factor <- random_uniform ;;
      ret (cruise_speed (current_cargo v) traffic_factor)
  end.

Definition max_turn_rate : R := 30.

(** The heading update of [_move_vehicle_towards_target]. *)
Definition turn_towards (heading bearing : R) : R :=
  let heading_diff := Geo.normalize_angle (bearing - heading) in
  let heading' :=
    if Rlt_dec max_turn_rate (Rabs heading_diff) then
      let turn_direction := if Rlt_dec 0 heading_diff then 1 else -1 in
      heading + turn_direction * max_turn_rate
    else bearing in
  Geo.normalize_angle heading'.

(** The speed update of [_move_vehicle_towards_target]. *)
Definition approach_speed (speed target_speed : R) : R :=
  let speed_diff := target_speed - speed in
  let max_acceleration :=
    (if Rlt_dec 0 speed_diff then acceleration_rate else deceleration_rate)
    * update_interval in
  let speed' :=
    if Rlt_dec max_acceleration (Rabs speed_diff) then
      let acceleration :=
        if Rlt_dec 0 speed_diff then max_acceleration
        else - max_acceleration in
      speed + acceleration
    else target_speed in
  Rmax 0 (Rmin max_speed speed').

(** [_move_vehicle_towards_target]. *)
Definition move_vehicle_towards_target (v : VehicleState)
  (target : Osrm.RoutePoint) : M World VehicleState :=
  let bearing :=
    Geo.calculate_bearing (latitude v) (longitude v)
                          (Osrm.latitude target) (Osrm.longitude target) in
  let v := with_heading (turn_towards (heading v) bearing) v in
  target_speed <- calculate_target_speed v ;;
  let v := with_speed (approach_speed (speed v) target_speed) v in
  multiplier <- gets (fun w => simulation_speed_multiplier (sim w)) ;;
  let distance_km := (speed v * multiplier * update_interval) / 3600 in
  let '(new_lat, new_lon) :=
    Geo.move_along_bearing (latitude v) (longitude v) (heading v)
                           distance_km in
  t <- time ;;
  let v := with_position new_lat new_lon t v in
  let fuel_rate := 0.08 + (current_cargo v / 1000 * 0.02) in
  ret (with_fuel (fuel_used v + distance_km * fuel_rate) v).

(** [_handle_waypoint_arrival].  The two divisions raise
    [ZeroDivisionError] on a zero divisor. *)
Definition handle_waypoint_arrival (v : VehicleState)
  (sim_route : SimulationRoute) (waypoint_index : Z)
  : M World VehicleState :=
  if (waypoint_index =? 0)%Z then
    v <- assign_status MOVING v ;;
    ret (with_order_index 0 v)
  else if (waypoint_index =? len (waypoints sim_route) - 1)%Z then
    v <- assign_status COMPLETED v ;;
    ret (with_speed 0 (with_cargo 0 (with_progress 100 v)))
  else
    v <- assign_status DELIVERING v ;;
    let order_index := (waypoint_index - 1)%Z in
    v <- (if (order_index <? len (orders sim_route))%Z then
            order <- must (py_nth (orders sim_route) order_index) ;;
            ret (with_cargo (current_cargo v - order_weight order) v)
          else ret v) ;;
    multiplier <- gets (fun w => simulation_speed_multiplier (sim w)) ;;
    (if Req_dec_T multiplier 0 then raise
     else sleep (delivery_time * 60 / multiplier)) ;;;
    v <- assign_status MOVING v ;;
    let v := with_order_index waypoint_index v in
    if (len (waypoints sim_route) - 1 =? 0)%Z then raise
    else ret (with_progress
                (IZR waypoint_index / IZR (len (waypoints sim_route) - 1)
                 * 100) v).

(** The body of [_update_vehicle_position] on the vehicle record. *)
Definition advance_vehicle (v : VehicleState) (sim_route : SimulationRoute)
  : M World VehicleState :=
  if status_eqb (status v) COMPLETED then ret v
  else
    let target_waypoint_index :=
      Z.min (current_order_index v + 1) (len (waypoints sim_route) - 1) in
    if (len (waypoints sim_route) <=? target_waypoint_index)%Z then
      v <- assign_status COMPLETED v ;;
      ret (with_progress 100 v)
    else
      target_waypoint <-
        must (py_nth (waypoints sim_route) target_waypoint_index) ;;
      v <- move_vehicle_towards_target v target_waypoint ;;
      let distance_to_target :=
        Geo.calculate_distance (latitude v) (longitude v)
          (Osrm.latitude target_waypoint) (Osrm.longitude target_waypoint) in
      if Rlt_dec distance_to_target 0.1 then
        handle_waypoint_arrival v sim_route target_waypoint_index
      else ret v.

Definition set_vehicle (vid : string) (v : VehicleState) (w : World)
  : World :=
  let s := sim w in
  set_sim (mkSimulator (dict_set vid v (active_simulations s))
             (simulation_routes s) (websocket_callbacks s)
             (simulation_speed_multiplier s) (is_running s) (task_alive s))
          w.

(** [_update_vehicle_position]: the vehicle object is looked up, advanced
    and, being mutated in place, visible in the dictionary afterwards,
    also when the advance raises part-way (then with the fields assigned
    so far, which the model drops: the loop ends on any exception). *)
Definition update_vehicle_position (vid : string) : M World unit :=
  v <- (fun w => must (dict_get vid (active_simulations (sim w))) w) ;;
  sim_route <- (fun w => must (dict_get vid (simulation_routes (sim w))) w) ;;
  v' <- advance_vehicle v sim_route ;;
  modify (set_vehicle vid v').

(** *** Broadcast and the tick loop *)

(** [_broadcast_all_vehicle_states]: nothing without callbacks; otherwise
    every callback receives the same snapshot (a failing callback is
    caught and logged).  The rounding of [to_dict] is not modelled. *)
Definition broadcast_all_vehicle_states : M World unit :=
  fun w =>
    if Nat.eqb (websocket_callbacks (sim w)) 0 then (Some tt, w)
    else
      let snap := mkSnapshot (Osrm.now (osrm w))
                    (map snd (active_simulations (sim w)))
                    (is_running (sim w)) in
      (Some tt,
       mkWorld (osrm w) (draws w) (drawn w) (sim w) (snapshots w ++ [snap])
               (status_log w)).

(** The [for vehicle_id, vehicle_state in ...items()] loop of one tick;
    returns [active_vehicles]. *)
Fixpoint update_all (ids : list string) : M World nat :=
  match ids with
  | [] => ret 0%nat
  | vid :: rest =>
      v <- (fun w => must (dict_get vid (active_simulations (sim w))) w) ;;
      n <- (if status_eqb (status v) COMPLETED then ret 0%nat
            else update_vehicle_position vid ;;; ret 1%nat) ;;
      m <- update_all rest ;;
      ret (n + m)%nat
  end.

(** One pass through the body of the [while] loop of [_simulation_loop];
    [false] is the [break]. *)
Definition loop_iteration : M World bool :=
  start_time <- time ;;
  ids <- gets (fun w => map fst (active_simulations (sim w))) ;;
  active_vehicles <- update_all ids ;;
  broadcast_all_vehicle_states ;;;
  if Nat.eqb active_vehicles 0 then ret false
  else
    t <- time ;;
    let elapsed := t - start_time in
    let sleep_time := Rmax 0 (update_interval - elapsed) in
    sleep sleep_time ;;;
    ret true.

Definition set_running (running alive : bool) (w : World) : World :=
  let s := sim w in
  set_sim (mkSimulator (active_simulations s) (simulation_routes s)
             (websocket_callbacks s) (simulation_speed_multiplier s)
             running alive) w.

(** The background task runs [_simulation_loop] for one iteration: the
    loop test, the body inside [try], and on exit or exception the
    [finally] clause, after which the task is done. *)
Definition tick : M World unit :=
  alive <- gets (fun w => task_alive (sim w)) ;;
  if negb alive then ret tt
  else
    go <- gets (fun w =>
      (is_running (sim w) &&
       negb (Nat.eqb (List.length (active_simulations (sim w))) 0))%bool) ;;
    if negb go then modify (set_running false false)
    else
      try_except
        (again <- loop_iteration ;;
         if again then ret tt else modify (set_running false false))
        (modify (set_running false false)).

(** [_simulation_loop] run for [n] iterations; the loop itself need not
    ever end. *)
Fixpoint simulation_loop (n : nat) : M World unit :=
  match n with
  | O => ret tt
  | S n' => tick ;;; simulation_loop n'
  end.

(** *** Starting and stopping a run *)

Definition order_waypoint (o : Order) : Osrm.RoutePoint :=
  Osrm.mkRoutePoint (loc_lat o) (loc_lon o) (loc_name o) (order_weight o) 5.

Definition get_or (o : option R) (default : R) : R :=
  match o with
  | Some x => x
  | None => default
  end.

Definition set_route (vid : string) (r : SimulationRoute) (w : World)
  : World :=
  let s := sim w in
  set_sim (mkSimulator (active_simulations s)
             (dict_set vid r (simulation_routes s)) (websocket_callbacks s)
             (simulation_speed_multiplier s) (is_running s) (task_alive s))
          w.

(** [_initialize_vehicle_route]. *)
Definition initialize_vehicle_route (route : RouteDict)
  (depot : Osrm.RoutePoint) : M World unit :=
  let vid := rd_vehicle_id route in
  let waypoints := [depot] ++ map order_waypoint (rd_orders route) ++ [depot] in
  geometry <- try_except
    (start <- must (py_nth waypoints 0) ;;
     finish <- must (py_nth waypoints (-1)) ;;
     g <- lift (Osrm.get_route_geometry_async start finish
                  (removelast (tl waypoints))) ;;
     ret (Some g))
    (ret None) ;;
  let sim_route :=
    mkSimulationRoute vid waypoints geometry
      (get_or (rd_total_distance route) 0)
      (get_or (rd_estimated_time route) 0)
      (rd_orders route) in
  modify (set_route vid sim_route) ;;;
  let initial_cargo := py_sum (map order_weight (rd_orders route)) in
  t <- time ;;
  let vehicle_state :=
    mkVehicleState vid (Osrm.latitude depot) (Osrm.longitude depot)
      0 0 IDLE initial_cargo 0 0 0 t in
  modify (set_vehicle vid vehicle_state).

(** The [for vehicle_state in self.active_simulations.values()] loop of
    [stop_simulation]. *)
Fixpoint complete_all (ids : list string) : M World unit :=
  match ids with
  | [] => ret tt
  | vid :: rest =>
      v <- (fun w => must (dict_get vid (active_simulations (sim w))) w) ;;
      v <- assign_status COMPLETED v ;;
      modify (set_vehicle vid (with_progress 100 v)) ;;;
      complete_all rest
  end.

(** [stop_simulation]: cancelling the task makes it run its [finally]
    clause and end. *)
Definition stop_simulation : M World unit :=
  modify (set_running false false) ;;;
  ids <- gets (fun w => map fst (active_simulations (sim w))) ;;
  complete_all ids ;;;
  broadcast_all_vehicle_states.

Fixpoint initialize_routes (routes : list RouteDict)
  (depot : Osrm.RoutePoint) : M World unit :=
  match routes with
  | [] => ret tt
  | route :: rest =>
      initialize_vehicle_route route depot ;;;
      initialize_routes rest depot
  end.

(** [start_simulation]; the created task starts at its first [tick]. *)
Definition start_simulation (routes : list RouteDict)
  (depot : Osrm.RoutePoint) : M World bool :=
  try_except
    (stop_simulation ;;;
     initialize_routes routes depot ;;;
     modify (set_running true true) ;;;
     ret true)
    (ret false).

(** [set_simulation_speed]. *)
Definition set_simulation_speed (multiplier : R) : M World unit :=
  modify (fun w =>
    let s := sim w in
    set_sim (mkSimulator (active_simulations s) (simulation_routes s)
               (websocket_callbacks s) (Rmax 1 (Rmin 1000 multiplier))
               (is_running s) (task_alive s)) w).

(** [add_websocket_callback]. *)
Definition add_websocket_callback : M World unit :=
  modify (fun w =>
    let s := sim w in
    set_sim (mkSimulator (active_simulations s) (simulation_routes s)
               (S (websocket_callbacks s)) (simulation_speed_multiplier s)
               (is_running s) (task_alive s)) w).

(** The operations of the engine: the public methods, and one iteration
    of the background task.  [get_simulation_status] only reads.  The
    operations follow one another: a call made by another task while an
    iteration is suspended inside a delivery pause is outside this
    model. *)
Inductive Op : Type :=
| AddCallback
| Start (routes : list RouteDict) (depot : Osrm.RoutePoint)
| Stop
| Tick
| SetSpeed (multiplier : R)
| GetStatus.

Definition run_op (op : Op) : M World unit :=
  match op with
  | AddCallback => add_websocket_callback
  | Start routes depot => start_simulation routes depot ;;; ret tt
  | Stop => stop_simulation
  | Tick => tick
  | SetSpeed m => set_simulation_speed m
  | GetStatus => ret tt
  end.

(** The state after a sequence of operations; an operation that raises
    leaves the state it reached. *)
Fixpoint run_ops (ops : list Op) (w : World) : World :=
  match ops with
  | [] => w
  | op :: rest => run_ops rest (snd (run_op op w))
  end.

(** A fresh process: both module-level singletons just constructed. *)
Definition fresh_world (t0 : R) (network : Osrm.Network)
  (randoms : nat -> R) : World :=
  mkWorld (Osrm.mkWorld t0 0 [] network Osrm.init_client)
          randoms 0 init_simulator [] [].

End Sim.

(** ** Vocabulary and inputs for the statements about the client *)

Module OsrmSpec.

Import Osrm.

(** The ways a trip request can fail: the request itself raises; the
    status is not 200; the body is not JSON; the service reports a code
    other than "Ok"; the answer holds no trip; the first trip has no
    "legs"; a leg has no "waypoint_index". *)
Inductive trip_failure : Response TripBody -> Prop :=
| trip_unreachable : trip_failure NetworkError
| trip_bad_status status body :
    status <> 200%Z -> trip_failure (Reply status body)
| trip_bad_json : trip_failure (Reply 200 None)
| trip_bad_code data :
    tb_code data <> Some "Ok"%string -> trip_failure (Reply 200 (Some data))
| trip_no_trips data :
    tb_trips data = [] -> trip_failure (Reply 200 (Some data))
| trip_no_legs data trip rest :
    tb_trips data = trip :: rest -> trip_legs trip = None ->
    trip_failure (Reply 200 (Some data))
| trip_no_index data trip rest legs :
    tb_trips data = trip :: rest -> trip_legs trip = Some legs ->
    waypoint_indices legs = None ->
    trip_failure (Reply 200 (Some data)).

(** What the trip request of [get_optimized_route_order] is answered. *)
Definition trip_answer (w : World) (depot : RoutePoint)
  (delivery_points : list RoutePoint) : Response TripBody :=
  trip_reply (net w) (sent w) (current_url (client w))
             (lonlat (depot :: delivery_points)).

(** A depot and two delivery points. *)
Definition origin : RoutePoint := mkRoutePoint 0 0 "depot" 0 5.
Definition stop_east : RoutePoint := mkRoutePoint 0 1 "east" 100 5.
Definition stop_north : RoutePoint := mkRoutePoint 1 0 "north" 50 5.

(** A fresh client whose service does not answer. *)
Definition silent_world : World :=
  mkWorld 0 0 [] silent_network init_client.

(** The world after one request to the current endpoint: the request is
    counted and logged, nothing else changes. *)
Definition requested (service : Service) (coords : list (R * R)) (w : World)
  : World :=
  mkWorld (now w) (S (sent w))
    (events w ++ [Requested service (current_url (client w)) coords])
    (net w) (client w).

(** What counts as a failed route request: the request raises; the
    status is not 200; the body is not JSON; the code is not "Ok"; there
    is no route; the first route lacks its coordinates, distance or
    duration. *)
Inductive route_failure : Response RouteBody -> Prop :=
| route_unreachable : route_failure NetworkError
| route_bad_status status body :
    status <> 200%Z -> route_failure (Reply status body)
| route_bad_json : route_failure (Reply 200 None)
| route_bad_code data :
    rb_code data <> Some "Ok"%string -> route_failure (Reply 200 (Some data))
| route_no_routes data :
    rb_routes data = [] -> route_failure (Reply 200 (Some data))
| route_malformed data route rest :
    rb_routes data = route :: rest ->
    rj_coordinates route = None \/ rj_distance route = None \/
    rj_duration route = None ->
    route_failure (Reply 200 (Some data)).

(** What the route request of a call is answered. *)
Definition route_answer (w : World) (coords : list (R * R))
  : Response RouteBody :=
  route_reply (net w) (sent w) (current_url (client w)) coords.

(** No entry younger than the time to live is cached under the key. *)
Definition cache_miss (w : World) (coords : list (R * R)) : Prop :=
  match cache_get coords (route_cache (client w)) with
  | Some entry => ~ now w - timestamp entry < cache_ttl
  | None => True
  end.

(** The answer of a healthy service for the road from [origin] to
    [stop_east]: three samples, 120 km, two hours. *)
Definition road : RouteJson :=
  mkRouteJson (Some [(0, 0); (0.5, 0.2); (1, 0)]) "LineString"
              (Some [mkLegJson (Some ["depart"; "arrive"]%string)])
              (Some 120000) (Some 7200).

Definition road_body : RouteBody := mkRouteBody (Some "Ok"%string) [road].

Definition road_geometry : RouteGeometry :=
  mkRouteGeometry [(0, 0); (0.2, 0.5); (0, 1)] 120000 7200
                  ["depart"; "arrive"]%string "LineString".

(** A service that fails the first request of the process with status
    503 and answers every later request, on any endpoint. *)
Definition recovering_network : Network :=
  mkNetwork (fun _ _ _ => NetworkError)
            (fun n _ _ => match n with
                          | O => Reply 503 None
                          | S _ => Reply 200 (Some road_body)
                          end)
            (fun _ _ _ => NetworkError).

Definition recovering_world : World :=
  mkWorld 0 0 [] recovering_network init_client.

(** The sum of the great-circle distances between consecutive points. *)
Fixpoint segment_sum (coordinates : list (R * R)) : R :=
  match coordinates with
  | p :: (q :: _) as rest => Geo.haversine_distance p q + segment_sum rest
  | _ => 0
  end.

Definition latlon (points : list RoutePoint) : list (R * R) :=
  map (fun p => (latitude p, longitude p)) points.

(** A service that answers the first request of the process with a
    route and is unreachable from then on. *)
Definition failing_network : Network :=
  mkNetwork (fun _ _ _ => NetworkError)
            (fun n _ _ => match n with
                          | O => Reply 200 (Some road_body)
                          | S _ => NetworkError
                          end)
            (fun _ _ _ => NetworkError).

Definition failing_world : World :=
  mkWorld 0 0 [] failing_network init_client.

(** The world after the first call, made while the service answered. *)
Definition world_with_cached_road : World :=
  mkWorld 0 1
    [Requested Route "https://router.project-osrm.org" [(0, 0); (1, 0)]]
    failing_network
    (mkClient "https://router.project-osrm.org" "http://localhost:5000"
       "https://router.project-osrm.org"
       [([(0, 0); (1, 0)], mkCacheEntry road_geometry 0)]).

(** A service that answers every request with status 503. *)
Definition refusing_network : Network :=
  mkNetwork (fun _ _ _ => Reply 503 None) (fun _ _ _ => Reply 503 None)
            (fun _ _ _ => Reply 503 None).

End OsrmSpec.

(** ** Vocabulary and inputs for the statements about the engine *)

Module SimSpec.

Import Sim.

(** A computation that leaves the part [g] of the simulator as it found
    it, whether it returns or raises. *)
Definition keeps {X A : Type} (g : Simulator -> X) (m : M World A) : Prop :=
  forall w, g (sim (snd (m w))) = g (sim w).



(** The vehicle after a delivery at waypoint [i]. *)
Definition delivered (v : VehicleState) (r : SimulationRoute) (i : Z)
  : VehicleState :=
  let cargo :=
    match py_nth (orders r) (i - 1) with
    | Some order => current_cargo v - order_weight order
    | None => current_cargo v
    end in
  mkVehicleState (vehicle_id v) (latitude v) (longitude v) (speed v)
    (heading v) MOVING cargo (fuel_used v)
    (IZR i / IZR (len (waypoints r) - 1) * 100) i (last_updated v).

(** The world after the delivery pause of vehicle [vid]. *)
Definition paused (vid : string) (w : World) : World :=
  let pause := delivery_time * 60 / simulation_speed_multiplier (sim w) in
  let o := osrm w in
  mkWorld
    (Osrm.mkWorld (Osrm.now o + Rmax 0 pause) (Osrm.sent o)
       (Osrm.events o ++ [Osrm.Slept pause]) (Osrm.net o) (Osrm.client o))
    (draws w) (drawn w) (sim w) (snapshots w)
    ((status_log w ++ [(vid, DELIVERING)]) ++ [(vid, MOVING)]).

(** A route of one stop: depot, stop, depot. *)
Definition one_stop_route : SimulationRoute :=
  mkSimulationRoute "V1"
    [Osrm.mkRoutePoint 0 0 "depot" 0 5;
     Osrm.mkRoutePoint 0 0 "stop" 100 5;
     Osrm.mkRoutePoint 0 0 "depot" 0 5]
    None 0 0 [mkOrder 0 0 "stop" 100].

Definition loaded_vehicle : VehicleState :=
  mkVehicleState "V1" 0 0 0 0 IDLE 100 0 0 0 0.

(** A vehicle that has made its delivery at the far stop, stands there
    and is to drive back to the depot. *)
Definition driving_vehicle : VehicleState :=
  mkVehicleState "V1" 0 180 0 0 MOVING 0 0 50 1 0.

(** A vehicle that has made its delivery next door to the depot and has
    only the depot left to reach. *)
Definition last_leg_vehicle : VehicleState :=
  mkVehicleState "V1" 0 0 0 0 MOVING 0 0 50 1 0.

Definition quiet_world : World :=
  fresh_world 0 Osrm.silent_network (fun _ => 1).

(** The same process at real-time speed (multiplier 1). *)
Definition real_time_world : World :=
  mkWorld (osrm quiet_world) (draws quiet_world) (drawn quiet_world)
    (mkSimulator [] [] 0 1 false false) [] [].

(** The vehicle after [_move_vehicle_towards_target], given the target
    speed [target_speed], the speed multiplier and the time of the
    update. *)
Definition moved (v : VehicleState) (target : Osrm.RoutePoint)
  (target_speed multiplier t : R) : VehicleState :=
  let bearing :=
    Geo.calculate_bearing (latitude v) (longitude v)
      (Osrm.latitude target) (Osrm.longitude target) in
  let h := turn_towards (heading v) bearing in
  let s := approach_speed (speed v) target_speed in
  let distance_km := (s * multiplier * update_interval) / 3600 in
  let p := Geo.move_along_bearing (latitude v) (longitude v) h distance_km in
  mkVehicleState (vehicle_id v) (fst p) (snd p) s h (status v)
    (current_cargo v)
    (fuel_used v + distance_km * (0.08 + (current_cargo v / 1000 * 0.02)))
    (progress v) (current_order_index v) t.

Definition after_draw (w : World) : World :=
  mkWorld (osrm w) (draws w) (S (drawn w)) (sim w) (snapshots w)
          (status_log w).

(** The smaller of the two rotations between two headings, in degrees. *)
Definition angular_distance (a b : R) : R :=
  Rmin (Geo.normalize_angle (a - b)) (Geo.normalize_angle (b - a)).

(** A vehicle at the depot on the equator, heading north, whose next
    waypoint lies due west. *)
Definition northbound : VehicleState :=
  mkVehicleState "V1" 0 0 0 0 IDLE 100 0 0 0 0.

Definition west_stop : Osrm.RoutePoint :=
  Osrm.mkRoutePoint 0 (-90) "west" 100 5.

(** The waypoint a vehicle is heading for. *)
Definition target_index (v : VehicleState) (r : SimulationRoute) : Z :=
  Z.min (current_order_index v + 1) (len (waypoints r) - 1).

(** A route of one stop at the antipode of the depot. *)
Definition far_stop_route : SimulationRoute :=
  mkSimulationRoute "V1"
    [Osrm.mkRoutePoint 0 0 "depot" 0 5;
     Osrm.mkRoutePoint 0 180 "far" 100 5;
     Osrm.mkRoutePoint 0 0 "depot" 0 5]
    None 0 0 [mkOrder 0 180 "far" 100].

(** The waypoints of a route: depot, the stops in order, depot. *)
Definition route_waypoints (route : RouteDict) (depot : Osrm.RoutePoint)
  : list Osrm.RoutePoint :=
  [depot] ++ map order_waypoint (rd_orders route) ++ [depot].

(** The world after [_initialize_vehicle_route], given the geometry [g]
    obtained and the client's world [o] after obtaining it. *)
Definition installed (route : RouteDict) (depot : Osrm.RoutePoint)
  (g : Osrm.RouteGeometry) (o : Osrm.World) (w : World) : World :=
  let vid := rd_vehicle_id route in
  let s := sim w in
  mkWorld o (draws w) (drawn w)
    (mkSimulator
       (dict_set vid
          (mkVehicleState vid (Osrm.latitude depot) (Osrm.longitude depot)
             0 0 IDLE (py_sum (map order_weight (rd_orders route))) 0 0 0
             (Osrm.now o))
          (active_simulations s))
       (dict_set vid
          (mkSimulationRoute vid (route_waypoints route depot) (Some g)
             (get_or (rd_total_distance route) 0)
             (get_or (rd_estimated_time route) 0) (rd_orders route))
          (simulation_routes s))
       (websocket_callbacks s) (simulation_speed_multiplier s)
       (is_running s) (task_alive s))
    (snapshots w) (status_log w).

(** The world at the end of one loop iteration that started at time
    [start] and whose vehicle updates led to [w1]: broadcast, then sleep
    for what is left of the update interval. *)
Definition after_iteration (start : R) (w1 : World) : World :=
  let w2 := snd (broadcast_all_vehicle_states w1) in
  snd (sleep (Rmax 0 (update_interval - (Osrm.now (osrm w2) - start))) w2).

(** The state in which the vehicle of [route] is found before and after
    every tick: idle at the depot with its full cargo, and no status
    ever assigned. *)
Definition parked (route : RouteDict) (depot : Osrm.RoutePoint) (w : World)
  : Prop :=
  exists v r,
    sim w = mkSimulator [(rd_vehicle_id route, v)] [(rd_vehicle_id route, r)]
              0 100 true true /\
    status_log w = [] /\
    waypoints r = route_waypoints route depot /\
    status v = IDLE /\ speed v = 0 /\
    latitude v = Osrm.latitude depot /\
    longitude v = Osrm.longitude depot /\
    current_order_index v = 0%Z /\
    current_cargo v = py_sum (map order_weight (rd_orders route)) /\
    progress v = 0.

Definition equator_depot : Osrm.RoutePoint :=
  Osrm.mkRoutePoint 0 0 "depot" 0 5.

(** One vehicle with one order of 100 kg at the antipode of the depot. *)
Definition far_route : RouteDict :=
  mkRouteDict "V1" [mkOrder 0 180 "far" 100] (Some 20015) (Some 26000).

(** Vehicle A has its first order at the depot's own address; vehicle B
    has to cross half the globe. *)
Definition route_a : RouteDict :=
  mkRouteDict "A" [mkOrder 0 0 "next door" 40] None None.

Definition route_b : RouteDict :=
  mkRouteDict "B" [mkOrder 0 180 "far" 100] None None.

Definition real_time_run : list Op :=
  [AddCallback; SetSpeed 1; Start [route_a; route_b] equator_depot; Tick].

Definition vehicle_ok (v : VehicleState) : Prop :=
  0 <= speed v <= max_speed /\ 0 <= heading v < 360 /\
  (0 <= current_order_index v)%Z.

(** Every vehicle is within its bounds and has a route with at least one
    waypoint; the multiplier is within [1, 1000]. *)
Definition engine_ok (s : Simulator) : Prop :=
  1 <= simulation_speed_multiplier s <= 1000 /\
  forall vid v,
    dict_get vid (active_simulations s) = Some v ->
    vehicle_ok v /\
    exists r, dict_get vid (simulation_routes s) = Some r /\ waypoints r <> [].

(** A computation that keeps the invariant, whether it returns or
    raises. *)
Definition preserves {A : Type} (m : M World A) : Prop :=
  forall w, engine_ok (sim w) -> engine_ok (sim (snd (m w))).

End SimSpec.

(** ** The distance matrix and the two caches of the client
    ([osrm_client.py]) *)

Module Matrix.

Import Osrm.

Local Open Scope mon_scope.

(** One entry of [distance_cache]: the matrix, a list of rows, and the
    time at which it was stored. *)
Record MatrixEntry : Type := mkMatrixEntry {
  matrix : list (list R);
  matrix_timestamp : R
}.

(** The client's world together with its [distance_cache], which
    [Osrm.Client] leaves out.  A key is the integer that [hash] returns;
    the code uses its decimal text. *)
Record Store : Type := mkStore {
  world : Osrm.World;
  distance_cache : list (Z * MatrixEntry)
}.

(** A coroutine of the client that does not touch [distance_cache]. *)
Definition on_world {A : Type} (m : M Osrm.World A) : M Store A :=
  fun s =>
    let '(r, w) := m (world s) in
    (r, mkStore w (distance_cache s)).

(** Dictionary read and write on [distance_cache]. *)
Fixpoint matrix_get (key : Z) (cache : list (Z * MatrixEntry))
  : option MatrixEntry :=
  match cache with
  | [] => None
  | (k, e) :: rest => if (key =? k)%Z then Some e else matrix_get key rest
  end.

Fixpoint matrix_put (key : Z) (entry : MatrixEntry)
  (cache : list (Z * MatrixEntry)) : list (Z * MatrixEntry) :=
  match cache with
  | [] => [(key, entry)]
  | (k, e) :: rest =>
      if (key =? k)%Z then (k, entry) :: rest
      else (k, e) :: matrix_put key entry rest
  end.

(** [enumerate(points)]. *)
Definition enumerate {A : Type} (l : list A) : list (nat * A) :=
  combine (seq 0 (List.length l)) l.

(** [_calculate_haversine_matrix]: a matrix of zeros in which every
    entry off the diagonal is overwritten with the great-circle
    distance. *)
Definition calculate_haversine_matrix (points : list RoutePoint)
  : list (list R) :=
  map (fun ip =>
         map (fun jq =>
                if Nat.eqb (fst ip) (fst jq) then 0
                else
                  let p1 := (latitude (snd ip), longitude (snd ip)) in
                  let p2 := (latitude (snd jq), longitude (snd jq)) in
                  Geo.haversine_distance p1 p2)
             (enumerate points))
      (enumerate points).

(** [get_cache_stats] returns these five numbers. *)
Record CacheStats : Type := mkCacheStats {
  distance_cache_size : nat;
  route_cache_size : nat;
  valid_distance_entries : nat;
  valid_route_entries : nat;
  cache_ttl_seconds : R
}.

(** [sum(1 for entry in ... if current_time - entry['timestamp'] < ttl)]. *)
Definition count_valid {K E : Type} (stamp : E -> R) (current_time : R)
  (cache : list (K * E)) : nat :=
  List.length
    (filter (fun kv =>
               if Rlt_dec (current_time - stamp (snd kv)) cache_ttl
               then true else false) cache).

(** [get_cache_stats]. *)
Definition get_cache_stats : M Store CacheStats :=
  gets (fun s =>
    let current_time := now (world s) in
    mkCacheStats
      (List.length (distance_cache s))
      (List.length (route_cache (client (world s))))
      (count_valid matrix_timestamp current_time (distance_cache s))
      (count_valid timestamp current_time (route_cache (client (world s))))
      cache_ttl).

(** [clear_cache]. *)
Definition clear_cache : M Store unit :=
  modify (fun s =>
    mkStore (set_client (set_route_cache [] (client (world s))) (world s))
            []).

Section Builtins.

(** Python's [round(x, ndigits)] on floats and [hash] of a tuple of
    pairs of floats.  Both are taken as given: nothing is assumed of
    them. *)
Variable round : R -> Z -> R.
Variable hash : list (R * R) -> Z.

(** [_generate_cache_key]. *)
Definition generate_cache_key (points : list RoutePoint) : Z :=
  let coords :=
    map (fun p => (round (latitude p) 4, round (longitude p) 4)) points in
  hash coords.

(** [get_distance_matrix_async]. *)
Definition get_distance_matrix_async (points : list RoutePoint)
  : M Store (list (list R)) :=
  if (List.length points <=? 1)%nat then ret [[0]]
  else
    let cache_key := generate_cache_key points in
    cached <- gets (fun s =>
      match matrix_get cache_key (distance_cache s) with
      | Some entry =>
          if Rlt_dec (now (world s) - matrix_timestamp entry) cache_ttl
          then Some (matrix entry) else None
      | None => None
      end) ;;
    match cached with
    | Some m => ret m
    | None =>
        let coordinates := lonlat points in
        try_except
          (m <- on_world (fetch_distance_matrix coordinates) ;;
           modify (fun s =>
             mkStore (world s)
               (matrix_put cache_key (mkMatrixEntry m (now (world s)))
                           (distance_cache s))) ;;;
           ret m)
          (ret (calculate_haversine_matrix points))
    end.

(** The calls a user of the client can make. *)
Inductive Call : Type :=
| DistanceMatrix (points : list RoutePoint)
| RouteGeometryOf (start finish : RoutePoint) (waypoints : list RoutePoint)
| OptimizedOrder (depot : RoutePoint) (delivery_points : list RoutePoint)
| ClearCache
| CacheStatsOf.

Definition run_call (c : Call) : M Store unit :=
  match c with
  | DistanceMatrix points => get_distance_matrix_async points ;;; ret tt
  | RouteGeometryOf start finish waypoints =>
      on_world (get_route_geometry_async start finish waypoints) ;;; ret tt
  | OptimizedOrder depot delivery_points =>
      on_world (get_optimized_route_order depot delivery_points) ;;; ret tt
  | ClearCache => clear_cache
  | CacheStatsOf => get_cache_stats ;;; ret tt
  end.

(** The store after a sequence of calls. *)
Fixpoint run_calls (calls : list Call) (s : Store) : Store :=
  match calls with
  | [] => s
  | c :: rest => run_calls rest (snd (run_call c s))
  end.

End Builtins.

End Matrix.

(** ** The status report of the engine ([simulator.py]) and the count the
    web-socket layer derives from a snapshot ([live_ws.py]) *)

Module Status.

Import Sim.

(** What [get_simulation_status] returns: the two-key dictionary of an
    engine without vehicles, or the statistics. *)
Inductive Report : Type :=
| NoVehicles
| Statistics (running : bool) (total_vehicles active_vehicles : nat)
    (average_progress total_fuel_used speed_multiplier interval : R).

(** [state.status not in [VehicleStatus.IDLE, VehicleStatus.COMPLETED]]. *)
Definition is_active (v : VehicleState) : bool :=
  negb (status_eqb (status v) IDLE || status_eqb (status v) COMPLETED).

Section Rounding.

(** Python's [round(x, ndigits)], taken as given. *)
Variable round : R -> Z -> R.

(** [get_simulation_status]. *)
Definition get_simulation_status (s : Simulator) : Report :=
  match active_simulations s with
  | [] => NoVehicles
  | _ :: _ =>
      let states := map snd (active_simulations s) in
      let total_progress := py_sum (map progress states) in
      let avg_progress := total_progress / INR (List.length states) in
      let active_count := List.length (filter is_active states) in
      let total_fuel_used := py_sum (map fuel_used states) in
      Statistics (is_running s) (List.length states) active_count
        (round avg_progress 1) (round total_fuel_used 2)
        (simulation_speed_multiplier s) update_interval
  end.

End Rounding.

(** The [active_count] that [ConnectionManager.broadcast_vehicle_update]
    puts into its message: the vehicles of the snapshot whose status is
    not "completed". *)
Definition ws_active_count (vehicles : list VehicleState) : nat :=
  List.length
    (filter (fun v => negb (status_eqb (status v) COMPLETED)) vehicles).

End Status.

(** ** Vocabulary for the statements about the distance matrix *)

Module MatrixSpec.

Import Osrm Matrix.

(** The entry in row [i], column [j]. *)
Definition entry (m : list (list R)) (i j : nat) : option R :=
  match nth_error m i with
  | Some row => nth_error row j
  | None => None
  end.

Definition latlon_of (p : RoutePoint) : R * R := (latitude p, longitude p).

(** What one attempt of [_fetch_distance_matrix] makes of the answer to
    its request: a matrix to return; an exception (no connection, a body
    that is not JSON, no "distances"); or an answer that is not a
    success without being an exception (a status other than 200, a code
    other than "Ok"). *)
Inductive Outcome : Type :=
| Delivered (m : list (list R))
| Raised
| Declined.

Definition outcome (r : Response TableBody) : Outcome :=
  match r with
  | NetworkError => Raised
  | Reply status body =>
      if (status =? 200)%Z then
        match body with
        | None => Raised
        | Some data =>
            if is_ok (tbl_code data) then
              match tbl_distances data with
              | Some distances =>
                  Delivered (map (map (fun d => d / 1000)) distances)
              | None => Raised
              end
            else Declined
        end
      else Declined
  end.

(** What the table request sent from [w] is answered. *)
Definition table_answer (w : World) (coords : list (R * R))
  : Response TableBody :=
  table_reply (net w) (sent w) (current_url (client w)) coords.

(** The world after one table request. *)
Definition asked (coords : list (R * R)) (w : World) : World :=
  mkWorld (now w) (S (sent w))
    (events w ++ [Requested Table (current_url (client w)) coords])
    (net w) (client w).

(** The world after the back-off sleep that follows attempt [attempt]. *)
Definition backed_off (attempt : nat) (w : World) : World :=
  if (attempt <? max_retries - 1)%nat
  then snd (sleep (retry_delay * (INR attempt + 1)) w)
  else w.

(** The world after the switch of endpoint that may follow attempt
    [attempt]. *)
Definition switched (attempt : nat) (w : World) : World :=
  if (String.eqb (current_url (client w)) (primary_url (client w)) &&
      Nat.eqb attempt 0)%bool
  then set_client (set_current_url (fallback_url (client w)) (client w)) w
  else w.

(** The longest time the back-off sleeps of the given attempts can
    take. *)
Fixpoint backoff_budget (attempts : list nat) : R :=
  match attempts with
  | [] => 0
  | attempt :: rest =>
      (if (attempt <? max_retries - 1)%nat
       then retry_delay * (INR attempt + 1) else 0) + backoff_budget rest
  end.

(** No entry younger than the time to live is cached under the key. *)
Definition matrix_miss (s : Store) (key : Z) : Prop :=
  match matrix_get key (distance_cache s) with
  | Some e => ~ now (world s) - matrix_timestamp e < cache_ttl
  | None => True
  end.

(** A table answer for two points: 1500 m each way. *)
Definition table_body : TableBody :=
  mkTableBody (Some "Ok"%string) (Some [[0; 1500]; [1500; 0]]).

(** A service that answers every table request with that matrix. *)
Definition answering_network : Network :=
  mkNetwork (fun _ _ _ => Reply 200 (Some table_body))
            (fun _ _ _ => NetworkError) (fun _ _ _ => NetworkError).

(** A service that answers every trip request with the round trip
    depot, second stop, first stop. *)
Definition trip_body : TripBody :=
  mkTripBody (Some "Ok"%string)
             [mkTripJson (Some [Some 0%Z; Some 2%Z; Some 1%Z])].

Definition trip_network : Network :=
  mkNetwork (fun _ _ _ => NetworkError) (fun _ _ _ => NetworkError)
            (fun _ _ _ => Reply 200 (Some trip_body)).

(** Stand-ins for Python's [round] and [hash] where a statement is
    tried on a concrete input: no rounding, and a hash that sends every
    tuple to 0. *)
Definition no_round (x : R) (ndigits : Z) : R := x.
Definition constant_hash (coords : list (R * R)) : Z := 0%Z.

(** A fresh client with an empty distance cache. *)
Definition fresh_store (t0 : R) (network : Network) : Store :=
  mkStore (mkWorld t0 0 [] network init_client) [].

(** A client that has switched to its secondary endpoint. *)
Definition switched_store : Store :=
  mkStore (mkWorld 0 0 [] silent_network
             (set_current_url "http://localhost:5000" init_client)) [].

End MatrixSpec.

(** ** Vocabulary for the statements about runs of the engine *)

Module EngineSpec.

Import Sim SimSpec.

(** A computation that leaves the part [g] of the world as it found it,
    whether it returns or raises. *)
Definition leaves {X A : Type} (g : World -> X) (m : M World A) : Prop :=
  forall w, g (snd (m w)) = g w.

(** A computation that keeps the property [I] of the world, whether it
    returns or raises. *)
Definition maintains {A : Type} (I : World -> Prop) (m : M World A) : Prop :=
  forall w, I w -> I (snd (m w)).

(** What the engine holds and has shown: the simulator and the
    snapshots handed out so far. *)
Definition engine_view (w : World) : Simulator * list Snapshot :=
  (sim w, snapshots w).

(** The vehicle as [stop_simulation] leaves it. *)
Definition completed (v : VehicleState) : VehicleState :=
  with_progress 100 (with_status COMPLETED v).

(** The vehicle and the route that [_initialize_vehicle_route] stores. *)
Definition fresh_vehicle (route : RouteDict) (depot : Osrm.RoutePoint)
  (t : R) : VehicleState :=
  mkVehicleState (rd_vehicle_id route) (Osrm.latitude depot)
    (Osrm.longitude depot) 0 0 IDLE
    (py_sum (map order_weight (rd_orders route))) 0 0 0 t.

Definition fresh_route (route : RouteDict) (depot : Osrm.RoutePoint)
  (g : Osrm.RouteGeometry) : SimulationRoute :=
  mkSimulationRoute (rd_vehicle_id route) (route_waypoints route depot)
    (Some g) (get_or (rd_total_distance route) 0)
    (get_or (rd_estimated_time route) 0) (rd_orders route).

(** The vehicle after an arrival at waypoint [i] of its route. *)
Definition arrived (v : VehicleState) (r : SimulationRoute) (i : Z)
  : VehicleState :=
  if (i =? 0)%Z then with_order_index 0 (with_status MOVING v)
  else if (i =? len (waypoints r) - 1)%Z then
    with_speed 0 (with_cargo 0 (with_progress 100 (with_status COMPLETED v)))
  else delivered v r i.

(** The states of the engine that the invariants below speak about:
    the bounds of [engine_ok]; no identifier registered twice; the
    property [P] of every vehicle and its route; the property [Q] of
    every vehicle of every snapshot handed out. *)
Definition run_inv (P : VehicleState -> SimulationRoute -> Prop)
  (Q : VehicleState -> Prop) (w : World) : Prop :=
  engine_ok (sim w) /\
  NoDup (map fst (active_simulations (sim w))) /\
  (forall vid v r,
     dict_get vid (active_simulations (sim w)) = Some v ->
     dict_get vid (simulation_routes (sim w)) = Some r -> P v r) /\
  Forall (fun snap => Forall Q (snap_vehicles snap)) (snapshots w).

(** Operations whose routes, if any, all satisfy [Good]. *)
Definition good_op (Good : RouteDict -> Prop) (op : Op) : Prop :=
  match op with
  | Start routes _ => Forall Good routes
  | _ => True
  end.




(** Progress as the share of the legs of the route that are done. *)
Definition legs_done (v : VehicleState) (r : SimulationRoute) : Prop :=
  (2 <= len (waypoints r))%Z /\
  (0 <= current_order_index v)%Z /\
  (status v <> COMPLETED ->
   (current_order_index v <= len (waypoints r) - 2)%Z /\
   progress v =
     IZR (current_order_index v) / IZR (len (waypoints r) - 1) * 100) /\
  (status v = COMPLETED -> progress v = 100).

(** The initial cargo less the weights of the first [k] orders, taken
    off one after the other. *)
Definition undelivered (orders : list Order) (k : Z) : R :=
  fold_left Rminus (map order_weight (firstn (Z.to_nat k) orders))
            (py_sum (map order_weight orders)).

(** The cargo on board accounts for the orders not yet delivered. *)
Definition cargo_accounted (v : VehicleState) (r : SimulationRoute) : Prop :=
  len (waypoints r) = (len (orders r) + 2)%Z /\
  Forall (fun o => 0 <= order_weight o) (orders r) /\
  (0 <= current_order_index v)%Z /\
  0 <= current_cargo v <= py_sum (map order_weight (orders r)) /\
  (status v <> COMPLETED ->
   (current_order_index v <= len (orders r))%Z /\
   current_cargo v = undelivered (orders r) (current_order_index v)).

Definition nonnegative_weights (route : RouteDict) : Prop :=
  Forall (fun o => 0 <= order_weight o) (rd_orders route).

(** A route without orders: the vehicle has only to return to the depot
    it stands at. *)
Definition empty_route (vid : string) : RouteDict :=
  mkRouteDict vid [] None None.

(** The world when the tick loop has ended by itself. *)
Definition loop_ended (w : World) : World := set_running false false w.

(** The number of vehicles with the given status. *)
Definition count_status (st : VehicleStatus) (vehicles : list VehicleState)
  : nat :=
  List.length (filter (fun v => status_eqb (status v) st) vehicles).

(** An engine while a delivery pause is awaited: one vehicle is
    DELIVERING, one is still idle, one is moving, one has completed. *)
Definition pausing_engine : Simulator :=
  mkSimulator
    [("A"%string, mkVehicleState "A" 0 0 0 0 DELIVERING 60 0 0 0 0);
     ("B"%string, mkVehicleState "B" 0 0 0 0 IDLE 100 0 0 0 0);
     ("C"%string, mkVehicleState "C" 0 1 40 90 MOVING 0 2 50 1 0);
     ("D"%string, mkVehicleState "D" 0 0 0 0 COMPLETED 0 3 100 1 0)]
    [] 1 100 true true.

(** The world right after a fresh process has started one route. *)
Definition started_world : World :=
  run_ops [Start [far_route] equator_depot] quiet_world.

(** The world as the first tick leaves a route without orders, before
    its broadcast: the vehicle has completed, the loop still runs. *)
Definition finished_world : World :=
  set_vehicle "V1" (mkVehicleState "V1" 0 0 0 0 COMPLETED 0 0 100 0 0)
    (run_ops [Start [empty_route "V1"] equator_depot] quiet_world).

(** Python's [round] stood in for by the identity, where a statement is
    tried on a concrete input. *)
Definition no_rounding (x : R) (ndigits : Z) : R := x.

(** A depot in Istanbul, as the demo uses, and a route of two orders. *)
Definition istanbul : Osrm.RoutePoint :=
  Osrm.mkRoutePoint 41.0082 28.9784 "Istanbul Central Depot" 0 5.

Definition two_orders : RouteDict :=
  mkRouteDict "TR-01"
    [mkOrder 41.02 28.99 "first" 120; mkOrder 41.03 29.01 "second" 80]
    None None.

End EngineSpec.

(** Case analysis on every comparison of reals in sight. *)
Ltac rcases :=
  repeat match goal with
         | |- context [Rle_dec ?a ?b] => destruct (Rle_dec a b)
         | |- context [Rlt_dec ?a ?b] => destruct (Rlt_dec a b)
         | |- context [Rge_dec ?a ?b] => destruct (Rge_dec a b)
         | H : context [Rle_dec ?a ?b] |- _ => destruct (Rle_dec a b)
         | H : context [Rlt_dec ?a ?b] |- _ => destruct (Rlt_dec a b)
         | H : context [Rge_dec ?a ?b] |- _ => destruct (Rge_dec a b)
         end.

(** ** Facts about the geodesic functions *)

Module GeoFacts.

Import Geo.

(** *** The normalisation loops terminate *)

Lemma raise_angle_spec fuel : forall a r,
  raise_angle fuel a = Some r ->
  0 <= r /\ ((0 <= a /\ r = a) \/ (a < 0 /\ r < 360)) /\
  exists k : nat, r = a + 360 * INR k.
Proof.
  induction fuel as [|f IH]; intros a r; simpl;
    destruct (Rlt_dec a 0) as [Hlt|Hge]; try discriminate.
  - intros [= <-]. repeat split; [lra | left; lra |].
    exists 0%nat. simpl. lra.
  - intros H. destruct (IH _ _ H) as (H0 & Hc & k & Hk).
    repeat split; [assumption | right; lra |].
    exists (S k). rewrite S_INR. lra.
  - intros [= <-]. repeat split; [lra | left; lra |].
    exists 0%nat. simpl. lra.
Qed.

Lemma raise_angle_enough fuel : forall a,
  - (360 * INR fuel) <= a -> exists r, raise_angle fuel a = Some r.
Proof.
  induction fuel as [|f IH]; intros a Ha.
  - simpl in *. destruct (Rlt_dec a 0); [lra | eauto].
  - cbn [raise_angle]. destruct (Rlt_dec a 0); [| eauto].
    apply IH. rewrite S_INR in Ha. lra.
Qed.

Lemma lower_angle_spec fuel : forall a r,
  lower_angle fuel a = Some r ->
  r < 360 /\ (0 <= a -> 0 <= r) /\ exists k : nat, r = a - 360 * INR k.
Proof.
  induction fuel as [|f IH]; intros a r; simpl;
    destruct (Rge_dec a 360) as [Hge|Hlt]; try discriminate.
  - intros [= <-]. repeat split; [lra | tauto |].
    exists 0%nat. simpl. lra.
  - intros H. destruct (IH _ _ H) as (H0 & Hc & k & Hk).
    repeat split; [assumption | intros _; apply Hc; lra |].
    exists (S k). rewrite S_INR. lra.
  - intros [= <-]. repeat split; [lra | tauto |].
    exists 0%nat. simpl. lra.
Qed.

Lemma lower_angle_enough fuel : forall a,
  a < 360 * (INR fuel + 1) -> exists r, lower_angle fuel a = Some r.
Proof.
  induction fuel as [|f IH]; intros a Ha.
  - simpl in *. destruct (Rge_dec a 360); [lra | eauto].
  - cbn [lower_angle]. destruct (Rge_dec a 360); [| eauto].
    apply IH. rewrite S_INR in Ha. lra.
Qed.

Lemma turns_bound a : Rabs a < 360 * INR (turns a).
Proof.
  unfold turns.
  destruct (archimed (Rabs a / 360)) as [Hup _].
  assert (Hpos : 0 <= Rabs a / 360).
  { pose proof (Rabs_pos a). apply Rmult_le_pos; lra. }
  assert (Hz : (0 <= up (Rabs a / 360))%Z).
  { apply le_IZR. lra. }
  rewrite INR_IZR_INZ, Z2Nat.id by assumption.
  lra.
Qed.

(** The fuel chosen by [normalize_angle] never runs out. *)
Lemma normalize_angle_fuel_turns a :
  normalize_angle_fuel (turns a) a = Some (normalize_angle a).
Proof.
  unfold normalize_angle, normalize_angle_fuel.
  pose proof (turns_bound a) as Hb.
  assert (Ha : - (360 * INR (turns a)) <= a).
  { apply Rabs_def2 in Hb. lra. }
  destruct (raise_angle_enough _ _ Ha) as [r Hr]. rewrite Hr.
  destruct (raise_angle_spec _ _ _ Hr) as (H0 & Hc & _).
  assert (Hr' : r < 360 * (INR (turns a) + 1)).
  { pose proof (pos_INR (turns a)).
    destruct Hc as [[_ ->]|[_ Hlt]]; [apply Rabs_def2 in Hb |]; lra. }
  destruct (lower_angle_enough _ _ Hr') as [r' Hr2]. now rewrite Hr2.
Qed.

Lemma raise_angle_more fuel : forall a r,
  raise_angle fuel a = Some r -> raise_angle (S fuel) a = Some r.
Proof.
  induction fuel as [|f IH]; intros a r.
  - simpl. destruct (Rlt_dec a 0); [discriminate | auto].
  - intros H. cbn [raise_angle] in H |- *.
    destruct (Rlt_dec a 0); [| assumption].
    apply IH in H. exact H.
Qed.

Lemma lower_angle_more fuel : forall a r,
  lower_angle fuel a = Some r -> lower_angle (S fuel) a = Some r.
Proof.
  induction fuel as [|f IH]; intros a r.
  - simpl. destruct (Rge_dec a 360); [discriminate | auto].
  - intros H. cbn [lower_angle] in H |- *.
    destruct (Rge_dec a 360); [| assumption].
    apply IH in H. exact H.
Qed.

(** More fuel never changes the answer of the loops. *)
Lemma normalize_angle_fuel_more fuel fuel' a r :
  (fuel <= fuel')%nat ->
  normalize_angle_fuel fuel a = Some r ->
  normalize_angle_fuel fuel' a = Some r.
Proof.
  induction 1 as [|m Hle IH]; [auto|].
  intros H. specialize (IH H). unfold normalize_angle_fuel in *.
  destruct (raise_angle m a) as [x|] eqn:Hx; [|discriminate].
  rewrite (raise_angle_more _ _ _ Hx). now apply lower_angle_more.
Qed.

Lemma normalize_angle_range a : 0 <= normalize_angle a < 360.
Proof.
  pose proof (normalize_angle_fuel_turns a) as H.
  unfold normalize_angle_fuel in H.
  destruct (raise_angle (turns a) a) as [x|] eqn:Hx; [|discriminate].
  destruct (raise_angle_spec _ _ _ Hx) as (H0 & _).
  destruct (lower_angle_spec _ _ _ H) as (H1 & H2 & _).
  split; auto.
Qed.

(** The result of any run of the loops that finishes is the result of
    [normalize_angle]. *)
Lemma normalize_angle_fuel_sound fuel a r :
  normalize_angle_fuel fuel a = Some r -> r = normalize_angle a.
Proof.
  intros H. pose proof (normalize_angle_fuel_turns a) as Ht.
  destruct (Nat.le_ge_cases fuel (turns a)) as [Hle|Hle].
  - apply (normalize_angle_fuel_more _ _ _ _ Hle) in H. congruence.
  - apply (normalize_angle_fuel_more _ _ _ _ Hle) in Ht. congruence.
Qed.

Lemma normalize_angle_id a : 0 <= a < 360 -> normalize_angle a = a.
Proof.
  intros Ha. symmetry. apply (normalize_angle_fuel_sound 0).
  unfold normalize_angle_fuel. simpl.
  destruct (Rlt_dec a 0); [lra|]. destruct (Rge_dec a 360); [lra|]. reflexivity.
Qed.

Lemma normalize_angle_neg a : -360 <= a < 0 -> normalize_angle a = a + 360.
Proof.
  intros Ha. symmetry. apply (normalize_angle_fuel_sound 1).
  unfold normalize_angle_fuel. simpl.
  destruct (Rlt_dec a 0); [|lra].
  destruct (Rlt_dec (a + 360) 0); [lra|].
  destruct (Rge_dec (a + 360) 360); [lra|]. reflexivity.
Qed.

Lemma normalize_angle_over a : 360 <= a < 720 -> normalize_angle a = a - 360.
Proof.
  intros Ha. symmetry. apply (normalize_angle_fuel_sound 1).
  unfold normalize_angle_fuel. simpl.
  destruct (Rlt_dec a 0); [lra|].
  destruct (Rge_dec a 360); [|lra].
  destruct (Rge_dec (a - 360) 360); [lra|]. reflexivity.
Qed.

(** *** Values of the trigonometric formulas used below *)

Lemma radians_0 : radians 0 = 0.
Proof. unfold radians. lra. Qed.

Lemma radians_180 : radians 180 = PI.
Proof. unfold radians. lra. Qed.

Lemma radians_neg90 : radians (-90) = - (PI / 2).
Proof. unfold radians. lra. Qed.

Lemma degrees_radians x : degrees (radians x) = x.
Proof. unfold degrees, radians. pose proof PI_neq0. field. assumption. Qed.

Lemma radians_quarter lat : -90 <= lat <= 90 ->
  - (PI / 2) <= radians lat <= PI / 2.
Proof. unfold radians. pose proof PI_RGT_0 as Hpi. intros Hl. split; nra. Qed.

Lemma atan2_0_l x : 0 <= x -> atan2 0 x = 0.
Proof.
  intros Hx. unfold atan2.
  destruct (Rlt_dec 0 x).
  - replace (0 / x) with 0 by (field; lra). apply atan_0.
  - destruct (Rlt_dec x 0); [lra|].
    destruct (Rlt_dec 0 0); [lra|]. reflexivity.
Qed.

(** A point that coincides with the target is at distance zero. *)
Lemma calculate_distance_same lat lon : calculate_distance lat lon lat lon = 0.
Proof.
  unfold calculate_distance.
  replace ((radians lat - radians lat) / 2) with 0 by lra.
  replace ((radians lon - radians lon) / 2) with 0 by lra.
  rewrite sin_0.
  replace (0 ^ 2 + cos (radians lat) * cos (radians lat) * 0 ^ 2) with 0
    by (simpl; lra).
  rewrite sqrt_0, asin_0. lra.
Qed.

(** Moving by zero kilometres leaves a point where it is. *)
Lemma move_along_bearing_0 lat lon bearing :
  -90 <= lat <= 90 -> move_along_bearing lat lon bearing 0 = (lat, lon).
Proof.
  intros Hlat. unfold move_along_bearing.
  replace (0 / earth_radius) with 0 by (unfold earth_radius; lra).
  rewrite sin_0, cos_0.
  replace (sin (radians lat) * 1 +
           cos (radians lat) * 0 * cos (radians bearing))
    with (sin (radians lat)) by lra.
  rewrite asin_sin by (apply radians_quarter; assumption).
  replace (sin (radians bearing) * 0 * cos (radians lat)) with 0 by lra.
  rewrite atan2_0_l.
  - rewrite Rplus_0_r, !degrees_radians. reflexivity.
  - pose proof (sin2_cos2 (radians lat)) as H. unfold Rsqr in H.
    pose proof (Rle_0_sqr (cos (radians lat))) as Hc. unfold Rsqr in Hc. lra.
Qed.

(** The antipode on the equator is half the circumference away. *)
Lemma calculate_distance_antipode :
  calculate_distance 0 0 0 180 = earth_radius * PI.
Proof.
  unfold calculate_distance. rewrite radians_0, radians_180.
  replace ((0 - 0) / 2) with 0 by lra.
  replace ((PI - 0) / 2) with (PI / 2) by lra.
  rewrite sin_0, cos_0, sin_PI2.
  replace (0 ^ 2 + 1 * 1 * 1 ^ 2) with 1 by (simpl; lra).
  rewrite sqrt_1, asin_1. lra.
Qed.

Lemma calculate_bearing_same lat lon : -90 <= lat <= 90 ->
  calculate_bearing lat lon lat lon = 0.
Proof.
  intros Hlat. unfold calculate_bearing.
  replace (lon - lon) with 0 by lra. rewrite radians_0, sin_0, cos_0.
  replace (0 * cos (radians lat)) with 0 by lra.
  rewrite atan2_0_l by lra.
  unfold degrees.
  replace (0 * (180 / PI)) with 0
    by (pose proof PI_neq0; field; assumption).
  apply normalize_angle_id. lra.
Qed.

(** Due west along the equator is bearing 270. *)
Lemma calculate_bearing_west : calculate_bearing 0 0 0 (-90) = 270.
Proof.
  unfold calculate_bearing.
  replace (-90 - 0) with (-90) by lra.
  rewrite radians_0, radians_neg90, sin_0, cos_0, sin_neg, cos_neg,
    sin_PI2, cos_PI2.
  replace (1 * 0 - 0 * 1 * 0) with 0 by lra.
  replace (- (1) * 1) with (-1) by lra.
  unfold atan2.
  destruct (Rlt_dec 0 0); [lra|].
  destruct (Rlt_dec 0 (-1)); [lra|].
  destruct (Rlt_dec (-1) 0); [|lra].
  unfold degrees.
  replace (- (PI / 2) * (180 / PI)) with (-90)
    by (pose proof PI_neq0; field; assumption).
  rewrite normalize_angle_neg; lra.
Qed.

End GeoFacts.

(** ** What a computation leaves alone; the speed multiplier *)

Section Frame.

Import Sim SimSpec.

Lemma keeps_ret {X A} (g : Simulator -> X) (a : A) : keeps g (ret a).
Proof. intros w. reflexivity. Qed.

Lemma keeps_raise {X A} (g : Simulator -> X) : keeps g (@raise World A).
Proof. intros w. reflexivity. Qed.

Lemma keeps_gets {X A} (g : Simulator -> X) (f : World -> A) : keeps g (gets f).
Proof. intros w. reflexivity. Qed.

Lemma keeps_must {X A} (g : Simulator -> X) (o : option A) : keeps g (must o).
Proof. destruct o; intros w; reflexivity. Qed.

Lemma keeps_must_fun {X A} (g : Simulator -> X) (f : World -> option A) :
  keeps g (fun w => must (f w) w).
Proof. intros w. destruct (f w); reflexivity. Qed.

Lemma keeps_bind {X A B} (g : Simulator -> X) (m : M World A)
  (f : A -> M World B) :
  keeps g m -> (forall a, keeps g (f a)) ->
  keeps g (bind m f).
Proof.
  intros Hm Hf w. unfold bind. specialize (Hm w).
  destruct (m w) as [[a|] w1]; simpl in *; [|assumption].
  rewrite Hf. assumption.
Qed.

Lemma keeps_try {X A} (g : Simulator -> X) (body handler : M World A) :
  keeps g body -> keeps g handler ->
  keeps g (try_except body handler).
Proof.
  intros Hb Hh w. unfold try_except. specialize (Hb w).
  destruct (body w) as [[a|] w1]; simpl in *; [assumption|].
  rewrite Hh. assumption.
Qed.

Lemma keeps_modify {X} (g : Simulator -> X) (f : World -> World) :
  (forall w, g (sim (f w)) = g (sim w)) ->
  keeps g (modify f).
Proof. intros H w. apply H. Qed.

Lemma keeps_lift {X A} (g : Simulator -> X) (m : M Osrm.World A) :
  keeps g (lift m).
Proof. intros w. unfold lift. destruct (m (osrm w)). reflexivity. Qed.

Lemma keeps_random {X} (g : Simulator -> X) : keeps g random_uniform.
Proof. intros w. reflexivity. Qed.

Lemma keeps_broadcast {X} (g : Simulator -> X) :
  keeps g broadcast_all_vehicle_states.
Proof.
  intros w. unfold broadcast_all_vehicle_states.
  destruct (Nat.eqb _ _); reflexivity.
Qed.

Ltac keeps_with known :=
  repeat first
    [ known
    | apply keeps_ret | apply keeps_raise | apply keeps_gets
    | apply keeps_must | apply keeps_must_fun | apply keeps_lift
    | apply keeps_random | apply keeps_broadcast
    | apply keeps_modify; intros; reflexivity
    | apply keeps_bind; [| intros ?]
    | apply keeps_try
    | assumption
    | match goal with
      | |- keeps _ (if ?c then _ else _) => destruct c
      | |- keeps _ (match ?x with _ => _ end) => destruct x
      end ].

Ltac keeps := keeps_with fail.

Lemma keeps_assign_status {X} (g : Simulator -> X) st v :
  keeps g (assign_status st v).
Proof. unfold assign_status. keeps. Qed.

Lemma keeps_target_speed {X} (g : Simulator -> X) v :
  keeps g (calculate_target_speed v).
Proof. unfold calculate_target_speed. keeps. Qed.

Lemma keeps_move {X} (g : Simulator -> X) v target :
  keeps g (move_vehicle_towards_target v target).
Proof.
  unfold move_vehicle_towards_target, time.
  keeps_with ltac:(apply keeps_target_speed).
Qed.

Lemma keeps_arrival {X} (g : Simulator -> X) v r i :
  keeps g (handle_waypoint_arrival v r i).
Proof.
  unfold handle_waypoint_arrival, sleep.
  keeps_with ltac:(first [ apply keeps_assign_status ]).
Qed.

Lemma keeps_advance {X} (g : Simulator -> X) v r :
  keeps g (advance_vehicle v r).
Proof.
  unfold advance_vehicle.
  keeps_with ltac:(first [ apply keeps_assign_status | apply keeps_move
                         | apply keeps_arrival ]).
Qed.

(** The per-vehicle advance never touches the simulator record itself:
    it works on the vehicle it was handed. *)
Lemma advance_keeps_simulator v r w :
  sim (snd (advance_vehicle v r w)) = sim w.
Proof. apply (keeps_advance (fun s => s)). Qed.

Abbreviation keeps_multiplier := (keeps simulation_speed_multiplier).

Lemma keeps_update vid : keeps_multiplier (update_vehicle_position vid).
Proof.
  unfold update_vehicle_position.
  keeps_with ltac:(first [ apply keeps_advance ]).
Qed.

Lemma keeps_update_all ids : keeps_multiplier (update_all ids).
Proof.
  induction ids as [|vid rest IH]; simpl.
  - keeps.
  - keeps_with ltac:(first [ apply keeps_update ]).
Qed.

Lemma keeps_iteration : keeps_multiplier loop_iteration.
Proof.
  unfold loop_iteration, time, sleep.
  keeps_with ltac:(first [ apply keeps_update_all ]).
Qed.

Lemma keeps_tick : keeps_multiplier tick.
Proof.
  unfold tick. keeps_with ltac:(first [ apply keeps_iteration ]).
Qed.

Lemma keeps_complete_all ids : keeps_multiplier (complete_all ids).
Proof.
  induction ids as [|vid rest IH]; simpl.
  - keeps.
  - keeps_with ltac:(first [ apply keeps_assign_status ]).
Qed.

Lemma keeps_stop : keeps_multiplier stop_simulation.
Proof.
  unfold stop_simulation.
  keeps_with ltac:(first [ apply keeps_complete_all ]).
Qed.

Lemma keeps_initialize route depot :
  keeps_multiplier (initialize_vehicle_route route depot).
Proof. unfold initialize_vehicle_route, time. keeps. Qed.

Lemma keeps_initialize_routes routes depot :
  keeps_multiplier (initialize_routes routes depot).
Proof.
  induction routes as [|r rest IH]; simpl.
  - keeps.
  - keeps_with ltac:(first [ apply keeps_initialize ]).
Qed.

Lemma keeps_start routes depot :
  keeps_multiplier (start_simulation routes depot).
Proof.
  unfold start_simulation.
  keeps_with ltac:(first [ apply keeps_stop | apply keeps_initialize_routes ]).
Qed.

Lemma clamp_range m : 1 <= Rmax 1 (Rmin 1000 m) <= 1000.
Proof.
  unfold Rmax, Rmin.
  destruct (Rle_dec 1000 m); destruct (Rle_dec 1 _); lra.
Qed.

(** C10: [set_simulation_speed m] stores [m] clamped into [1, 1000];
    no other operation of the engine changes the multiplier; hence from
    the initial value 100 the multiplier is within [1, 1000] after every
    sequence of operations. *)
Theorem speed_multiplier_always_clamped :
  (forall m w,
     let k := simulation_speed_multiplier
                (sim (snd (set_simulation_speed m w))) in
     (m < 1 -> k = 1) /\ (1 <= m <= 1000 -> k = m) /\ (1000 < m -> k = 1000))
  /\ simulation_speed_multiplier init_simulator = 100
  /\ (forall op w,
        (forall m, op <> SetSpeed m) ->
        simulation_speed_multiplier (sim (snd (run_op op w))) =
        simulation_speed_multiplier (sim w))
  /\ (forall ops t0 network randoms,
        1 <= simulation_speed_multiplier
               (sim (run_ops ops (fresh_world t0 network randoms))) <= 1000).
Proof.
  split; [|split; [|split]].
  - intros m w. simpl. unfold Rmax, Rmin.
    destruct (Rle_dec 1000 m); destruct (Rle_dec 1 _);
      repeat split; intros; lra.
  - reflexivity.
  - intros op w Hop. destruct op; simpl.
    + reflexivity.
    + apply (keeps_bind _ _ _ (keeps_start routes depot)).
      intros. apply keeps_ret.
    + apply keeps_stop.
    + apply keeps_tick.
    + exfalso. apply (Hop multiplier). reflexivity.
    + reflexivity.
  - intros ops t0 network randoms.
    assert (H0 : 1 <= simulation_speed_multiplier
                        (sim (fresh_world t0 network randoms)) <= 1000)
      by (simpl; lra).
    revert H0. generalize (fresh_world t0 network randoms).
    induction ops as [|op rest IH]; intros w Hw; simpl; [assumption|].
    apply IH. destruct op; simpl.
    + assumption.
    + rewrite (keeps_bind _ _ _ (keeps_start routes depot)
                 (fun _ => keeps_ret _ tt)). assumption.
    + rewrite keeps_stop. assumption.
    + rewrite keeps_tick. assumption.
    + apply clamp_range.
    + assumption.
Qed.

End Frame.

(** ** Visit order from the trip service *)

Section TripOrder.

Import Osrm OsrmSpec.

Lemma is_ok_false code : code <> Some "Ok"%string -> is_ok code = false.
Proof.
  destruct code as [c|]; simpl; [|reflexivity].
  intros H. destruct (String.eqb_spec c "Ok"); [congruence | reflexivity].
Qed.

Lemma range_length n : List.length (range n) = n.
Proof. unfold range. now rewrite length_map, length_seq. Qed.

Lemma range_nth n i : (i < n)%nat -> nth_error (range n) i = Some (Z.of_nat i).
Proof.
  intros H. unfold range. rewrite nth_error_map.
  rewrite nth_error_seq. destruct (Nat.ltb_spec i n); [reflexivity | lia].
Qed.

(** C9: when the trip request fails in any of the ways above,
    [get_optimized_route_order] returns the identity order
    [0, 1, ..., n-1] over the [n] delivery points, for every [n]; it has
    sent exactly one request, has not slept, has left the client and its
    cache as they were, and its answer is the same whatever the cache
    holds. *)
Theorem optimized_order_identity_on_failure :
  forall (w : World) (depot : RoutePoint) (delivery_points : list RoutePoint),
    trip_failure (trip_answer w depot delivery_points) ->
    let n := List.length delivery_points in
    let '(result, w') := get_optimized_route_order depot delivery_points w in
    result = Some (range n) /\
    List.length (range n) = n /\
    (forall i, (i < n)%nat -> nth_error (range n) i = Some (Z.of_nat i)) /\
    client w' = client w /\ now w' = now w /\
    events w' = events w ++ [Requested Trip (current_url (client w))
                               (lonlat (depot :: delivery_points))] /\
    forall cache,
      fst (get_optimized_route_order depot delivery_points
             (set_client (set_route_cache cache (client w)) w))
      = Some (range n).
Proof.
  intros w depot pts Hfail n.
  assert (Hrun : forall w0,
            trip_answer w0 depot pts = trip_answer w depot pts ->
            get_optimized_route_order depot pts w0 =
            (Some (range n),
             mkWorld (now w0) (S (sent w0))
               (events w0 ++ [Requested Trip (current_url (client w0))
                                (lonlat (depot :: pts))])
               (net w0) (client w0))).
  { intros w0 Heq. unfold trip_answer in Heq.
    unfold get_optimized_route_order, bind, try_except, http_get.
    rewrite Heq. fold (trip_answer w depot pts).
    inversion Hfail as
      [ Hr | st body Hst Hr | Hr | data Hc Hr | data Ht Hr
      | data trip rest Ht Hl Hr | data trip rest legs Ht Hl Hi Hr ];
      simpl; try reflexivity.
    - destruct (Z.eqb_spec st 200); [contradiction | reflexivity].
    - rewrite (is_ok_false _ Hc). reflexivity.
    - rewrite Ht. destruct (is_ok (tb_code data)); reflexivity.
    - rewrite Ht, Hl. destruct (is_ok (tb_code data)); reflexivity.
    - rewrite Ht, Hl. destruct (is_ok (tb_code data)); [|reflexivity].
      simpl. rewrite Hi. reflexivity. }
  rewrite (Hrun w eq_refl).
  repeat split.
  - apply range_length.
  - apply range_nth.
  - intros cache. rewrite Hrun; reflexivity.
Qed.

(** C9 on two delivery points and an unreachable service. *)
Lemma optimized_order_identity_example :
  fst (get_optimized_route_order origin [stop_east; stop_north] silent_world)
  = Some [0%Z; 1%Z].
Proof.
  pose proof (optimized_order_identity_on_failure silent_world origin
                [stop_east; stop_north] trip_unreachable) as H.
  cbv zeta in H.
  destruct (get_optimized_route_order origin [stop_east; stop_north]
              silent_world) as [r w'].
  exact (proj1 H).
Defined.

End TripOrder.

(** ** Target cruising speed *)

Section TargetSpeed.

Import Sim SimSpec.



(** The cruise speed is clamped to the band of 20 to 80 km/h. *)
Lemma cruise_speed_in_band cargo traffic :
  min_speed <= cruise_speed cargo traffic <= max_speed.
Proof.
  unfold cruise_speed, min_speed, max_speed, Rmax, Rmin.
  rcases; lra.
Qed.





End TargetSpeed.

(** ** Arrival at a waypoint *)

Section Arrival.

Import Sim SimSpec.

Lemma py_nth_nonneg {A} (l : list A) j :
  (0 <= j)%Z -> py_nth l j = nth_error l (Z.to_nat j).
Proof.
  intros H. unfold py_nth. destruct (Z.leb_spec 0 j); [reflexivity | lia].
Qed.

Lemma py_nth_in_range {A} (l : list A) j :
  (0 <= j < len l)%Z -> exists x, py_nth l j = Some x.
Proof.
  intros H. rewrite py_nth_nonneg by lia.
  destruct (nth_error l (Z.to_nat j)) as [x|] eqn:E; [eauto|].
  apply nth_error_None in E. unfold len in H. lia.
Qed.

Lemma py_nth_beyond {A} (l : list A) j :
  (len l <= j)%Z -> py_nth l j = None.
Proof.
  intros H. unfold len in H. rewrite py_nth_nonneg by lia.
  apply nth_error_None. lia.
Qed.

(** Arrival at an interior waypoint, in full. *)
Lemma interior_arrival v r i w :
  (0 < i < len (waypoints r) - 1)%Z ->
  simulation_speed_multiplier (sim w) <> 0 ->
  handle_waypoint_arrival v r i w =
  (Some (delivered v r i), paused (vehicle_id v) w).
Proof.
  intros Hi Hm. unfold handle_waypoint_arrival.
  destruct (Z.eqb_spec i 0); [lia|].
  destruct (Z.eqb_spec i (len (waypoints r) - 1)); [lia|].
  destruct (Z.eqb_spec (len (waypoints r) - 1) 0); [lia|].
  unfold bind, assign_status, modify, ret, gets, sleep, lift, Osrm.sleep.
  cbn [fst snd].
  destruct (Z.ltb_spec (i - 1) (len (orders r))) as [Hlt|Hge].
  - destruct (py_nth_in_range (orders r) (i - 1)) as [o Ho]; [lia|].
    unfold delivered, paused. rewrite Ho. unfold must, ret. cbn.
    destruct (Req_dec_T (simulation_speed_multiplier (sim w)) 0);
      [contradiction|]. reflexivity.
  - unfold delivered, paused. rewrite (py_nth_beyond _ _ Hge). cbn.
    destruct (Req_dec_T (simulation_speed_multiplier (sim w)) 0);
      [contradiction|]. reflexivity.
Qed.

(** C3, amended: when a delivery at the interior waypoint [i] finishes,
    the status is MOVING again, the current-waypoint index is [i], and
    the progress is [i] divided by the number of waypoints less one (the
    number of legs), times 100. *)
Theorem delivery_ends_moving_with_leg_progress :
  forall (v : VehicleState) (r : SimulationRoute) (i : Z) (w : World),
    (0 < i < len (waypoints r) - 1)%Z ->
    simulation_speed_multiplier (sim w) <> 0 ->
    exists v' w',
      handle_waypoint_arrival v r i w = (Some v', w') /\
      status v' = MOVING /\
      current_order_index v' = i /\
      progress v' = IZR i / IZR (len (waypoints r) - 1) * 100 /\
      status_log w' =
        status_log w ++ [(vehicle_id v, DELIVERING); (vehicle_id v, MOVING)].
Proof.
  intros v r i w Hi Hm.
  exists (delivered v r i), (paused (vehicle_id v) w).
  split; [apply interior_arrival; assumption|].
  repeat split. unfold paused. cbn [status_log].
  rewrite <- app_assoc. reflexivity.
Qed.

(** C3, amended, on a route of three waypoints: progress 50. *)
Lemma delivery_ends_moving_example :
  exists v' w',
    handle_waypoint_arrival loaded_vehicle one_stop_route 1 quiet_world
      = (Some v', w') /\
    status v' = MOVING /\ current_order_index v' = 1%Z /\
    progress v' = 1 / 2 * 100 /\
    status_log w' = [("V1"%string, DELIVERING); ("V1"%string, MOVING)].
Proof.
  apply (delivery_ends_moving_with_leg_progress loaded_vehicle one_stop_route
           1 quiet_world).
  - unfold len. simpl. lia.
  - simpl. lra.
Defined.

(** C3 as stated fails: with three waypoints the delivery at waypoint 1
    sets the progress to 50, not to one third of 100. *)
Lemma progress_is_not_index_over_waypoint_count :
  ~ (forall (v : VehicleState) (r : SimulationRoute) (i : Z) (w : World)
            (v' : VehicleState) (w' : World),
       (0 < i < len (waypoints r) - 1)%Z ->
       handle_waypoint_arrival v r i w = (Some v', w') ->
       progress v' = IZR i / IZR (len (waypoints r)) * 100).
Proof.
  intros H.
  specialize (H loaded_vehicle one_stop_route 1%Z quiet_world
                (delivered loaded_vehicle one_stop_route 1)
                (paused "V1" quiet_world)).
  assert (Hi : (0 < 1 < len (waypoints one_stop_route) - 1)%Z)
    by (unfold len; simpl; lia).
  specialize (H Hi).
  rewrite interior_arrival in H; [| exact Hi | simpl; lra].
  specialize (H eq_refl). unfold delivered, len in H. cbn in H. lra.
Qed.

End Arrival.

(** ** One step of movement *)

Section Movement.

Import Sim SimSpec.

Lemma move_with_target_speed v target w ts w1 :
  calculate_target_speed
    (with_heading
       (turn_towards (heading v)
          (Geo.calculate_bearing (latitude v) (longitude v)
             (Osrm.latitude target) (Osrm.longitude target))) v) w
  = (Some ts, w1) ->
  move_vehicle_towards_target v target w =
  (Some (moved v target ts (simulation_speed_multiplier (sim w1))
           (Osrm.now (osrm w1))), w1).
Proof.
  intros H. unfold move_vehicle_towards_target, bind. rewrite H.
  unfold gets, time, ret, moved, with_heading, with_speed, with_position,
    with_fuel.
  cbn [vehicle_id latitude longitude speed heading status current_cargo
       fuel_used progress current_order_index last_updated].
  destruct (Geo.move_along_bearing _ _ _ _) as [la lo]. reflexivity.
Qed.

(** Idle or delivering: the target speed is zero. *)
Lemma move_when_waiting v target w :
  status v = IDLE \/ status v = DELIVERING ->
  move_vehicle_towards_target v target w =
  (Some (moved v target 0 (simulation_speed_multiplier (sim w))
           (Osrm.now (osrm w))), w).
Proof.
  intros H. apply move_with_target_speed.
  unfold calculate_target_speed. cbn [status with_heading].
  destruct H as [-> | ->]; reflexivity.
Qed.

(** Otherwise: one traffic factor is drawn. *)
Lemma move_when_driving v target w :
  status v <> IDLE -> status v <> DELIVERING ->
  move_vehicle_towards_target v target w =
  (Some (moved v target
           (cruise_speed (current_cargo v) (draws w (drawn w)))
           (simulation_speed_multiplier (sim w)) (Osrm.now (osrm w))),
   after_draw w).
Proof.
  intros H1 H2.
  rewrite (move_with_target_speed v target w
             (cruise_speed (current_cargo v) (draws w (drawn w)))
             (after_draw w)); [reflexivity|].
  unfold calculate_target_speed. cbn [status with_heading current_cargo].
  destruct (status v); try contradiction; reflexivity.
Qed.

(** In both cases the movement returns a vehicle. *)
Lemma move_returns v target w :
  exists ts w1,
    move_vehicle_towards_target v target w =
    (Some (moved v target ts (simulation_speed_multiplier (sim w))
             (Osrm.now (osrm w))), w1) /\
    sim w1 = sim w /\ osrm w1 = osrm w /\ status_log w1 = status_log w.
Proof.
  destruct (status v) eqn:E.
  1,3: exists 0, w; split;
         [apply move_when_waiting; rewrite E; auto | repeat split].
  all: exists (cruise_speed (current_cargo v) (draws w (drawn w))),
         (after_draw w);
       split; [apply move_when_driving; rewrite E; discriminate
              | repeat split].
Qed.

Lemma approach_speed_range speed target_speed :
  0 <= approach_speed speed target_speed <= max_speed.
Proof.
  unfold approach_speed, max_speed, Rmax, Rmin. rcases; lra.
Qed.

Lemma approach_speed_rest : approach_speed 0 0 = 0.
Proof.
  unfold approach_speed, acceleration_rate, deceleration_rate,
    update_interval, max_speed, Rmax, Rmin.
  replace (0 - 0) with 0 by lra. rewrite Rabs_R0.
  rcases; lra.
Qed.

(** A waiting vehicle that stands still stays where it is: only its
    heading and its time stamp change. *)
Lemma moved_at_rest v target multiplier t :
  speed v = 0 -> -90 <= latitude v <= 90 ->
  moved v target 0 multiplier t =
  mkVehicleState (vehicle_id v) (latitude v) (longitude v) 0
    (turn_towards (heading v)
       (Geo.calculate_bearing (latitude v) (longitude v)
          (Osrm.latitude target) (Osrm.longitude target)))
    (status v) (current_cargo v) (fuel_used v) (progress v)
    (current_order_index v) t.
Proof.
  intros Hs Hlat. unfold moved. rewrite Hs, approach_speed_rest.
  replace (0 * multiplier * update_interval / 3600) with 0 by lra.
  rewrite GeoFacts.move_along_bearing_0 by assumption.
  cbn [fst snd]. f_equal. lra.
Qed.

End Movement.

(** ** Steering *)

Section Steering.

Import Sim SimSpec.

(** When the bearing is more than 30 degrees away counted clockwise, the
    heading turns clockwise by 30 degrees, also when the anticlockwise
    rotation is the shorter one: the difference is normalised into
    [0, 360) before its sign is tested, so it is never negative. *)
Lemma turn_is_clockwise heading bearing :
  max_turn_rate < Geo.normalize_angle (bearing - heading) ->
  turn_towards heading bearing = Geo.normalize_angle (heading + 30).
Proof.
  intros H. unfold turn_towards.
  pose proof (GeoFacts.normalize_angle_range (bearing - heading)) as Hr.
  unfold max_turn_rate in *.
  rewrite Rabs_pos_eq by lra.
  destruct (Rlt_dec 30 (Geo.normalize_angle (bearing - heading))); [|lra].
  destruct (Rlt_dec 0 (Geo.normalize_angle (bearing - heading))); [|lra].
  f_equal. lra.
Qed.

(** Otherwise the heading snaps to the bearing. *)
Lemma turn_reaches_bearing heading bearing :
  Geo.normalize_angle (bearing - heading) <= max_turn_rate ->
  turn_towards heading bearing = Geo.normalize_angle bearing.
Proof.
  intros H. unfold turn_towards.
  pose proof (GeoFacts.normalize_angle_range (bearing - heading)) as Hr.
  unfold max_turn_rate in *.
  rewrite Rabs_pos_eq by lra.
  destruct (Rlt_dec 30 (Geo.normalize_angle (bearing - heading))); [lra|].
  reflexivity.
Qed.

Lemma turn_in_range heading bearing :
  0 <= turn_towards heading bearing < 360.
Proof. unfold turn_towards. apply GeoFacts.normalize_angle_range. Qed.

(** One tick changes the heading by at most 30 degrees. *)
Lemma turn_at_most_30 heading bearing :
  0 <= heading < 360 -> 0 <= bearing < 360 ->
  angular_distance heading (turn_towards heading bearing) <= 30.
Proof.
  intros Hh Hb. unfold angular_distance.
  destruct (Rlt_dec max_turn_rate (Geo.normalize_angle (bearing - heading)))
    as [Hfar|Hnear].
  - rewrite (turn_is_clockwise _ _ Hfar).
    destruct (Rlt_dec (heading + 30) 360).
    + rewrite (GeoFacts.normalize_angle_id (heading + 30)) by lra.
      replace (heading + 30 - heading) with 30 by lra.
      rewrite (GeoFacts.normalize_angle_id 30) by lra. apply Rmin_r.
    + rewrite (GeoFacts.normalize_angle_over (heading + 30)) by lra.
      replace (heading + 30 - 360 - heading) with (-330) by lra.
      rewrite (GeoFacts.normalize_angle_neg (-330)) by lra.
      eapply Rle_trans; [apply Rmin_r | lra].
  - apply Rnot_lt_le in Hnear. rewrite (turn_reaches_bearing _ _ Hnear).
    rewrite (GeoFacts.normalize_angle_id bearing) by assumption.
    eapply Rle_trans; [apply Rmin_r | exact Hnear].
Qed.

Lemma turn_north_to_west : turn_towards 0 270 = 30.
Proof.
  rewrite turn_is_clockwise.
  - replace (0 + 30) with 30 by lra.
    apply GeoFacts.normalize_angle_id. lra.
  - replace (270 - 0) with 270 by lra.
    rewrite GeoFacts.normalize_angle_id; unfold max_turn_rate; lra.
Qed.

(** C6 does not hold on the code when the target lies to the left:
    heading 0, target due west (bearing 270).
    The shorter rotation is 90 degrees anticlockwise, yet the tick turns
    the heading clockwise to 30: the angular distance to the bearing
    grows from 90 to 120 degrees. *)
Theorem heading_turns_away_from_western_target :
  Geo.calculate_bearing (latitude northbound) (longitude northbound)
    (Osrm.latitude west_stop) (Osrm.longitude west_stop) = 270
  /\ option_map heading
       (fst (move_vehicle_towards_target northbound west_stop
               (fresh_world 0 Osrm.silent_network (fun _ => 1)))) = Some 30
  /\ angular_distance (heading northbound) 270 = 90
  /\ angular_distance 30 270 = 120.
Proof.
  assert (Hb : Geo.calculate_bearing (latitude northbound)
                 (longitude northbound) (Osrm.latitude west_stop)
                 (Osrm.longitude west_stop) = 270)
    by apply GeoFacts.calculate_bearing_west.
  split; [exact Hb|]. split; [|split].
  - rewrite move_when_waiting by (left; reflexivity).
    cbn [fst option_map]. unfold moved. cbn [heading]. rewrite Hb.
    cbn [heading northbound]. rewrite turn_north_to_west. reflexivity.
  - unfold angular_distance. cbn [heading northbound].
    replace (0 - 270) with (-270) by lra. replace (270 - 0) with 270 by lra.
    rewrite GeoFacts.normalize_angle_neg, GeoFacts.normalize_angle_id by lra.
    unfold Rmin. rcases; lra.
  - unfold angular_distance.
    replace (30 - 270) with (-240) by lra. replace (270 - 30) with 240 by lra.
    rewrite GeoFacts.normalize_angle_neg, GeoFacts.normalize_angle_id by lra.
    unfold Rmin. rcases; lra.
Qed.

End Steering.

(** ** The per-vehicle advance *)

Section Advance.

Import Sim SimSpec.

Lemma status_eqb_completed s :
  s <> COMPLETED -> status_eqb s COMPLETED = false.
Proof. destruct s; intros H; try reflexivity. contradiction. Qed.

(** Arrival at any waypoint of the route returns; it leaves the heading
    alone, keeps the speed unless it completes the route, where it sets
    the speed to zero, and leaves the index of the current waypoint
    non-negative. *)
Lemma arrival_returns v r i w :
  (0 <= i <= len (waypoints r) - 1)%Z ->
  simulation_speed_multiplier (sim w) <> 0 ->
  exists v' w',
    handle_waypoint_arrival v r i w = (Some v', w') /\
    heading v' = heading v /\
    (speed v' = speed v \/ speed v' = 0 /\ status v' = COMPLETED) /\
    ((0 <= current_order_index v)%Z -> (0 <= current_order_index v')%Z).
Proof.
  intros Hi Hm.
  destruct (Z.eq_dec i 0) as [H0|H0];
    [| destruct (Z.eq_dec i (len (waypoints r) - 1)) as [Hl|Hl]].
  - unfold handle_waypoint_arrival. subst i. cbn [Z.eqb].
    eexists _, _. split; [reflexivity|]. split; [reflexivity|].
    split; [now left | intros _; cbn; lia].
  - unfold handle_waypoint_arrival.
    destruct (Z.eqb_spec i 0); [contradiction|].
    destruct (Z.eqb_spec i (len (waypoints r) - 1)); [|contradiction].
    eexists _, _. split; [reflexivity|]. split; [reflexivity|].
    split; [right; split; reflexivity | intros H; exact H].
  - rewrite interior_arrival by (assumption || lia).
    eexists _, _. split; [reflexivity|]. split; [reflexivity|].
    split; [now left | intros _; cbn; lia].
Qed.

Lemma target_index_range v r :
  waypoints r <> [] -> (0 <= current_order_index v)%Z ->
  (0 <= target_index v r <= len (waypoints r) - 1)%Z.
Proof.
  intros Hne Hc. unfold target_index, len.
  destruct (waypoints r); [contradiction|]. simpl List.length. lia.
Qed.

(** The advance of a vehicle that is not completed, step by step. *)
Lemma advance_unfold v r w target :
  status v <> COMPLETED ->
  (target_index v r < len (waypoints r))%Z ->
  py_nth (waypoints r) (target_index v r) = Some target ->
  advance_vehicle v r w =
  bind (move_vehicle_towards_target v target)
    (fun v1 =>
       if Rlt_dec (Geo.calculate_distance (latitude v1) (longitude v1)
                     (Osrm.latitude target) (Osrm.longitude target)) 0.1
       then handle_waypoint_arrival v1 r (target_index v r)
       else ret v1) w.
Proof.
  intros Hs Hlt Ht. unfold advance_vehicle.
  rewrite (status_eqb_completed _ Hs). fold (target_index v r).
  destruct (Z.leb_spec (len (waypoints r)) (target_index v r)); [lia|].
  unfold bind at 1. rewrite Ht. reflexivity.
Qed.

Lemma advance_bounds v r w :
  status v <> COMPLETED ->
  waypoints r <> [] ->
  (0 <= current_order_index v)%Z ->
  simulation_speed_multiplier (sim w) <> 0 ->
  exists v' w',
    advance_vehicle v r w = (Some v', w') /\
    0 <= speed v' <= max_speed /\ 0 <= heading v' < 360 /\
    (0 <= current_order_index v')%Z.
Proof.
  intros Hs Hne Hc Hm.
  pose proof (target_index_range v r Hne Hc) as Hr.
  destruct (py_nth_in_range (waypoints r) (target_index v r)) as [target Ht];
    [lia|].
  rewrite (advance_unfold v r w target) by (assumption || lia).
  destruct (move_returns v target w) as (ts & w1 & Hmove & Hsim & _).
  unfold bind. rewrite Hmove.
  set (v1 := moved v target ts _ _).
  assert (Hv1 : 0 <= speed v1 <= max_speed /\ 0 <= heading v1 < 360).
  { split; [apply approach_speed_range | apply turn_in_range]. }
  destruct (Rlt_dec _ 0.1).
  - destruct (arrival_returns v1 r (target_index v r) w1) as
      (v' & w' & Hv' & Hh & Hsp & Hidx); [assumption | now rewrite Hsim |].
    exists v', w'. split; [assumption|]. rewrite Hh.
    split; [| split; [apply Hv1 | apply Hidx; exact Hc]].
    destruct Hsp as [-> | [-> _]]; [apply Hv1 | unfold max_speed; split; lra].
  - exists v1, w1. split; [reflexivity|].
    split; [apply Hv1 | split; [apply Hv1 | exact Hc]].
Qed.

(** The speed of a vehicle that does not drive backwards, after it has
    approached a target speed within the band, is within the band: from
    a standstill one update reaches exactly the minimum speed. *)
Lemma approach_speed_in_band speed target_speed :
  0 <= speed -> min_speed <= target_speed <= max_speed ->
  min_speed <= approach_speed speed target_speed <= max_speed.
Proof.
  intros Hs Ht.
  unfold approach_speed, acceleration_rate, deceleration_rate,
    update_interval, min_speed, max_speed, Rmax, Rmin, Rabs in *.
  destruct (Rcase_abs (target_speed - speed)); rcases; lra.
Qed.

(** The advance of a vehicle that drives (neither idle nor delivering)
    leaves its speed within the band, unless it brings the vehicle to
    the end of its route, where the vehicle stops. *)
Lemma advance_driving v r w v' w' :
  status v <> COMPLETED -> status v <> IDLE -> status v <> DELIVERING ->
  waypoints r <> [] ->
  (0 <= current_order_index v)%Z ->
  simulation_speed_multiplier (sim w) <> 0 ->
  0 <= speed v ->
  advance_vehicle v r w = (Some v', w') ->
  min_speed <= speed v' <= max_speed \/
  status v' = COMPLETED /\ speed v' = 0.
Proof.
  intros Hs Hi Hd Hne Hc Hm Hsp Ha.
  pose proof (target_index_range v r Hne Hc) as Hr.
  destruct (py_nth_in_range (waypoints r) (target_index v r)) as [target Ht];
    [lia|].
  rewrite (advance_unfold v r w target) in Ha by (assumption || lia).
  unfold bind in Ha. rewrite (move_when_driving v target w Hi Hd) in Ha.
  set (v1 := moved v target _ _ _) in Ha.
  assert (Hv1 : min_speed <= speed v1 <= max_speed).
  { unfold v1, moved. cbn [speed].
    apply approach_speed_in_band; [exact Hsp | apply cruise_speed_in_band]. }
  destruct (Rlt_dec _ 0.1).
  - destruct (arrival_returns v1 r (target_index v r) (after_draw w)) as
      (v2 & w2 & Hv2 & _ & Hsp2 & _); [assumption | exact Hm |].
    rewrite Hv2 in Ha. inversion Ha; subst v2 w2.
    destruct Hsp2 as [-> | [H0 Hst]]; [left; exact Hv1 | right; tauto].
  - inversion Ha; subst. left. exact Hv1.
Qed.

(** C2, amended: the advance of a vehicle that is not completed, on a
    route with at least one waypoint, returns, and afterwards the
    heading lies within [0, 360).  The speed of a vehicle that was
    driving when the advance began (neither IDLE nor DELIVERING, and
    not driving backwards) lies within [min_speed, max_speed], that is
    20 to 80 km/h, unless the advance has brought it to its last
    waypoint: then it is COMPLETED and stands still.  The speed of a
    vehicle that was waiting (IDLE or DELIVERING) lies within
    [0, max_speed]. *)
Theorem speed_and_heading_after_advance :
  forall (v : VehicleState) (r : SimulationRoute) (w : World),
    status v <> COMPLETED ->
    waypoints r <> [] ->
    (0 <= current_order_index v)%Z ->
    simulation_speed_multiplier (sim w) <> 0 ->
    exists v' w',
      advance_vehicle v r w = (Some v', w') /\
      0 <= heading v' < 360 /\
      0 <= speed v' <= max_speed /\
      (status v <> IDLE -> status v <> DELIVERING -> 0 <= speed v ->
       min_speed <= speed v' <= max_speed \/
       status v' = COMPLETED /\ speed v' = 0) /\
      min_speed = 20 /\ max_speed = 80.
Proof.
  intros v r w Hs Hne Hc Hm.
  destruct (advance_bounds v r w Hs Hne Hc Hm)
    as (v' & w' & H & Hsp & Hh & _).
  exists v', w'.
  split; [exact H | split; [exact Hh | split; [exact Hsp | split]]].
  - intros Hi Hd Hv.
    exact (advance_driving v r w v' w' Hs Hi Hd Hne Hc Hm Hv H).
  - split; reflexivity.
Qed.

(** C2, amended, on a vehicle that sets off from its last stop: one
    update takes it from a standstill to the minimum speed or beyond. *)
Lemma speed_and_heading_after_advance_example :
  exists v' w',
    advance_vehicle driving_vehicle far_stop_route quiet_world
      = (Some v', w') /\
    0 <= heading v' < 360 /\
    0 <= speed v' <= max_speed /\
    (status driving_vehicle <> IDLE -> status driving_vehicle <> DELIVERING ->
     0 <= speed driving_vehicle ->
     min_speed <= speed v' <= max_speed \/
     status v' = COMPLETED /\ speed v' = 0) /\
    min_speed = 20 /\ max_speed = 80.
Proof.
  apply (speed_and_heading_after_advance driving_vehicle far_stop_route
           quiet_world).
  - discriminate.
  - discriminate.
  - simpl. lia.
  - simpl. lra.
Defined.

Lemma far_stop_is_far : ~ Geo.calculate_distance 0 0 0 180 < 0.1.
Proof.
  rewrite GeoFacts.calculate_distance_antipode. unfold Geo.earth_radius.
  pose proof PI2_1. lra.
Qed.

(** A waiting vehicle that stands still farther than 100 m from its
    target stays as it is: it turns on the spot. *)
Lemma advance_waiting_far v r w target :
  status v = IDLE -> speed v = 0 -> -90 <= latitude v <= 90 ->
  (target_index v r < len (waypoints r))%Z ->
  py_nth (waypoints r) (target_index v r) = Some target ->
  ~ Geo.calculate_distance (latitude v) (longitude v)
      (Osrm.latitude target) (Osrm.longitude target) < 0.1 ->
  advance_vehicle v r w =
  (Some (mkVehicleState (vehicle_id v) (latitude v) (longitude v) 0
           (turn_towards (heading v)
              (Geo.calculate_bearing (latitude v) (longitude v)
                 (Osrm.latitude target) (Osrm.longitude target)))
           IDLE (current_cargo v) (fuel_used v) (progress v)
           (current_order_index v) (Osrm.now (osrm w))), w).
Proof.
  intros Hs Hsp Hlat Hlt Ht Hfar.
  rewrite (advance_unfold v r w target);
    [| rewrite Hs; discriminate | assumption ..].
  unfold bind. rewrite move_when_waiting by (now left).
  rewrite moved_at_rest by assumption. cbn [latitude longitude].
  destruct (Rlt_dec _ 0.1); [contradiction|]. rewrite Hs. reflexivity.
Qed.

(** C2 as stated fails: an idle vehicle at the depot has speed 0 after
    its advance, below the minimum speed of 20 km/h. *)
Lemma idle_vehicle_is_slower_than_min_speed :
  ~ (forall (v : VehicleState) (r : SimulationRoute) (w : World)
            (v' : VehicleState) (w' : World),
       status v <> COMPLETED ->
       advance_vehicle v r w = (Some v', w') ->
       (min_speed <= speed v' <= max_speed) /\ 0 <= heading v' < 360).
Proof.
  intros H.
  assert (Hadv := advance_waiting_far loaded_vehicle far_stop_route
                    quiet_world (Osrm.mkRoutePoint 0 180 "far" 100 5)
                    eq_refl eq_refl).
  cbn [latitude longitude loaded_vehicle Osrm.latitude Osrm.longitude] in Hadv.
  assert (Hlat : -90 <= 0 <= 90) by (split; lra).
  assert (Hidx : (target_index loaded_vehicle far_stop_route
                  < len (waypoints far_stop_route))%Z)
    by (unfold target_index, len; simpl; lia).
  specialize (Hadv Hlat Hidx eq_refl far_stop_is_far).
  apply H in Hadv; [| discriminate].
  cbn [speed] in Hadv. unfold min_speed in Hadv. lra.
Qed.

End Advance.

(** ** Route geometry: one request, then the fallback *)

Section RouteGeometry.

Import Osrm OsrmSpec.

(** Whatever the answer, [_fetch_route_geometry] sends one request and
    does nothing else to the world. *)
Lemma fetch_route_world coords w :
  snd (fetch_route_geometry coords w) = requested Route coords w.
Proof.
  unfold fetch_route_geometry, bind, http_get, requested.
  destruct (route_reply _ _ _ _) as [|st body]; [reflexivity|].
  destruct (st =? 200)%Z; [|reflexivity].
  destruct body as [data|]; [|reflexivity]. cbn.
  destruct (is_ok (rb_code data)); [|reflexivity].
  destruct (rb_routes data) as [|route rest]; [reflexivity|].
  unfold bind.
  destruct (rj_coordinates route); [|reflexivity]. cbn.
  destruct (rj_distance route); [|reflexivity]. cbn.
  destruct (rj_duration route); reflexivity.
Qed.

Lemma fetch_route_fails coords w :
  route_failure (route_answer w coords) ->
  fetch_route_geometry coords w = (None, requested Route coords w).
Proof.
  intros Hfail. rewrite <- fetch_route_world.
  unfold fetch_route_geometry, bind, http_get. unfold route_answer in Hfail.
  inversion Hfail as
    [ Hr | st body Hst Hr | Hr | data Hc Hr | data Ht Hr
    | data route rest Ht Hm Hr ]; cbn.
  - reflexivity.
  - destruct (Z.eqb_spec st 200); [contradiction | reflexivity].
  - reflexivity.
  - rewrite (is_ok_false _ Hc). reflexivity.
  - rewrite Ht. destruct (is_ok (rb_code data)); reflexivity.
  - rewrite Ht. destruct (is_ok (rb_code data)); [|reflexivity].
    unfold bind.
    destruct Hm as [Hm | [Hm | Hm]]; rewrite Hm; [reflexivity | |].
    + destruct (rj_coordinates route); reflexivity.
    + destruct (rj_coordinates route); [|reflexivity]. cbn.
      destruct (rj_distance route); reflexivity.
Qed.

Lemma cached_lookup_miss w coords :
  cache_miss w coords ->
  match cache_get coords (route_cache (client w)) with
  | Some entry =>
      if Rlt_dec (now w - timestamp entry) cache_ttl
      then Some (geometry entry) else None
  | None => None
  end = None.
Proof.
  unfold cache_miss. destruct (cache_get _ _); [|reflexivity].
  intros H. destruct (Rlt_dec _ _); [contradiction | reflexivity].
Qed.

(** On a hit the cached geometry is returned and nothing is requested. *)
Lemma route_geometry_hit start finish via w entry :
  let coords := lonlat ([start] ++ via ++ [finish]) in
  cache_get coords (route_cache (client w)) = Some entry ->
  now w - timestamp entry < cache_ttl ->
  get_route_geometry_async start finish via w = (Some (geometry entry), w).
Proof.
  intros coords Hget Hfresh.
  unfold get_route_geometry_async, bind, gets. fold coords. rewrite Hget.
  destruct (Rlt_dec _ _); [reflexivity | contradiction].
Qed.

(** On a miss and a failed request the fallback is returned, with no
    further request and no sleep. *)
Lemma route_geometry_miss_failure start finish via w :
  let points := [start] ++ via ++ [finish] in
  cache_miss w (lonlat points) ->
  route_failure (route_answer w (lonlat points)) ->
  get_route_geometry_async start finish via w =
  (Some (create_fallback_geometry points), requested Route (lonlat points) w).
Proof.
  intros points Hmiss Hfail.
  unfold get_route_geometry_async, bind, gets. fold points.
  rewrite (cached_lookup_miss _ _ Hmiss).
  unfold try_except, bind. rewrite (fetch_route_fails _ _ Hfail). reflexivity.
Qed.

(** On every path the call returns a geometry, sends at most one
    request, never sleeps and never changes the endpoint. *)
Lemma route_geometry_returns start finish via w :
  exists g w',
    get_route_geometry_async start finish via w = (Some g, w') /\
    now w' = now w /\ net w' = net w /\
    current_url (client w') = current_url (client w) /\
    (sent w' <= S (sent w))%nat /\
    (events w' = events w \/
     events w' = events w ++
       [Requested Route (current_url (client w))
          (lonlat ([start] ++ via ++ [finish]))]).
Proof.
  unfold get_route_geometry_async, bind, gets.
  set (coords := lonlat ([start] ++ via ++ [finish])).
  destruct (match cache_get _ _ with Some _ => _ | None => _ end) as [g|].
  - exists g, w. repeat split; auto.
  - unfold try_except, bind.
    pose proof (fetch_route_world coords w) as Hw.
    destruct (fetch_route_geometry coords w) as [[g|] w1]; cbn [snd] in Hw;
      subst w1; cbn [modify ret fst snd]; unfold modify, ret;
      eexists _, _; (split; [reflexivity|]);
      cbn [now net client set_client set_route_cache requested current_url
           sent events]; repeat split; auto.
Qed.

(** On a miss the world afterwards: one request, and the cache entry
    when the request succeeded. *)
Lemma route_geometry_miss start finish via w :
  let coords := lonlat ([start] ++ via ++ [finish]) in
  cache_miss w coords ->
  exists g w',
    get_route_geometry_async start finish via w = (Some g, w') /\
    now w' = now w /\ sent w' = S (sent w) /\
    current_url (client w') = current_url (client w) /\
    events w' =
      events w ++ [Requested Route (current_url (client w)) coords].
Proof.
  intros coords Hmiss.
  unfold get_route_geometry_async, bind, gets. fold coords.
  rewrite (cached_lookup_miss _ _ Hmiss).
  unfold try_except, bind.
  pose proof (fetch_route_world coords w) as Hw.
  destruct (fetch_route_geometry coords w) as [[g|] w1]; cbn [snd] in Hw;
    subst w1; unfold modify, ret;
    eexists _, _; (split; [reflexivity|]); repeat split.
Qed.

(** On a cache miss [get_route_geometry_async] sends exactly one request,
    to the endpoint the client currently uses; it takes no sleep (the
    clock of the model, which only sleeps advance, stands still) and
    does not switch endpoints; when that one request fails (network
    error, status other than 200, malformed payload) the local fallback
    is returned and the client, cache included, is left as it was. *)
Lemma route_geometry_single_attempt :
  forall (start finish : RoutePoint) (via : list RoutePoint) (w : World),
    let points := [start] ++ via ++ [finish] in
    cache_miss w (lonlat points) ->
    exists g w',
      get_route_geometry_async start finish via w = (Some g, w') /\
      events w' =
        events w ++ [Requested Route (current_url (client w))
                       (lonlat points)] /\
      sent w' = S (sent w) /\
      now w' = now w /\
      current_url (client w') = current_url (client w) /\
      (route_failure (route_answer w (lonlat points)) ->
       g = create_fallback_geometry points /\ client w' = client w).
Proof.
  intros start finish via w points Hmiss.
  destruct (route_geometry_miss start finish via w Hmiss)
    as (g & w' & Hrun & Hnow & Hsent & Hurl & Hev).
  exists g, w'. do 5 (split; [assumption|]).
  intros Hfail.
  rewrite (route_geometry_miss_failure start finish via w Hmiss Hfail)
    in Hrun.
  inversion Hrun. split; reflexivity.
Qed.

Lemma road_body_is_no_failure : ~ route_failure (Reply 200 (Some road_body)).
Proof.
  intros H. inversion H as
    [ | st body Hst | | data Hc | data Ht | data route rest Ht Hm ]; subst.
  - apply Hst. reflexivity.
  - apply Hc. reflexivity.
  - discriminate.
  - cbn in Ht. inversion Ht; subst.
    destruct Hm as [Hm | [Hm | Hm]]; discriminate.
Qed.

(** C4 does not hold on the code.  A fresh client asks for the road
    from [origin] to [stop_east]; nothing is cached; the first request
    is answered 503, and a second request, to the secondary endpoint or
    to the primary one, would be answered with a route.  The call sends
    its one request to the primary endpoint and returns the
    straight-line fallback: the log of the client holds that request and
    nothing else (no second attempt, no backoff sleep), and the client
    still uses the primary endpoint.  The claim asks for up to three
    attempts with a growing backoff and a switch to the secondary
    endpoint after the first failure, as [_fetch_distance_matrix] of
    the same client makes them. *)
Theorem route_geometry_gives_up_after_first_failure :
  let coords := lonlat [origin; stop_east] in
  let w := recovering_world in
  let result := get_route_geometry_async origin stop_east [] w in
  cache_miss w coords /\
  route_failure (route_answer w coords) /\
  ~ route_failure
      (route_reply (net w) 1 (fallback_url (client w)) coords) /\
  ~ route_failure
      (route_reply (net w) 1 (primary_url (client w)) coords) /\
  fst result = Some (create_fallback_geometry [origin; stop_east]) /\
  events (snd result) = [Requested Route (primary_url (client w)) coords] /\
  sent (snd result) = 1%nat /\
  client (snd result) = client w /\
  current_url (client w) = primary_url (client w).
Proof.
  cbv zeta.
  assert (Hfail : route_failure
            (route_answer recovering_world (lonlat [origin; stop_east]))).
  { unfold route_answer. cbn. apply route_bad_status. discriminate. }
  split; [exact I|]. split; [exact Hfail|].
  split; [apply road_body_is_no_failure|].
  split; [apply road_body_is_no_failure|].
  rewrite (route_geometry_miss_failure origin stop_east [] recovering_world I
             Hfail).
  repeat split.
Qed.

End RouteGeometry.

(** ** The straight-line fallback *)

Section Fallback.

Import Osrm OsrmSpec.

Lemma path_length_from_sum coordinates : forall total,
  path_length_from total coordinates = total + segment_sum coordinates.
Proof.
  induction coordinates as [|p rest IH]; intros total; [simpl; lra|].
  destruct rest as [|q rest']; [simpl; lra|].
  change (path_length_from total (p :: q :: rest'))
    with (path_length_from (total + Geo.haversine_distance p q) (q :: rest')).
  rewrite IH.
  change (segment_sum (p :: q :: rest'))
    with (Geo.haversine_distance p q + segment_sum (q :: rest')).
  lra.
Qed.

(** The fallback geometry, field by field. *)
Lemma fallback_geometry_fields points :
  let g := create_fallback_geometry points in
  coordinates g = latlon points /\
  distance g = 1000 * segment_sum (latlon points) /\
  duration g = segment_sum (latlon points) / 50 * 3600 /\
  steps g = [] /\ geometry_string g = ""%string.
Proof.
  unfold create_fallback_geometry, latlon. cbn [coordinates distance duration
    steps geometry_string].
  rewrite path_length_from_sum. repeat split; lra.
Qed.

(** The argument of the square root and of the arc sine in the
    haversine formula lies in [0, 1] for all coordinates, so neither
    [math.sqrt] nor [math.asin] is applied outside its domain. *)
Lemma haversine_argument_in_domain lat1 lon1 lat2 lon2 :
  let a := sin ((lat2 - lat1) / 2) ^ 2 +
           cos lat1 * cos lat2 * sin ((lon2 - lon1) / 2) ^ 2 in
  0 <= a <= 1 /\ 0 <= sqrt a <= 1.
Proof.
  intros a.
  assert (Ha : 0 <= a <= 1).
  { unfold a.
    pose proof (cos_2a_sin ((lat2 - lat1) / 2)) as Hd.
    replace (2 * ((lat2 - lat1) / 2)) with (lat2 - lat1) in Hd by lra.
    rewrite cos_minus in Hd.
    pose proof (sin2_cos2 lat1) as H1. pose proof (sin2_cos2 lat2) as H2.
    pose proof (sin2_cos2 ((lon2 - lon1) / 2)) as H3.
    unfold Rsqr in *.
    set (s1 := sin lat1) in *. set (c1 := cos lat1) in *.
    set (s2 := sin lat2) in *. set (c2 := cos lat2) in *.
    set (x := sin ((lat2 - lat1) / 2)) in *.
    set (y := sin ((lon2 - lon1) / 2)) in *.
    set (z := cos ((lon2 - lon1) / 2)) in *.
    assert (Hx : x ^ 2 = (1 - c2 * c1 - s2 * s1) / 2) by (simpl; lra).
    assert (Hy : 0 <= y ^ 2 <= 1) by (simpl; nra).
    rewrite Hx. set (t := y ^ 2) in *.
    pose proof (pow2_ge_0 (s1 - s2)) as Q1.
    pose proof (pow2_ge_0 (s1 + s2)) as Q2.
    pose proof (pow2_ge_0 (c1 - c2)) as Q3.
    pose proof (pow2_ge_0 (c1 + c2)) as Q4.
    simpl in Q1, Q2, Q3, Q4.
    assert (Hs : -1 <= s1 * s2 + c1 * c2 <= 1) by (split; lra).
    assert (Hs' : -1 <= s1 * s2 - c1 * c2 <= 1) by (split; lra).
    destruct (Rle_dec 0 (c1 * c2)) as [Hp|Hp].
    - assert (0 <= c1 * c2 * t) by (apply Rmult_le_pos; lra).
      assert (0 <= c1 * c2 * (1 - t)) by (apply Rmult_le_pos; lra).
      split; lra.
    - assert (0 <= - (c1 * c2) * t) by (apply Rmult_le_pos; lra).
      assert (0 <= - (c1 * c2) * (1 - t)) by (apply Rmult_le_pos; lra).
      split; lra. }
  split; [exact Ha|].
  split; [apply sqrt_pos|].
  rewrite <- sqrt_1. apply sqrt_le_1_alt. lra.
Qed.

Lemma haversine_within_domain p q :
  exists a,
    0 <= a <= 1 /\ 0 <= sqrt a <= 1 /\
    Geo.haversine_distance p q = 2 * asin (sqrt a) * 6371.
Proof.
  eexists. split; [| split; [| reflexivity]];
    apply (haversine_argument_in_domain (Geo.radians (fst p))
             (Geo.radians (snd p)) (Geo.radians (fst q))
             (Geo.radians (snd q))).
Qed.

(** C5, amended: when no fresh cache entry exists for the path and the
    route request fails (in particular when the service is unreachable),
    [route_geometry] returns a geometry whose coordinates are the given
    points in order, whose distance in metres is 1000 times the sum of
    the haversine distances in kilometres between consecutive points,
    and whose duration in seconds is that sum divided by 50 km/h, times
    3600.  The fallback itself is a total function of the points. *)
Theorem fallback_geometry_on_miss_and_failure :
  forall (start finish : RoutePoint) (via : list RoutePoint) (w : World),
    let points := [start] ++ via ++ [finish] in
    cache_miss w (lonlat points) ->
    route_failure (route_answer w (lonlat points)) ->
    exists g w',
      get_route_geometry_async start finish via w = (Some g, w') /\
      g = create_fallback_geometry points /\
      coordinates g = latlon points /\
      distance g = 1000 * segment_sum (latlon points) /\
      duration g = segment_sum (latlon points) / 50 * 3600.
Proof.
  intros start finish via w points Hmiss Hfail.
  exists (create_fallback_geometry points),
    (requested Route (lonlat points) w).
  split; [apply route_geometry_miss_failure; assumption|].
  split; [reflexivity|].
  destruct (fallback_geometry_fields points) as (Hc & Hd & Ht & _).
  auto.
Qed.

(** C5, amended, on three points and an unreachable service. *)
Lemma fallback_geometry_example :
  exists g w',
    get_route_geometry_async origin stop_east [stop_north] silent_world
      = (Some g, w') /\
    g = create_fallback_geometry [origin; stop_north; stop_east] /\
    coordinates g = [(0, 0); (1, 0); (0, 1)] /\
    distance g = 1000 * segment_sum [(0, 0); (1, 0); (0, 1)] /\
    duration g = segment_sum [(0, 0); (1, 0); (0, 1)] / 50 * 3600.
Proof.
  apply (fallback_geometry_on_miss_and_failure origin stop_east [stop_north]
           silent_world).
  - exact I.
  - apply route_unreachable.
Defined.

Lemma first_call_caches_the_road :
  get_route_geometry_async origin stop_east [] failing_world =
  (Some road_geometry, world_with_cached_road).
Proof. reflexivity. Qed.

(** C5 as stated fails.  The first call is answered by the service and
    cached; ten minutes later the service is unreachable, and the same
    call returns the cached road geometry without any request: its
    coordinates are the three road samples, not the two given points,
    and its distance is 120 km, not 1000 times the haversine sum. *)
Lemma cached_geometry_returned_while_unreachable :
  let later := snd (sleep 600 world_with_cached_road) in
  fst (get_route_geometry_async origin stop_east [] failing_world)
    = Some road_geometry /\
  snd (get_route_geometry_async origin stop_east [] failing_world)
    = world_with_cached_road /\
  route_answer later (lonlat [origin; stop_east]) = NetworkError /\
  get_route_geometry_async origin stop_east [] later
    = (Some road_geometry, later) /\
  coordinates road_geometry <> latlon [origin; stop_east] /\
  List.length (coordinates road_geometry) = 3%nat /\
  List.length (latlon [origin; stop_east]) = 2%nat.
Proof.
  cbv zeta. rewrite first_call_caches_the_road.
  split; [reflexivity|]. split; [reflexivity|]. split; [reflexivity|].
  split.
  - unfold get_route_geometry_async, bind, gets, sleep, modify.
    cbn [snd world_with_cached_road client route_cache now lonlat map app
         longitude latitude origin stop_east cache_get timestamp geometry].
    destruct (key_eq_dec [(0, 0); (1, 0)] [(0, 0); (1, 0)]) as [_|Hne];
      [| exfalso; apply Hne; reflexivity].
    cbn [timestamp geometry].
    destruct (Rlt_dec (0 + Rmax 0 600 - 0) cache_ttl) as [_|Hold].
    + reflexivity.
    + exfalso. apply Hold. unfold cache_ttl, Rmax.
      destruct (Rle_dec 0 600); lra.
  - split; [| split; reflexivity].
    intros H. apply (f_equal (@List.length _)) in H. discriminate H.
Qed.

End Fallback.

(** ** The engine, operation by operation *)

Section Engine.

Import Sim SimSpec.

Lemma py_nth_last {A} (l : list A) (x : A) : py_nth (l ++ [x]) (-1) = Some x.
Proof.
  unfold py_nth, len. rewrite length_app. cbn [List.length].
  change (0 <=? -1)%Z with false. cbv iota.
  destruct (Z.leb_spec 0 (Z.of_nat (List.length l + 1) + -1)); [|lia].
  replace (Z.to_nat (Z.of_nat (List.length l + 1) + -1)) with (List.length l)
    by lia.
  rewrite nth_error_app2 by lia. rewrite Nat.sub_diag. reflexivity.
Qed.

Lemma initialize_vehicle_route_spec route depot w :
  exists g o,
    Osrm.now o = Osrm.now (osrm w) /\
    initialize_vehicle_route route depot w =
    (Some tt, installed route depot g o w).
Proof.
  unfold initialize_vehicle_route.
  change ([depot] ++ map order_waypoint (rd_orders route) ++ [depot])
    with ((depot :: map order_waypoint (rd_orders route)) ++ [depot]).
  unfold bind at 1. unfold try_except. unfold bind at 1.
  change (py_nth ((depot :: map order_waypoint (rd_orders route)) ++ [depot]) 0)
    with (Some depot).
  cbn [must ret]. unfold bind at 1. rewrite py_nth_last. cbn [must ret].
  unfold bind at 1.
  destruct (route_geometry_returns depot depot
              (removelast (tl ((depot :: map order_waypoint (rd_orders route))
                               ++ [depot]))) (osrm w))
    as (g & o & Hg & Hnow & _).
  unfold lift. rewrite Hg.
  exists g, o. split; [assumption|]. reflexivity.
Qed.

Lemma update_vehicle_position_spec vid v r w v' w' :
  dict_get vid (active_simulations (sim w)) = Some v ->
  dict_get vid (simulation_routes (sim w)) = Some r ->
  advance_vehicle v r w = (Some v', w') ->
  update_vehicle_position vid w = (Some tt, set_vehicle vid v' w').
Proof.
  intros Hv Hr Ha. unfold update_vehicle_position, bind.
  rewrite Hv. cbn [must ret]. rewrite Hr. cbn [must ret]. rewrite Ha.
  reflexivity.
Qed.

Lemma update_all_cons_active vid rest w v w1 m w2 :
  dict_get vid (active_simulations (sim w)) = Some v ->
  status v <> COMPLETED ->
  update_vehicle_position vid w = (Some tt, w1) ->
  update_all rest w1 = (Some m, w2) ->
  update_all (vid :: rest) w = (Some (S m), w2).
Proof.
  intros Hv Hs Hu Hrest. cbn [update_all]. unfold bind at 1.
  rewrite Hv. cbn [must ret]. rewrite (status_eqb_completed _ Hs).
  unfold bind. rewrite Hu. unfold ret. cbv beta iota. rewrite Hrest.
  reflexivity.
Qed.

Lemma broadcast_returns w :
  fst (broadcast_all_vehicle_states w) = Some tt.
Proof.
  unfold broadcast_all_vehicle_states. destruct (Nat.eqb _ _); reflexivity.
Qed.

Lemma loop_iteration_active w n w1 :
  update_all (map fst (active_simulations (sim w))) w = (Some (S n), w1) ->
  loop_iteration w = (Some true, after_iteration (Osrm.now (osrm w)) w1).
Proof.
  intros Hu. unfold loop_iteration, bind, time, gets. rewrite Hu.
  unfold after_iteration.
  pose proof (broadcast_returns w1) as Hb.
  destruct (broadcast_all_vehicle_states w1) as [[[]|] w2];
    cbn [fst] in Hb; [|discriminate].
  cbn [Nat.eqb snd]. unfold sleep, lift, Osrm.sleep, modify. reflexivity.
Qed.

Lemma tick_active w n w1 :
  task_alive (sim w) = true -> is_running (sim w) = true ->
  active_simulations (sim w) <> [] ->
  update_all (map fst (active_simulations (sim w))) w = (Some (S n), w1) ->
  tick w = (Some tt, after_iteration (Osrm.now (osrm w)) w1).
Proof.
  intros Ha Hr Hne Hu. unfold tick, bind, gets. cbv beta iota.
  rewrite Ha. cbn [negb]. rewrite Hr.
  assert (Hlen : Nat.eqb (List.length (active_simulations (sim w))) 0 = false).
  { destruct (active_simulations (sim w)); [contradiction | reflexivity]. }
  rewrite Hlen. cbn [negb andb].
  unfold try_except.
  rewrite (loop_iteration_active w n w1 Hu). reflexivity.
Qed.

Lemma after_iteration_sim start w1 : sim (after_iteration start w1) = sim w1.
Proof.
  unfold after_iteration, broadcast_all_vehicle_states.
  destruct (Nat.eqb _ _); reflexivity.
Qed.

Lemma after_iteration_status_log start w1 :
  status_log (after_iteration start w1) = status_log w1.
Proof.
  unfold after_iteration, broadcast_all_vehicle_states.
  destruct (Nat.eqb _ _); reflexivity.
Qed.

End Engine.

(** ** A vehicle whose first stop is not next to the depot *)

Section NeverDeparts.

Import Sim SimSpec.

Variable vid : string.
Variable depot : Osrm.RoutePoint.
Variable first : Order.
Variable others : list Order.
Variables declared_distance declared_time : option R.

Let route : RouteDict :=
  mkRouteDict vid (first :: others) declared_distance declared_time.

Hypothesis depot_on_globe : -90 <= Osrm.latitude depot <= 90.
Hypothesis first_stop_is_far :
  ~ Geo.calculate_distance (Osrm.latitude depot) (Osrm.longitude depot)
      (loc_lat first) (loc_lon first) < 0.1.

Lemma start_parks t0 network randoms :
  parked route depot (snd (start_simulation [route] depot
                 (fresh_world t0 network randoms))).
Proof.
  unfold start_simulation, try_except.
  unfold bind at 1.
  change (stop_simulation (fresh_world t0 network randoms))
    with (Some tt, fresh_world t0 network randoms).
  cbn iota. unfold bind at 1. cbn [initialize_routes]. unfold bind at 1.
  destruct (initialize_vehicle_route_spec route depot
              (fresh_world t0 network randoms)) as (g & o & Hnow & Hinit).
  rewrite Hinit. cbn [ret bind modify snd].
  unfold bind, ret, modify. cbn [snd].
  eexists _, _. split; [| split; [| split]].
  - reflexivity.
  - reflexivity.
  - reflexivity.
  - cbn. repeat split.
Qed.

Lemma tick_stays_parked w :
  parked route depot w -> parked route depot (snd (tick w)).
Proof.
  intros (v & r & Hsim & Hlog & Hw & Hs & Hsp & Hla & Hlo & Hc & Hcargo & Hp).
  assert (Hidx : target_index v r = 1%Z).
  { unfold target_index. rewrite Hc, Hw. unfold route_waypoints, len.
    cbn [rd_orders route map app List.length]. lia. }
  assert (Htarget : py_nth (waypoints r) (target_index v r)
                    = Some (order_waypoint first)).
  { rewrite Hidx, Hw. reflexivity. }
  assert (Hlen : (target_index v r < len (waypoints r))%Z).
  { rewrite Hidx, Hw. unfold route_waypoints, len.
    cbn [rd_orders route map app List.length]. lia. }
  assert (Hadv := advance_waiting_far v r w (order_waypoint first) Hs Hsp).
  rewrite Hla, Hlo in Hadv.
  specialize (Hadv depot_on_globe Hlen Htarget first_stop_is_far).
  set (v' := mkVehicleState _ _ _ _ _ _ _ _ _ _ _) in Hadv.
  assert (Hupd : update_vehicle_position vid w
                 = (Some tt, set_vehicle vid v' w)).
  { apply (update_vehicle_position_spec vid v r); [| | exact Hadv];
      rewrite Hsim; cbn; rewrite String.eqb_refl; reflexivity. }
  assert (Hall : update_all (map fst (active_simulations (sim w))) w
                 = (Some 1%nat, set_vehicle vid v' w)).
  { rewrite Hsim. cbn [active_simulations map fst].
    apply (update_all_cons_active vid [] w v (set_vehicle vid v' w) 0%nat);
      [ rewrite Hsim; cbn; rewrite String.eqb_refl; reflexivity
      | rewrite Hs; discriminate | exact Hupd | reflexivity ]. }
  rewrite (tick_active w 0 (set_vehicle vid v' w));
    [| rewrite Hsim; reflexivity | rewrite Hsim; reflexivity
     | rewrite Hsim; discriminate | exact Hall ].
  cbn [snd]. exists v', r.
  rewrite after_iteration_sim, after_iteration_status_log.
  split; [| split; [exact Hlog | split; [exact Hw|]]].
  - unfold set_vehicle, set_sim. rewrite Hsim. cbn.
    rewrite String.eqb_refl. reflexivity.
  - subst v'. cbn. repeat split; assumption.
Qed.

Lemma ticks_stay_parked n : forall w,
  parked route depot w -> parked route depot (snd (simulation_loop n w)).
Proof.
  induction n as [|n IH]; intros w Hw; [exact Hw|].
  cbn [simulation_loop]. unfold bind.
  pose proof (tick_stays_parked w Hw) as Ht.
  destruct (tick w) as [[[]|] w1]; cbn [snd] in Ht |- *.
  - apply IH. exact Ht.
  - exact Ht.
Qed.

(** Whatever the service answers and however long the loop runs, the
    vehicle is still idle at the depot with its full cargo. *)
Lemma never_departs n t0 network randoms :
  parked route depot (snd (simulation_loop n (snd (start_simulation [route] depot
                               (fresh_world t0 network randoms))))).
Proof. apply ticks_stay_parked, start_parks. Qed.

End NeverDeparts.

(** ** Cargo and deliveries *)

Section Cargo.

Import Sim SimSpec.

(** On a route built by [_initialize_vehicle_route], the interior
    waypoint [i] is the location of order [i - 1], and a delivery there
    takes exactly that order's weight off the cargo. *)
Lemma delivery_takes_the_order_weight route depot g v i :
  let r := mkSimulationRoute (rd_vehicle_id route)
             (route_waypoints route depot) g
             (get_or (rd_total_distance route) 0)
             (get_or (rd_estimated_time route) 0) (rd_orders route) in
  (0 < i < len (waypoints r) - 1)%Z ->
  exists order,
    py_nth (orders r) (i - 1) = Some order /\
    py_nth (waypoints r) i = Some (order_waypoint order) /\
    current_cargo (delivered v r i) = current_cargo v - order_weight order.
Proof.
  intros r Hi.
  assert (Hlen : len (waypoints r) = (len (rd_orders route) + 2)%Z).
  { unfold r, route_waypoints, len. cbn [waypoints].
    rewrite !length_app, length_map. cbn [List.length]. lia. }
  destruct (py_nth_in_range (rd_orders route) (i - 1)) as [o Ho]; [lia|].
  exists o. split; [exact Ho|]. split.
  - rewrite py_nth_nonneg in Ho by lia.
    rewrite py_nth_nonneg by lia.
    unfold r, route_waypoints. cbn [waypoints app].
    replace (Z.to_nat i) with (S (Z.to_nat (i - 1))) by lia.
    cbn [nth_error]. rewrite nth_error_app1.
    + rewrite nth_error_map, Ho. reflexivity.
    + rewrite length_map. unfold len in *. lia.
  - unfold delivered. cbn [current_cargo orders r]. rewrite Ho. reflexivity.
Qed.

(** Arrival at the last waypoint empties the vehicle and stops it. *)
Lemma final_arrival v r w :
  (0 < len (waypoints r) - 1)%Z ->
  exists v' w',
    handle_waypoint_arrival v r (len (waypoints r) - 1) w = (Some v', w') /\
    status v' = COMPLETED /\ progress v' = 100 /\ current_cargo v' = 0 /\
    speed v' = 0.
Proof.
  intros Hl. unfold handle_waypoint_arrival.
  destruct (Z.eqb_spec (len (waypoints r) - 1) 0); [lia|].
  rewrite Z.eqb_refl. eexists _, _. split; [reflexivity|]. repeat split.
Qed.

End Cargo.

(** ** The run that never starts *)

Section StuckRun.

Import Sim SimSpec.

(** C1 does not hold on the code: one vehicle, one stop that is not
    within 100 m of the depot.  Whatever the routing service answers,
    whatever the random source yields and however many ticks the loop
    runs, the vehicle is still IDLE at the depot with speed 0 and its
    full cargo of 100 kg, no status was ever assigned to it (so there
    was no DELIVERING episode and no COMPLETED), and the loop is still
    running. *)
Theorem vehicle_never_leaves_idle :
  forall (n : nat) (t0 : R) (network : Osrm.Network) (randoms : nat -> R),
    let started :=
      snd (start_simulation [far_route] equator_depot
             (fresh_world t0 network randoms)) in
    let w := snd (simulation_loop n started) in
    exists v,
      dict_get "V1" (active_simulations (sim w)) = Some v /\
      status v = IDLE /\ speed v = 0 /\
      latitude v = 0 /\ longitude v = 0 /\
      current_order_index v = 0%Z /\ progress v = 0 /\
      current_cargo v = 100 /\
      status_log w = [] /\
      is_running (sim w) = true.
Proof.
  intros n t0 network randoms started w.
  assert (Hlat : -90 <= Osrm.latitude equator_depot <= 90)
    by (cbn; split; lra).
  destruct (never_departs "V1" equator_depot (mkOrder 0 180 "far" 100) []
              (Some 20015) (Some 26000) Hlat far_stop_is_far
              n t0 network randoms)
    as (v & r & Hsim & Hlog & Hw & Hs & Hsp & Hla & Hlo & Hc & Hcargo & Hp).
  fold far_route in Hsim, Hlog. fold started in Hsim, Hlog.
  fold w in Hsim, Hlog.
  exists v. rewrite Hsim. cbn [active_simulations dict_get is_running].
  repeat split; try assumption.
  rewrite Hcargo. unfold py_sum. cbn. lra.
Qed.

End StuckRun.

(** ** The delivery pause inside the tick loop *)

Section DeliveryPause.

Import Sim SimSpec.

(** A waiting vehicle that stands still within 100 m of its target
    arrives there without moving. *)
Lemma advance_waiting_near v r w target :
  status v = IDLE -> speed v = 0 -> -90 <= latitude v <= 90 ->
  (target_index v r < len (waypoints r))%Z ->
  py_nth (waypoints r) (target_index v r) = Some target ->
  Geo.calculate_distance (latitude v) (longitude v)
    (Osrm.latitude target) (Osrm.longitude target) < 0.1 ->
  advance_vehicle v r w =
  handle_waypoint_arrival
    (mkVehicleState (vehicle_id v) (latitude v) (longitude v) 0
       (turn_towards (heading v)
          (Geo.calculate_bearing (latitude v) (longitude v)
             (Osrm.latitude target) (Osrm.longitude target)))
       IDLE (current_cargo v) (fuel_used v) (progress v)
       (current_order_index v) (Osrm.now (osrm w)))
    r (target_index v r) w.
Proof.
  intros Hs Hsp Hlat Hlt Ht Hnear.
  rewrite (advance_unfold v r w target);
    [| rewrite Hs; discriminate | assumption ..].
  unfold bind. rewrite move_when_waiting by (now left).
  rewrite moved_at_rest by assumption. cbn [latitude longitude].
  destruct (Rlt_dec _ 0.1); [| contradiction]. rewrite Hs. reflexivity.
Qed.

(** The time for which [_handle_waypoint_arrival] suspends its caller at
    an interior waypoint: the delivery time over the multiplier. *)
Lemma interior_arrival_takes_the_pause v r i w :
  (0 < i < len (waypoints r) - 1)%Z ->
  0 < simulation_speed_multiplier (sim w) ->
  Osrm.now (osrm (snd (handle_waypoint_arrival v r i w))) =
  Osrm.now (osrm w) + delivery_time * 60 / simulation_speed_multiplier (sim w).
Proof.
  intros Hi Hm. rewrite interior_arrival by (assumption || lra).
  cbn [snd paused osrm Osrm.now]. f_equal.
  apply Rmax_right. unfold delivery_time.
  apply Rlt_le, Rdiv_lt_0_compat; lra.
Qed.

Lemma clamp_one : Rmax 1 (Rmin 1000 1) = 1.
Proof. unfold Rmax, Rmin. rcases; lra. Qed.

Lemma pause_at_real_time : Rmax 0 (delivery_time * 60 / 1) = 180.
Proof. unfold delivery_time, Rmax. rcases; lra. Qed.

Lemma turn_stays_north : turn_towards 0 0 = 0.
Proof.
  rewrite turn_reaches_bearing.
  - apply GeoFacts.normalize_angle_id. lra.
  - replace (0 - 0) with 0 by lra.
    rewrite GeoFacts.normalize_angle_id; unfold max_turn_rate; lra.
Qed.

(** The world after the first three operations. *)
Lemma real_time_run_started t0 network randoms :
  exists o ta tb ga gb,
    Osrm.now o = t0 /\
    run_ops [AddCallback; SetSpeed 1; Start [route_a; route_b] equator_depot]
            (fresh_world t0 network randoms) =
    mkWorld o randoms 0
      (mkSimulator
         [("A"%string, mkVehicleState "A" 0 0 0 0 IDLE (0 + 40) 0 0 0 ta);
          ("B"%string, mkVehicleState "B" 0 0 0 0 IDLE (0 + 100) 0 0 0 tb)]
         [("A"%string,
           mkSimulationRoute "A" (route_waypoints route_a equator_depot)
             (Some ga) 0 0 (rd_orders route_a));
          ("B"%string,
           mkSimulationRoute "B" (route_waypoints route_b equator_depot)
             (Some gb) 0 0 (rd_orders route_b))]
         1 1 true true)
      [mkSnapshot t0 [] false] [].
Proof.
  cbn [run_ops run_op]. unfold add_websocket_callback, set_simulation_speed,
    modify. cbn [snd fresh_world sim set_sim osrm draws drawn snapshots
    status_log active_simulations simulation_routes websocket_callbacks
    simulation_speed_multiplier is_running task_alive init_simulator].
  rewrite clamp_one.
  unfold bind at 1. unfold start_simulation, try_except.
  unfold bind at 1.
  match goal with
  | |- context [stop_simulation ?w] =>
      change (stop_simulation w) with
        (Some tt,
         mkWorld (osrm w) (draws w) (drawn w) (sim w)
           [mkSnapshot t0 [] false] [])
  end.
  cbn iota. cbn [osrm draws drawn sim].
  unfold bind at 1. cbn [initialize_routes]. unfold bind at 1.
  match goal with
  | |- context [initialize_vehicle_route route_a equator_depot ?w] =>
      destruct (initialize_vehicle_route_spec route_a equator_depot w)
        as (ga & oa & Hnowa & Hinita); rewrite Hinita
  end.
  cbn iota. unfold bind at 1.
  match goal with
  | |- context [initialize_vehicle_route route_b equator_depot ?w] =>
      destruct (initialize_vehicle_route_spec route_b equator_depot w)
        as (gb & ob & Hnowb & Hinitb); rewrite Hinitb
  end.
  cbn iota. cbn [ret modify snd fst].
  exists ob, (Osrm.now oa), (Osrm.now ob), ga, gb.
  split.
  - rewrite Hnowb. cbn [installed osrm]. rewrite Hnowa. reflexivity.
  - reflexivity.
Qed.

Lemma run_ops_app ops1 ops2 w :
  run_ops (ops1 ++ ops2) w = run_ops ops2 (run_ops ops1 w).
Proof.
  revert w. induction ops1 as [|op rest IH]; intros w; [reflexivity|].
  cbn [app run_ops]. apply IH.
Qed.

(** C8 does not hold on the code: the simulation runs in real time
    (multiplier 1), vehicle A delivers at its first stop during the first
    tick and vehicle B is registered after it.  The pause of A is an
    awaited sleep inside the tick loop's own task, so the whole tick
    waits 180 s: B is advanced only when A's pause is over (its update
    carries the time stamp t0 + 180), and the tick's snapshot goes out at
    t0 + 180.  Between t0 and t0 + 180 no vehicle is advanced and nothing
    is broadcast, although the update interval is 2 s. *)
Theorem delivery_pause_blocks_the_tick_loop :
  forall (t0 : R) (network : Osrm.Network) (randoms : nat -> R),
    let w := run_ops real_time_run (fresh_world t0 network randoms) in
    status_log w = [("A"%string, DELIVERING); ("A"%string, MOVING)] /\
    Osrm.now (osrm w) = t0 + 180 /\
    map snap_timestamp (snapshots w) = [t0; t0 + 180] /\
    (exists b,
       dict_get "B" (active_simulations (sim w)) = Some b /\
       status b = IDLE /\ last_updated b = t0 + 180) /\
    (exists a,
       dict_get "A" (active_simulations (sim w)) = Some a /\
       status a = MOVING /\ current_order_index a = 1%Z) /\
    update_interval = 2.
Proof.
  intros t0 network randoms w. subst w. unfold real_time_run.
  change [AddCallback; SetSpeed 1; Start [route_a; route_b] equator_depot; Tick]
    with ([AddCallback; SetSpeed 1; Start [route_a; route_b] equator_depot]
          ++ [Tick]).
  rewrite run_ops_app.
  destruct (real_time_run_started t0 network randoms)
    as (o & ta & tb & ga & gb & Hnow & ->).
  cbn [run_ops run_op].
  set (va := mkVehicleState "A" 0 0 0 0 IDLE (0 + 40) 0 0 0 ta).
  set (vb := mkVehicleState "B" 0 0 0 0 IDLE (0 + 100) 0 0 0 tb).
  set (ra := mkSimulationRoute "A" _ (Some ga) 0 0 _).
  set (rb := mkSimulationRoute "B" _ (Some gb) 0 0 _).
  set (w3 := mkWorld o randoms 0 _ _ _).
  assert (Hlat : -90 <= 0 <= 90) by (split; lra).
  (* vehicle A arrives at its first stop and pauses *)
  assert (Ha : advance_vehicle va ra w3 =
               (Some (delivered
                        (mkVehicleState "A" 0 0 0 0 IDLE (0 + 40) 0 0 0
                           (Osrm.now o)) ra 1),
                paused "A" w3)).
  { rewrite (advance_waiting_near va ra w3
               (order_waypoint (mkOrder 0 0 "next door" 40)));
      try reflexivity; try exact Hlat.
    - cbn [latitude longitude heading va Osrm.latitude Osrm.longitude
           order_waypoint loc_lat loc_lon vehicle_id current_cargo fuel_used
           progress current_order_index].
      rewrite GeoFacts.calculate_bearing_same by exact Hlat.
      rewrite turn_stays_north.
      change (target_index va ra) with 1%Z.
      rewrite interior_arrival;
        [reflexivity | split; reflexivity |].
      cbn. intros H1. lra.
    - cbn [latitude longitude va Osrm.latitude Osrm.longitude order_waypoint
           loc_lat loc_lon].
      rewrite GeoFacts.calculate_distance_same. lra. }
  set (va' := delivered _ ra 1) in Ha.
  set (wa := set_vehicle "A" va' (paused "A" w3)).
  assert (Hua : update_vehicle_position "A" w3 = (Some tt, wa)).
  { apply (update_vehicle_position_spec "A" va ra);
      [reflexivity ..| exact Ha]. }
  (* vehicle B is advanced in the world that A's pause left behind *)
  assert (Hb : advance_vehicle vb rb wa =
               (Some (mkVehicleState "B" 0 0 0
                        (turn_towards 0 (Geo.calculate_bearing 0 0 0 180))
                        IDLE (0 + 100) 0 0 0 (Osrm.now (osrm wa))), wa)).
  { apply (advance_waiting_far vb rb wa
             (order_waypoint (mkOrder 0 180 "far" 100)));
      try reflexivity; try exact Hlat.
    exact far_stop_is_far. }
  set (vb' := mkVehicleState "B" 0 0 0 _ IDLE _ 0 0 0 _) in Hb.
  set (wb := set_vehicle "B" vb' wa).
  assert (Hub : update_vehicle_position "B" wa = (Some tt, wb)).
  { apply (update_vehicle_position_spec "B" vb rb);
      [reflexivity ..| exact Hb]. }
  assert (Hall : update_all (map fst (active_simulations (sim w3))) w3
                 = (Some 2%nat, wb)).
  { cbn [w3 sim active_simulations map fst].
    apply (update_all_cons_active "A" ["B"%string] w3 va wa 1 wb);
      [reflexivity | discriminate | exact Hua |].
    apply (update_all_cons_active "B" [] wa vb wb 0 wb);
      [reflexivity | discriminate | exact Hub | reflexivity]. }
  rewrite (tick_active w3 1 wb); [| reflexivity | reflexivity | discriminate
                                  | exact Hall].
  cbn [snd].
  assert (Hwb : Osrm.now (osrm wb) = t0 + 180).
  { cbn [wb wa set_vehicle set_sim osrm paused w3 Osrm.now sim
         simulation_speed_multiplier].
    rewrite pause_at_real_time, Hnow. reflexivity. }
  split; [| split; [| split; [| split; [| split]]]].
  - rewrite after_iteration_status_log. reflexivity.
  - unfold after_iteration, broadcast_all_vehicle_states.
    change (websocket_callbacks (sim wb)) with 1%nat. cbn [Nat.eqb snd].
    unfold sleep, lift, Osrm.sleep, modify. cbn [snd osrm Osrm.now].
    change (Osrm.now (osrm w3)) with (Osrm.now o).
    rewrite Hwb, Hnow. unfold update_interval.
    replace (t0 + 180 - t0) with 180 by lra.
    unfold Rmax. rcases; lra.
  - unfold after_iteration, broadcast_all_vehicle_states.
    change (websocket_callbacks (sim wb)) with 1%nat. cbn [Nat.eqb snd].
    unfold sleep, lift, Osrm.sleep, modify.
    cbn [snd snapshots osrm Osrm.now].
    change (snapshots wb) with [mkSnapshot t0 [] false].
    cbn [map app snap_timestamp]. rewrite Hwb. reflexivity.
  - exists vb'. rewrite after_iteration_sim. split; [reflexivity|].
    split; [reflexivity|]. cbn [vb' last_updated]. exact Hwb.
  - exists va'. rewrite after_iteration_sim. split; [reflexivity|].
    split; reflexivity.
  - reflexivity.
Qed.

Lemma snd_bind_ret {S A} (m : M S A) (s : S) :
  snd (bind m (fun _ => ret tt) s) = snd (m s).
Proof. unfold bind. destruct (m s) as [[a|] s']; reflexivity. Qed.

(** The world right after a fresh process started a single route. *)
Lemma start_single route depot t0 network randoms :
  exists g o,
    Osrm.now o = t0 /\
    snd (start_simulation [route] depot (fresh_world t0 network randoms)) =
    set_running true true
      (installed route depot g o (fresh_world t0 network randoms)).
Proof.
  unfold start_simulation, try_except.
  unfold bind at 1.
  change (stop_simulation (fresh_world t0 network randoms))
    with (Some tt, fresh_world t0 network randoms).
  cbn iota. unfold bind at 1. cbn [initialize_routes]. unfold bind at 1.
  destruct (initialize_vehicle_route_spec route depot
              (fresh_world t0 network randoms)) as (g & o & Hnow & Hinit).
  rewrite Hinit. exists g, o. split; [exact Hnow | reflexivity].
Qed.

End DeliveryPause.

(** ** The retry loop of the distance matrix, for comparison *)

Section MatrixRetries.

Import Osrm OsrmSpec.

(** When every request raises, [_fetch_distance_matrix] tries three
    times on the same endpoint, sleeping 1 s and 2 s in between, and
    then raises. *)
Lemma distance_matrix_retries_after_network_errors coords t :
  let w := mkWorld t 0 [] silent_network init_client in
  let u := "https://router.project-osrm.org"%string in
  exists d1 d2,
    d1 = 1 /\ d2 = 2 /\
    fetch_distance_matrix coords w =
    (None,
     mkWorld (t + Rmax 0 d1 + Rmax 0 d2) 3
       [Requested Table u coords; Slept d1; Requested Table u coords;
        Slept d2; Requested Table u coords]
       silent_network init_client).
Proof.
  cbv zeta.
  exists (retry_delay * (INR 0 + 1)), (retry_delay * (INR 1 + 1)).
  split; [unfold retry_delay; simpl; lra|].
  split; [unfold retry_delay; simpl; lra|].
  reflexivity.
Qed.

(** When every request is answered 503, it switches to the secondary
    endpoint after the first attempt, tries that endpoint twice without
    sleeping, and raises; the client keeps the secondary endpoint as its
    current one after the call. *)
Lemma distance_matrix_switches_after_http_errors coords t :
  let w := mkWorld t 0 [] refusing_network init_client in
  fetch_distance_matrix coords w =
  (None,
   mkWorld t 3
     [Requested Table "https://router.project-osrm.org" coords;
      Requested Table "http://localhost:5000" coords;
      Requested Table "http://localhost:5000" coords]
     refusing_network
     (set_current_url "http://localhost:5000" init_client)).
Proof. reflexivity. Qed.

End MatrixRetries.

(** ** An invariant of the engine *)

Section Invariant.

Import Sim SimSpec.

Lemma dict_get_set_same {V} key (value : V) d :
  dict_get key (dict_set key value d) = Some value.
Proof.
  induction d as [|[k v] rest IH]; cbn [dict_set dict_get].
  - rewrite String.eqb_refl. reflexivity.
  - destruct (String.eqb key k) eqn:E; cbn [dict_get]; rewrite E;
      [reflexivity | exact IH].
Qed.

Lemma dict_get_set_other {V} key key' (value : V) d :
  key' <> key -> dict_get key' (dict_set key value d) = dict_get key' d.
Proof.
  intros Hne. induction d as [|[k v] rest IH]; cbn [dict_set dict_get].
  - destruct (String.eqb_spec key' key); [contradiction | reflexivity].
  - destruct (String.eqb_spec key k) as [->|Hk]; cbn [dict_get].
    + destruct (String.eqb_spec key' k); [contradiction | reflexivity].
    + rewrite IH. reflexivity.
Qed.

Lemma preserves_of_keeps {A} (m : M World A) :
  keeps (fun s => s) m -> preserves m.
Proof. intros H w Hok. rewrite H. exact Hok. Qed.

Lemma preserves_bind {A B} (m : M World A) (f : A -> M World B) :
  preserves m -> (forall a, preserves (f a)) -> preserves (bind m f).
Proof.
  intros Hm Hf w Hok. unfold bind. specialize (Hm w Hok).
  destruct (m w) as [[a|] w1]; cbn [snd] in *; [|assumption].
  apply Hf. assumption.
Qed.

Lemma preserves_try {A} (body handler : M World A) :
  preserves body -> preserves handler -> preserves (try_except body handler).
Proof.
  intros Hb Hh w Hok. unfold try_except. specialize (Hb w Hok).
  destruct (body w) as [[a|] w1]; cbn [snd] in *; [assumption|].
  apply Hh. assumption.
Qed.

Lemma preserves_ret {A} (a : A) : preserves (ret a).
Proof. intros w H. exact H. Qed.

Lemma preserves_gets {A} (f : World -> A) : preserves (gets f).
Proof. intros w H. exact H. Qed.

Lemma preserves_modify (f : World -> World) :
  (forall w, engine_ok (sim w) -> engine_ok (sim (f w))) ->
  preserves (modify f).
Proof. intros H w Hok. apply H. exact Hok. Qed.

Lemma preserves_set_running running alive :
  preserves (modify (set_running running alive)).
Proof. apply preserves_modify. intros w H. exact H. Qed.

(** Storing a vehicle that is within bounds under an identifier that
    has a route keeps the invariant. *)
Lemma engine_ok_set_vehicle vid v w :
  engine_ok (sim w) -> vehicle_ok v ->
  (exists r, dict_get vid (simulation_routes (sim w)) = Some r /\
             waypoints r <> []) ->
  engine_ok (sim (set_vehicle vid v w)).
Proof.
  intros [Hm Hall] Hv Hr. split; [exact Hm|].
  intros vid' v' Hget. cbn [set_vehicle set_sim sim active_simulations
    simulation_routes] in *.
  destruct (String.eqb_spec vid' vid) as [->|Hne].
  - rewrite dict_get_set_same in Hget. inversion Hget; subst.
    split; assumption.
  - rewrite dict_get_set_other in Hget by assumption. apply Hall. exact Hget.
Qed.

Lemma advance_completed v r w :
  status v = COMPLETED -> advance_vehicle v r w = (Some v, w).
Proof. intros H. unfold advance_vehicle. rewrite H. reflexivity. Qed.

Lemma preserves_update vid : preserves (update_vehicle_position vid).
Proof.
  intros w Hok. unfold update_vehicle_position, bind.
  destruct (dict_get vid (active_simulations (sim w))) as [v|] eqn:Ev;
    [| exact Hok].
  cbn [must ret].
  destruct (dict_get vid (simulation_routes (sim w))) as [r|] eqn:Er;
    [| exact Hok].
  cbn [must ret].
  destruct Hok as [Hm Hall].
  destruct (Hall vid v Ev) as [Hv (r' & Er' & Hne)].
  assert (r' = r) by congruence. subst r'.
  pose proof (advance_keeps_simulator v r w) as Hkeep.
  assert (Hres : exists v' w', advance_vehicle v r w = (Some v', w') /\
                               vehicle_ok v').
  { destruct (status v) eqn:Es.
    5: { exists v, w. split; [apply advance_completed; exact Es | exact Hv]. }
    all: destruct (advance_bounds v r w) as (v' & w' & Ha & H1 & H2 & H3);
      [ rewrite Es; discriminate | exact Hne | apply Hv | lra
      | exists v', w'; split; [exact Ha | repeat split; tauto] ]. }
  destruct Hres as (v' & w' & Ha & Hv'). rewrite Ha in Hkeep |- *.
  cbn [snd] in Hkeep |- *. unfold modify. cbn [snd].
  apply engine_ok_set_vehicle; rewrite ?Hkeep.
  - split; assumption.
  - exact Hv'.
  - exists r. split; assumption.
Qed.

Lemma preserves_must_fun {A} (f : World -> option A) :
  preserves (fun w => must (f w) w).
Proof. intros w H. destruct (f w); exact H. Qed.

Lemma preserves_update_all ids : preserves (update_all ids).
Proof.
  induction ids as [|vid rest IH]; cbn [update_all].
  - apply preserves_ret.
  - apply preserves_bind; [apply preserves_must_fun | intros v].
    apply preserves_bind.
    + destruct (status_eqb (status v) COMPLETED); [apply preserves_ret|].
      apply preserves_bind;
        [apply preserves_update | intros; apply preserves_ret].
    + intros n. apply preserves_bind; [exact IH | intros; apply preserves_ret].
Qed.

Lemma preserves_broadcast : preserves broadcast_all_vehicle_states.
Proof. apply preserves_of_keeps, keeps_broadcast. Qed.

Lemma preserves_sleep d : preserves (sleep d).
Proof. apply preserves_of_keeps. unfold sleep. apply keeps_lift. Qed.

Lemma preserves_iteration : preserves loop_iteration.
Proof.
  unfold loop_iteration, time.
  apply preserves_bind; [apply preserves_gets | intros t].
  apply preserves_bind; [apply preserves_gets | intros ids].
  apply preserves_bind; [apply preserves_update_all | intros n].
  apply preserves_bind; [apply preserves_broadcast | intros _].
  destruct (Nat.eqb n 0); [apply preserves_ret|].
  apply preserves_bind; [apply preserves_gets | intros t'].
  apply preserves_bind; [apply preserves_sleep | intros; apply preserves_ret].
Qed.

Lemma preserves_tick : preserves tick.
Proof.
  unfold tick.
  apply preserves_bind; [apply preserves_gets | intros alive].
  destruct (negb alive); [apply preserves_ret|].
  apply preserves_bind; [apply preserves_gets | intros go].
  destruct (negb go); [apply preserves_set_running|].
  apply preserves_try; [| apply preserves_set_running].
  apply preserves_bind; [apply preserves_iteration | intros again].
  destruct again; [apply preserves_ret | apply preserves_set_running].
Qed.

Lemma vehicle_ok_completed v :
  vehicle_ok v -> vehicle_ok (with_progress 100 (with_status COMPLETED v)).
Proof. intros H. exact H. Qed.

Lemma preserves_complete_all ids : preserves (complete_all ids).
Proof.
  induction ids as [|vid rest IH]; cbn [complete_all]; [apply preserves_ret|].
  intros w Hok. unfold bind at 1.
  destruct (dict_get vid (active_simulations (sim w))) as [v|] eqn:Ev;
    [| exact Hok].
  cbn [must ret]. unfold bind at 1.
  unfold assign_status, bind, modify, ret. cbn [fst snd].
  match goal with
  | |- engine_ok (sim (snd (complete_all rest ?w1))) =>
      apply (IH w1)
  end.
  destruct (proj2 Hok vid v Ev) as [Hv Hr].
  apply engine_ok_set_vehicle; [exact Hok | exact Hv | exact Hr].
Qed.

Lemma preserves_stop : preserves stop_simulation.
Proof.
  unfold stop_simulation.
  apply preserves_bind; [apply preserves_set_running | intros _].
  apply preserves_bind; [apply preserves_gets | intros ids].
  apply preserves_bind; [apply preserves_complete_all | intros _].
  apply preserves_broadcast.
Qed.

Lemma preserves_initialize route depot :
  preserves (initialize_vehicle_route route depot).
Proof.
  intros w [Hm Hall].
  destruct (initialize_vehicle_route_spec route depot w)
    as (g & o & _ & Hinit).
  rewrite Hinit. cbn [snd]. unfold installed. cbn [sim].
  split; [exact Hm|].
  intros vid v Hget.
  cbn [active_simulations simulation_routes] in Hget |- *.
  destruct (String.eqb_spec vid (rd_vehicle_id route)) as [->|Hne].
  - rewrite dict_get_set_same in Hget. inversion Hget; subst. split.
    + unfold vehicle_ok, max_speed. cbn. repeat split; (lra || lia).
    + eexists. rewrite dict_get_set_same. split; [reflexivity|].
      cbn. discriminate.
  - rewrite dict_get_set_other in Hget by assumption.
    destruct (Hall vid v Hget) as [Hv (r & Hr & Hne')].
    split; [exact Hv|]. exists r. rewrite dict_get_set_other by assumption.
    split; assumption.
Qed.

Lemma preserves_initialize_routes routes depot :
  preserves (initialize_routes routes depot).
Proof.
  induction routes as [|route rest IH]; cbn [initialize_routes].
  - apply preserves_ret.
  - apply preserves_bind; [apply preserves_initialize | intros _; exact IH].
Qed.

Lemma preserves_start routes depot :
  preserves (start_simulation routes depot).
Proof.
  unfold start_simulation. apply preserves_try; [| apply preserves_ret].
  apply preserves_bind; [apply preserves_stop | intros _].
  apply preserves_bind; [apply preserves_initialize_routes | intros _].
  apply preserves_bind; [apply preserves_set_running | intros _].
  apply preserves_ret.
Qed.

Lemma preserves_op op : preserves (run_op op).
Proof.
  destruct op; cbn [run_op].
  - apply preserves_modify. intros w H. exact H.
  - apply preserves_bind; [apply preserves_start | intros; apply preserves_ret].
  - apply preserves_stop.
  - apply preserves_tick.
  - apply preserves_modify. intros w [_ Hall]. split; [| exact Hall].
    apply clamp_range.
  - apply preserves_ret.
Qed.

(** After every sequence of operations on a fresh process, every
    vehicle has its speed within [0, max_speed] and its heading within
    [0, 360), has a route, and the multiplier is within [1, 1000]. *)
Lemma engine_invariant ops t0 network randoms :
  engine_ok (sim (run_ops ops (fresh_world t0 network randoms))).
Proof.
  assert (H0 : engine_ok (sim (fresh_world t0 network randoms))).
  { split; [cbn; split; lra | intros vid v H; discriminate H]. }
  revert H0. generalize (fresh_world t0 network randoms).
  induction ops as [|op rest IH]; intros w Hw; cbn [run_ops]; [exact Hw|].
  apply IH, preserves_op, Hw.
Qed.

(** In particular every vehicle of every reachable state has its speed
    within [0, max_speed] and its heading within [0, 360). *)
Lemma vehicles_within_bounds ops t0 network randoms vid v :
  dict_get vid
    (active_simulations (sim (run_ops ops (fresh_world t0 network randoms))))
    = Some v ->
  0 <= speed v <= max_speed /\ 0 <= heading v < 360.
Proof.
  intros H.
  destruct (engine_invariant ops t0 network randoms) as [_ Hall].
  destruct (Hall vid v H) as [(Hs & Hh & _) _]. split; assumption.
Qed.

End Invariant.

(** ** More about the geodesic functions *)

Section Geodesy.

Import Geo GeoFacts.

Lemma asin_nonneg x : 0 <= x <= 1 -> 0 <= asin x <= PI / 2.
Proof.
  intros Hx. pose proof (asin_bound x) as Hb. split; [| apply Hb].
  destruct (Rle_dec 0 (asin x)) as [H|H]; [exact H|].
  exfalso. pose proof PI_RGT_0 as Hpi.
  assert (Hs : sin (asin x) < 0) by (apply sin_lt_0_var; lra).
  rewrite sin_asin in Hs by lra. lra.
Qed.

Lemma sin_half_sqr_sym x y : sin ((x - y) / 2) ^ 2 = sin ((y - x) / 2) ^ 2.
Proof.
  replace ((y - x) / 2) with (- ((x - y) / 2)) by lra.
  rewrite sin_neg. simpl. lra.
Qed.

Lemma calculate_distance_sym lat1 lon1 lat2 lon2 :
  calculate_distance lat1 lon1 lat2 lon2 =
  calculate_distance lat2 lon2 lat1 lon1.
Proof.
  unfold calculate_distance.
  rewrite (sin_half_sqr_sym (radians lat2) (radians lat1)).
  rewrite (sin_half_sqr_sym (radians lon2) (radians lon1)).
  rewrite (Rmult_comm (cos (radians lat1)) (cos (radians lat2))).
  reflexivity.
Qed.

Lemma calculate_distance_bounds lat1 lon1 lat2 lon2 :
  0 <= calculate_distance lat1 lon1 lat2 lon2 <= earth_radius * PI.
Proof.
  unfold calculate_distance.
  destruct (haversine_argument_in_domain (radians lat1) (radians lon1) (radians lat2)
              (radians lon2)) as [_ Hs].
  apply asin_nonneg in Hs. unfold earth_radius. split; nra.
Qed.

Lemma haversine_is_calculate_distance lat1 lon1 lat2 lon2 :
  haversine_distance (lat1, lon1) (lat2, lon2) =
  calculate_distance lat1 lon1 lat2 lon2.
Proof.
  unfold haversine_distance, calculate_distance, earth_radius.
  cbn [fst snd]. lra.
Qed.

(** X1: on double-precision numbers the loops of [_normalize_angle] do
    not end on an angle that absorbs a turn, that is a negative angle
    that adding 360 leaves unchanged or an angle of at least 360 that
    subtracting 360 leaves unchanged: however many iterations are
    allowed, a loop is still running when they are used up. *)
Theorem normalize_angle_loops_on_absorbed_turns :
  forall angle : PrimFloat.float,
    Doubles.absorbs_a_turn angle ->
    forall fuel : nat, Doubles.normalize_angle_fuel fuel angle = None.
Proof.
  intros angle [[Hneg Hadd] | (Hpos & Hbig & Hsub)] fuel;
    unfold Doubles.normalize_angle_fuel.
  - assert (Hr : Doubles.raise_angle fuel angle = None).
    { induction fuel as [|n IH]; cbn [Doubles.raise_angle]; rewrite Hneg;
        [reflexivity | rewrite Hadd; exact IH]. }
    rewrite Hr. reflexivity.
  - assert (Hr : Doubles.raise_angle fuel angle = Some angle).
    { destruct fuel; cbn [Doubles.raise_angle]; rewrite Hpos; reflexivity. }
    rewrite Hr. clear Hr.
    induction fuel as [|n IH]; cbn [Doubles.lower_angle]; rewrite Hbig;
      [reflexivity | rewrite Hsub; exact IH].
Qed.

(** X1 at 1e20, with a thousand iterations allowed. *)
Lemma normalize_angle_loops_at_1e20 :
  Doubles.normalize_angle_fuel 1000 Doubles.huge = None.
Proof.
  apply (normalize_angle_loops_on_absorbed_turns Doubles.huge).
  right. repeat split; reflexivity.
Defined.

(** X2: the great-circle distance of the engine is symmetric, lies
    between zero and half the circumference of the globe, is zero
    between a point and itself, and is the same number as the haversine
    distance of the routing client. *)
Theorem distance_is_symmetric_and_bounded :
  forall lat1 lon1 lat2 lon2 : R,
    calculate_distance lat1 lon1 lat2 lon2 =
      calculate_distance lat2 lon2 lat1 lon1 /\
    0 <= calculate_distance lat1 lon1 lat2 lon2 <= earth_radius * PI /\
    calculate_distance lat1 lon1 lat1 lon1 = 0 /\
    haversine_distance (lat1, lon1) (lat2, lon2) =
      calculate_distance lat1 lon1 lat2 lon2.
Proof.
  intros lat1 lon1 lat2 lon2.
  split; [apply calculate_distance_sym|].
  split; [apply calculate_distance_bounds|].
  split; [apply calculate_distance_same|].
  apply haversine_is_calculate_distance.
Qed.

Lemma degrees_0 : degrees 0 = 0.
Proof. unfold degrees. lra. Qed.

Lemma degrees_PI : degrees PI = 180.
Proof. unfold degrees. pose proof PI_neq0. field. assumption. Qed.

Lemma degrees_plus x y : degrees (x + y) = degrees x + degrees y.
Proof. unfold degrees. lra. Qed.

Lemma radians_degrees x : radians (degrees x) = x.
Proof. unfold degrees, radians. pose proof PI_neq0. field. assumption. Qed.

Lemma radians_minus x y : radians (x - y) = radians x - radians y.
Proof. unfold radians. lra. Qed.

Lemma radians_plus x y : radians (x + y) = radians x + radians y.
Proof. unfold radians. lra. Qed.

Lemma radians_90 : radians 90 = PI / 2.
Proof. unfold radians. lra. Qed.

(** The two arguments of [atan2] when both points lie on one meridian. *)
Lemma meridian_arguments lat1 lat2 lon :
  sin (radians (lon - lon)) * cos (radians lat2) = 0 /\
  cos (radians lat1) * sin (radians lat2) -
  sin (radians lat1) * cos (radians lat2) * cos (radians (lon - lon)) =
  sin (radians lat2 - radians lat1).
Proof.
  replace (lon - lon) with 0 by lra. rewrite radians_0, sin_0, cos_0.
  rewrite sin_minus. split; lra.
Qed.

(** X3: the bearing is always within [0, 360); to a point farther north
    on the same meridian it is 0, to a point farther south on the same
    meridian it is 180 (from pole to pole excepted). *)
Theorem bearing_along_a_meridian :
  forall lat1 lat2 lon : R,
    -90 <= lat1 <= 90 -> -90 <= lat2 <= 90 ->
    0 <= calculate_bearing lat1 lon lat2 lon < 360 /\
    (lat1 < lat2 -> calculate_bearing lat1 lon lat2 lon = 0) /\
    (lat2 < lat1 -> lat1 - lat2 < 180 ->
     calculate_bearing lat1 lon lat2 lon = 180).
Proof.
  intros lat1 lat2 lon H1 H2.
  split; [apply normalize_angle_range|].
  destruct (meridian_arguments lat1 lat2 lon) as [Hy Hx].
  pose proof PI_RGT_0 as Hpi.
  assert (Hd : radians lat2 - radians lat1 = (lat2 - lat1) * (PI / 180))
    by (unfold radians; lra).
  split.
  - intros Hlt. unfold calculate_bearing. rewrite Hy, Hx.
    rewrite atan2_0_l.
    + rewrite degrees_0. apply normalize_angle_id. lra.
    + apply sin_ge_0; rewrite Hd; nra.
  - intros Hlt Hfar. unfold calculate_bearing. rewrite Hy, Hx.
    assert (Hs : sin (radians lat2 - radians lat1) < 0).
    { apply sin_lt_0_var; rewrite Hd; nra. }
    unfold atan2.
    destruct (Rlt_dec 0 (sin (radians lat2 - radians lat1))); [lra|].
    destruct (Rlt_dec (sin (radians lat2 - radians lat1)) 0); [|lra].
    destruct (Rle_dec 0 0); [|lra].
    replace (0 / sin (radians lat2 - radians lat1)) with 0
      by (unfold Rdiv; lra).
    rewrite atan_0, Rplus_0_l, degrees_PI.
    apply normalize_angle_id. lra.
Qed.

(** X3 from the equator to latitude 10 on the Greenwich meridian. *)
Lemma bearing_along_a_meridian_example :
  0 <= calculate_bearing 0 0 10 0 < 360 /\
  (0 < 10 -> calculate_bearing 0 0 10 0 = 0) /\
  (10 < 0 -> 0 - 10 < 180 -> calculate_bearing 0 0 10 0 = 180).
Proof.
  apply (bearing_along_a_meridian 0 10 0); split; lra.
Defined.

(** [radians] is monotone. *)
Lemma radians_le x y : x <= y -> radians x <= radians y.
Proof. unfold radians. pose proof PI_RGT_0 as Hpi. intros H. nra. Qed.

(** A move along a meridian keeps the longitude: the second argument of
    [atan2] is the product of the cosines of the two latitudes. *)
Lemma meridian_abscissa phi delta :
  - (PI / 2) <= phi <= PI / 2 -> - (PI / 2) <= phi + delta <= PI / 2 ->
  0 <= cos delta - sin phi * sin (phi + delta).
Proof.
  intros Hp Hq.
  assert (Hd : cos delta = cos (phi + delta) * cos phi
                           + sin (phi + delta) * sin phi).
  { replace delta with ((phi + delta) - phi) at 1 by lra. apply cos_minus. }
  rewrite Hd.
  pose proof (cos_ge_0 phi) as H1. pose proof (cos_ge_0 (phi + delta)) as H2.
  assert (0 <= cos phi) by (apply H1; lra).
  assert (0 <= cos (phi + delta)) by (apply H2; lra).
  nra.
Qed.

(** A move due north between the latitudes -89 and 89. *)
Lemma move_north lat lon distance_km :
  -89 <= lat ->
  0 <= distance_km ->
  lat + degrees (distance_km / earth_radius) <= 89 ->
  move_along_bearing lat lon 0 distance_km =
    (lat + degrees (distance_km / earth_radius), lon).
Proof.
  intros Hlat Hd Hend.
  pose proof PI_RGT_0 as Hpi.
  set (delta := distance_km / earth_radius) in *.
  assert (Hdelta : 0 <= delta).
  { unfold delta, earth_radius. apply Rmult_le_pos; lra. }
  assert (Hdeg : 0 <= degrees delta).
  { unfold degrees. apply Rmult_le_pos; [exact Hdelta|].
    apply Rlt_le, Rdiv_lt_0_compat; lra. }
  assert (Hphi : - (PI / 2) <= radians lat <= PI / 2)
    by (apply radians_quarter; lra).
  assert (Hsum : radians lat + delta = radians (lat + degrees delta))
    by (rewrite radians_plus, radians_degrees; reflexivity).
  assert (Hq : - (PI / 2) <= radians lat + delta <= PI / 2).
  { split; [lra|]. rewrite Hsum.
    apply Rle_trans with (radians 90); [apply radians_le; lra|].
    rewrite radians_90. lra. }
  unfold move_along_bearing. fold delta.
  rewrite radians_0, sin_0, cos_0.
  replace (sin (radians lat) * cos delta + cos (radians lat) * sin delta * 1)
    with (sin (radians lat + delta)) by (rewrite sin_plus; lra).
  rewrite asin_sin by exact Hq.
  replace (0 * sin delta * cos (radians lat)) with 0 by lra.
  rewrite atan2_0_l by (apply meridian_abscissa; assumption).
  rewrite Rplus_0_r, degrees_plus, !degrees_radians. reflexivity.
Qed.

(** The distance between two points of one meridian is the arc between
    their latitudes. *)
Lemma meridian_distance lat1 lat2 lon :
  0 <= lat1 - lat2 <= 180 ->
  calculate_distance lat1 lon lat2 lon = earth_radius * radians (lat1 - lat2).
Proof.
  intros H. pose proof PI_RGT_0 as Hpi.
  unfold calculate_distance.
  replace (radians lon - radians lon) with 0 by lra.
  replace (0 / 2) with 0 by lra. rewrite sin_0.
  set (x := (radians lat1 - radians lat2) / 2).
  assert (Hx : 0 <= x <= PI / 2).
  { unfold x. rewrite <- radians_minus. unfold radians. split; nra. }
  replace ((radians lat2 - radians lat1) / 2) with (- x) by (unfold x; lra).
  rewrite sin_neg.
  replace ((- sin x) ^ 2 + cos (radians lat1) * cos (radians lat2) * 0 ^ 2)
    with (Rsqr (sin x)) by (unfold Rsqr; simpl; lra).
  rewrite sqrt_Rsqr by (apply sin_ge_0; lra).
  rewrite asin_sin by lra.
  unfold x. rewrite <- radians_minus. lra.
Qed.



(** X5: a move due east along the equator by less than a quarter of the
    circumference stays on the equator and adds the angle of the arc to
    the longitude, without wrapping it; the distance from the start to
    the point reached is the length of the move. *)
Theorem move_east_then_measure :
  forall lon distance_km : R,
    0 <= distance_km < earth_radius * (PI / 2) ->
    move_along_bearing 0 lon 90 distance_km =
      (0, lon + degrees (distance_km / earth_radius)) /\
    calculate_distance 0 lon 0 (lon + degrees (distance_km / earth_radius))
      = distance_km.
Proof.
  intros lon d Hd. pose proof PI_RGT_0 as Hpi.
  set (delta := d / earth_radius).
  assert (Hdelta : 0 <= delta < PI / 2).
  { unfold delta, earth_radius in *. split.
    - apply Rmult_le_pos; lra.
    - apply (Rmult_lt_reg_r 6371); [lra|]. unfold Rdiv.
      rewrite Rmult_assoc, Rinv_l by lra. lra. }
  split.
  - unfold move_along_bearing. fold delta.
    rewrite radians_0, radians_90, sin_0, cos_0, sin_PI2, cos_PI2.
    replace (0 * cos delta + 1 * sin delta * 0) with 0 by lra.
    rewrite asin_0, sin_0, degrees_0.
    replace (1 * sin delta * 1) with (sin delta) by lra.
    replace (cos delta - 0 * 0) with (cos delta) by lra.
    assert (Hc : 0 < cos delta) by (apply cos_gt_0; lra).
    unfold atan2. destruct (Rlt_dec 0 (cos delta)); [|lra].
    change (sin delta / cos delta) with (tan delta).
    rewrite atan_tan by lra.
    rewrite degrees_plus, degrees_radians. reflexivity.
  - unfold calculate_distance. fold delta.
    rewrite radians_plus, radians_degrees, radians_0, cos_0.
    replace ((0 - 0) / 2) with 0 by lra.
    replace ((radians lon + delta - radians lon) / 2) with (delta / 2) by lra.
    rewrite sin_0.
    replace (0 ^ 2 + 1 * 1 * sin (delta / 2) ^ 2) with (sin (delta / 2) ^ 2)
      by (simpl; lra).
    assert (Hs : 0 <= sin (delta / 2)) by (apply sin_ge_0; lra).
    rewrite sqrt_pow2 by exact Hs.
    rewrite asin_sin by lra.
    unfold delta, earth_radius. field.
Qed.

(** X5 for a move of 100 km that starts one degree short of the date
    line. *)
Lemma move_east_then_measure_example :
  move_along_bearing 0 179 90 100 =
    (0, 179 + degrees (100 / earth_radius)) /\
  calculate_distance 0 179 0 (179 + degrees (100 / earth_radius)) = 100.
Proof.
  apply (move_east_then_measure 179 100).
  unfold earth_radius. pose proof PI2_1. lra.
Defined.

End Geodesy.

(** ** Speed, fuel and the shape of one advance *)

Section Dynamics.

Import Sim SimSpec EngineSpec.

(** X6: a vehicle within the speed range changes its speed by at most
    20 km/h upwards and 30 km/h downwards in one update (the
    acceleration and deceleration rates times the update interval), and
    reaches a target speed that is within the range and within those
    limits exactly. *)
Theorem speed_change_is_limited :
  forall speed target_speed : R,
    0 <= speed <= max_speed ->
    speed - deceleration_rate * update_interval
      <= approach_speed speed target_speed
      <= speed + acceleration_rate * update_interval /\
    deceleration_rate * update_interval = 30 /\
    acceleration_rate * update_interval = 20 /\
    (0 <= target_speed <= max_speed ->
     -30 <= target_speed - speed <= 20 ->
     approach_speed speed target_speed = target_speed).
Proof.
  intros speed target Hs.
  unfold approach_speed, acceleration_rate, deceleration_rate,
    update_interval, max_speed, Rmax, Rmin, Rabs in *.
  repeat split; try lra.
  - destruct (Rcase_abs (target - speed)); rcases; lra.
  - destruct (Rcase_abs (target - speed)); rcases; lra.
  - intros Ht Hd. destruct (Rcase_abs (target - speed)); rcases; lra.
Qed.

(** X6 for a vehicle at 40 km/h. *)
Lemma speed_change_is_limited_example :
  40 - deceleration_rate * update_interval
    <= approach_speed 40 75
    <= 40 + acceleration_rate * update_interval /\
  deceleration_rate * update_interval = 30 /\
  acceleration_rate * update_interval = 20 /\
  (0 <= 75 <= max_speed -> -30 <= 75 - 40 <= 20 ->
   approach_speed 40 75 = 75).
Proof.
  apply (speed_change_is_limited 40 75). unfold max_speed. lra.
Defined.

(** Arrival at any waypoint of the route, in full. *)
Lemma arrival_cases v r i w :
  (0 <= i <= len (waypoints r) - 1)%Z ->
  simulation_speed_multiplier (sim w) <> 0 ->
  exists w', handle_waypoint_arrival v r i w = (Some (arrived v r i), w').
Proof.
  intros Hi Hm. unfold arrived.
  destruct (Z.eqb_spec i 0) as [H0|H0];
    [| destruct (Z.eqb_spec i (len (waypoints r) - 1)) as [Hl|Hl]].
  - unfold handle_waypoint_arrival. subst i. cbn [Z.eqb].
    eexists. reflexivity.
  - unfold handle_waypoint_arrival.
    destruct (Z.eqb_spec i 0); [contradiction|].
    destruct (Z.eqb_spec i (len (waypoints r) - 1)); [|contradiction].
    eexists. reflexivity.
  - rewrite interior_arrival by (assumption || lia). eexists. reflexivity.
Qed.

(** The advance of a vehicle that is not completed, in full: it is
    moved towards its target and, when that leaves it within 100 m of
    the target, it arrives there. *)
Lemma advance_cases v r w :
  status v <> COMPLETED ->
  waypoints r <> [] ->
  (0 <= current_order_index v)%Z ->
  simulation_speed_multiplier (sim w) <> 0 ->
  exists target ts w',
    py_nth (waypoints r) (target_index v r) = Some target /\
    let v1 := moved v target ts (simulation_speed_multiplier (sim w))
                (Osrm.now (osrm w)) in
    advance_vehicle v r w =
    (Some (if Rlt_dec (Geo.calculate_distance (latitude v1) (longitude v1)
                         (Osrm.latitude target) (Osrm.longitude target)) 0.1
           then arrived v1 r (target_index v r) else v1), w').
Proof.
  intros Hs Hne Hc Hm.
  pose proof (target_index_range v r Hne Hc) as Hr.
  destruct (py_nth_in_range (waypoints r) (target_index v r)) as [target Ht];
    [lia|].
  destruct (move_returns v target w) as (ts & w1 & Hmove & Hsim & _).
  exists target, ts. cbv zeta.
  rewrite (advance_unfold v r w target) by (assumption || lia).
  unfold bind. rewrite Hmove.
  destruct (Rlt_dec _ 0.1).
  - destruct (arrival_cases (moved v target ts
                 (simulation_speed_multiplier (sim w)) (Osrm.now (osrm w)))
                r (target_index v r) w1 Hr) as [w' Hw'];
      [rewrite Hsim; exact Hm|].
    exists w'. split; [exact Ht | exact Hw'].
  - exists w1. split; [exact Ht | reflexivity].
Qed.

Lemma arrived_fuel v r i : fuel_used (arrived v r i) = fuel_used v.
Proof.
  unfold arrived. destruct (i =? 0)%Z; [reflexivity|].
  destruct (i =? len (waypoints r) - 1)%Z; reflexivity.
Qed.

(** X7: one advance of a vehicle with non-negative cargo never lowers
    the fuel counter, and raises it by no more than the consumption of
    the longest step a tick allows: the maximum speed for one update
    interval, times the multiplier, at 0.08 l/km plus 0.02 l/km per
    tonne of cargo. *)
Theorem fuel_never_decreases :
  forall (v : VehicleState) (r : SimulationRoute) (w : World),
    status v <> COMPLETED ->
    waypoints r <> [] ->
    (0 <= current_order_index v)%Z ->
    0 < simulation_speed_multiplier (sim w) ->
    0 <= current_cargo v ->
    exists v' w',
      advance_vehicle v r w = (Some v', w') /\
      fuel_used v <= fuel_used v' /\
      fuel_used v' <=
        fuel_used v +
        max_speed * simulation_speed_multiplier (sim w) * update_interval
        / 3600 * (0.08 + current_cargo v / 1000 * 0.02).
Proof.
  intros v r w Hs Hne Hc Hm Hcargo.
  destruct (advance_cases v r w Hs Hne Hc) as (target & ts & w' & _ & Ha);
    [lra|].
  cbv zeta in Ha.
  set (v1 := moved v target ts _ _) in Ha.
  eexists _, w'. split; [exact Ha|].
  assert (Hf : fuel_used
                 (if Rlt_dec (Geo.calculate_distance (latitude v1)
                                (longitude v1) (Osrm.latitude target)
                                (Osrm.longitude target)) 0.1
                  then arrived v1 r (target_index v r) else v1)
               = fuel_used v1).
  { destruct (Rlt_dec _ _); [apply arrived_fuel | reflexivity]. }
  rewrite Hf. unfold v1, moved. cbn [fuel_used].
  pose proof (approach_speed_range (speed v) ts) as Hsp.
  set (s := approach_speed (speed v) ts) in *.
  set (m := simulation_speed_multiplier (sim w)) in *.
  unfold max_speed, update_interval in *.
  assert (Hrate : 0 <= 0.08 + current_cargo v / 1000 * 0.02) by lra.
  set (rate := 0.08 + current_cargo v / 1000 * 0.02) in *.
  assert (Hd : 0 <= s * m * 2 / 3600 <= 80 * m * 2 / 3600) by (split; nra).
  split; nra.
Qed.

(** X7 for an idle vehicle with 100 kg on board. *)
Lemma fuel_never_decreases_example :
  exists v' w',
    advance_vehicle loaded_vehicle far_stop_route quiet_world = (Some v', w') /\
    fuel_used loaded_vehicle <= fuel_used v' /\
    fuel_used v' <=
      fuel_used loaded_vehicle +
      max_speed * simulation_speed_multiplier (sim quiet_world)
      * update_interval / 3600
      * (0.08 + current_cargo loaded_vehicle / 1000 * 0.02).
Proof.
  apply (fuel_never_decreases loaded_vehicle far_stop_route quiet_world).
  - discriminate.
  - discriminate.
  - simpl. lia.
  - simpl. lra.
  - simpl. lra.
Defined.

(** A driving vehicle that reaches its last waypoint stops there: after
    the advance it is COMPLETED and its speed is 0, below the minimum
    speed.  At real-time speed the vehicle of [one_stop_route] sets off
    from the stop next door at 20 km/h, moves 11 m and is within 100 m
    of the depot. *)
Lemma driving_vehicle_stops_at_the_depot :
  exists v' w',
    advance_vehicle last_leg_vehicle one_stop_route real_time_world
      = (Some v', w') /\
    status last_leg_vehicle = MOVING /\
    status v' = COMPLETED /\ speed v' = 0 /\ speed v' < min_speed.
Proof.
  pose proof PI_RGT_0 as Hpi.
  assert (Hlat : -90 <= 0 <= 90) by lra.
  assert (Hs : approach_speed 0 (cruise_speed 0 1) = 20).
  { unfold approach_speed, cruise_speed, average_speed, min_speed, max_speed,
      acceleration_rate, deceleration_rate, update_interval, Rmax, Rmin, Rabs.
    destruct (Rcase_abs _); rcases; lra. }
  assert (Hd : 20 * 1 * update_interval / 3600 = 1 / 90)
    by (unfold update_interval; lra).
  assert (Harc : 0 <= Geo.degrees (1 / 90 / Geo.earth_radius) <= 1).
  { unfold Geo.degrees, Geo.earth_radius.
    pose proof PI2_3_2 as Hpi3.
    assert (H180 : 0 < 180 / PI <= 60).
    { split; [apply Rdiv_lt_0_compat; lra|].
      apply (Rmult_le_reg_r PI); [lra|].
      unfold Rdiv. rewrite Rmult_assoc, Rinv_l by lra. lra. }
    split; nra. }
  rewrite (advance_unfold last_leg_vehicle one_stop_route real_time_world
             (Osrm.mkRoutePoint 0 0 "depot" 0 5));
    [| discriminate | unfold target_index, len; simpl; lia | reflexivity].
  unfold bind.
  rewrite move_when_driving by discriminate.
  unfold moved.
  cbn [latitude longitude heading speed current_cargo last_leg_vehicle
       Osrm.latitude Osrm.longitude real_time_world quiet_world fresh_world
       draws drawn sim simulation_speed_multiplier].
  rewrite GeoFacts.calculate_bearing_same by exact Hlat.
  rewrite turn_stays_north, Hs, Hd.
  rewrite move_north by lra.
  cbn [fst snd latitude longitude].
  rewrite meridian_distance by lra.
  destruct (Rlt_dec _ 0.1) as [_ | Hfar].
  - eexists _, _. split; [reflexivity|].
    cbn [status speed with_speed]. unfold min_speed.
    repeat split; lra.
  - exfalso. apply Hfar.
    replace (0 + Geo.degrees (1 / 90 / Geo.earth_radius) - 0)
      with (Geo.degrees (1 / 90 / Geo.earth_radius)) by lra.
    rewrite radians_degrees. unfold Geo.earth_radius. lra.
Qed.

End Dynamics.

(** ** What a computation leaves alone, and what it maintains *)

Section Quiet.

Import Sim SimSpec EngineSpec.

Lemma quiet_ret {A} (a : A) : leaves engine_view (ret a).
Proof. intros w. reflexivity. Qed.

Lemma quiet_raise {A} : leaves engine_view (@raise World A).
Proof. intros w. reflexivity. Qed.

Lemma quiet_gets {A} (f : World -> A) : leaves engine_view (gets f).
Proof. intros w. reflexivity. Qed.

Lemma quiet_must {A} (o : option A) : leaves engine_view (must o).
Proof. destruct o; intros w; reflexivity. Qed.

Lemma quiet_must_fun {A} (f : World -> option A) :
  leaves engine_view (fun w => must (f w) w).
Proof. intros w. destruct (f w); reflexivity. Qed.

Lemma quiet_bind {A B} (m : M World A) (f : A -> M World B) :
  leaves engine_view m -> (forall a, leaves engine_view (f a)) ->
  leaves engine_view (bind m f).
Proof.
  intros Hm Hf w. unfold bind. specialize (Hm w).
  destruct (m w) as [[a|] w1]; cbn [snd] in *; [|assumption].
  rewrite Hf. assumption.
Qed.

Lemma quiet_modify (f : World -> World) :
  (forall w, engine_view (f w) = engine_view w) ->
  leaves engine_view (modify f).
Proof. intros H w. apply H. Qed.

Lemma quiet_lift {A} (m : M Osrm.World A) : leaves engine_view (lift m).
Proof. intros w. unfold lift. destruct (m (osrm w)). reflexivity. Qed.

Lemma quiet_random : leaves engine_view random_uniform.
Proof. intros w. reflexivity. Qed.

Ltac quiet_with known :=
  repeat first
    [ known
    | apply quiet_ret | apply quiet_raise | apply quiet_gets
    | apply quiet_must | apply quiet_must_fun | apply quiet_lift
    | apply quiet_random
    | apply quiet_modify; intros; reflexivity
    | apply quiet_bind; [| intros ?]
    | assumption
    | match goal with
      | |- leaves _ (if ?c then _ else _) => destruct c
      | |- leaves _ (match ?x with _ => _ end) => destruct x
      end ].

Lemma quiet_assign_status st v : leaves engine_view (assign_status st v).
Proof. unfold assign_status. quiet_with fail. Qed.

Lemma quiet_target_speed v : leaves engine_view (calculate_target_speed v).
Proof. unfold calculate_target_speed. quiet_with fail. Qed.

Lemma quiet_move v target :
  leaves engine_view (move_vehicle_towards_target v target).
Proof.
  unfold move_vehicle_towards_target, time.
  quiet_with ltac:(apply quiet_target_speed).
Qed.

Lemma quiet_arrival v r i :
  leaves engine_view (handle_waypoint_arrival v r i).
Proof.
  unfold handle_waypoint_arrival, sleep.
  quiet_with ltac:(first [ apply quiet_assign_status ]).
Qed.

(** The per-vehicle advance touches neither the simulator nor the
    snapshots: it works on the vehicle it was handed. *)
Lemma quiet_advance v r : leaves engine_view (advance_vehicle v r).
Proof.
  unfold advance_vehicle.
  quiet_with ltac:(first [ apply quiet_assign_status | apply quiet_move
                         | apply quiet_arrival ]).
Qed.

Lemma quiet_sleep d : leaves engine_view (sleep d).
Proof. unfold sleep. apply quiet_lift. Qed.

Lemma view_sim w w' : engine_view w' = engine_view w -> sim w' = sim w.
Proof. unfold engine_view. intros H. now inversion H. Qed.

Lemma view_snapshots w w' :
  engine_view w' = engine_view w -> snapshots w' = snapshots w.
Proof. unfold engine_view. intros H. now inversion H. Qed.

Lemma maintains_ret {A} I (a : A) : maintains I (ret a).
Proof. intros w H. exact H. Qed.

Lemma maintains_gets {A} I (f : World -> A) : maintains I (gets f).
Proof. intros w H. exact H. Qed.

Lemma maintains_must_fun {A} I (f : World -> option A) :
  maintains I (fun w => must (f w) w).
Proof. intros w H. destruct (f w); exact H. Qed.

Lemma maintains_bind {A B} I (m : M World A) (f : A -> M World B) :
  maintains I m -> (forall a, maintains I (f a)) -> maintains I (bind m f).
Proof.
  intros Hm Hf w Hw. unfold bind. specialize (Hm w Hw).
  destruct (m w) as [[a|] w1]; cbn [snd] in *; [|assumption].
  apply Hf. assumption.
Qed.

Lemma maintains_try {A} I (body handler : M World A) :
  maintains I body -> maintains I handler ->
  maintains I (try_except body handler).
Proof.
  intros Hb Hh w Hw. unfold try_except. specialize (Hb w Hw).
  destruct (body w) as [[a|] w1]; cbn [snd] in *; [assumption|].
  apply Hh. assumption.
Qed.

Lemma maintains_modify I (f : World -> World) :
  (forall w, I w -> I (f w)) -> maintains I (modify f).
Proof. intros H w Hw. apply H. exact Hw. Qed.

(** *** Dictionaries *)

Lemma dict_get_In {V} key (value : V) d :
  dict_get key d = Some value -> In (key, value) d.
Proof.
  induction d as [|[k v] rest IH]; cbn [dict_get]; [discriminate|].
  destruct (String.eqb_spec key k) as [->|Hne].
  - intros [= ->]. now left.
  - intros H. right. apply IH. exact H.
Qed.

Lemma dict_get_key {V} key (d : list (string * V)) :
  In key (map fst d) -> exists value, dict_get key d = Some value.
Proof.
  induction d as [|[k v] rest IH]; cbn [map fst In dict_get]; [tauto|].
  intros [->|H].
  - rewrite String.eqb_refl. eauto.
  - destruct (String.eqb key k); [eauto | apply IH; exact H].
Qed.

Lemma In_dict_get {V} key (value : V) d :
  NoDup (map fst d) -> In (key, value) d -> dict_get key d = Some value.
Proof.
  induction d as [|[k v] rest IH]; cbn [map fst In dict_get]; [tauto|].
  intros Hnd [H|H].
  - inversion H; subst. rewrite String.eqb_refl. reflexivity.
  - inversion Hnd as [|? ? Hnot Hnd']; subst.
    destruct (String.eqb_spec key k) as [->|Hne].
    + exfalso. apply Hnot. apply (in_map fst) in H. exact H.
    + apply IH; assumption.
Qed.

Lemma dict_set_keys {V} key (value value' : V) d :
  dict_get key d = Some value ->
  map fst (dict_set key value' d) = map fst d.
Proof.
  induction d as [|[k v] rest IH]; cbn [dict_get dict_set]; [discriminate|].
  destruct (String.eqb_spec key k) as [->|Hne]; [reflexivity|].
  intros H. cbn [map fst]. rewrite IH by exact H. reflexivity.
Qed.

Lemma dict_set_key_in {V} key key' (value : V) d :
  In key' (map fst (dict_set key value d)) ->
  key' = key \/ In key' (map fst d).
Proof.
  induction d as [|[k v] rest IH]; cbn [dict_set map fst In].
  - intros [H|[]]. now left.
  - destruct (String.eqb_spec key k) as [->|Hne]; cbn [map fst In].
    + intros [H|H]; [right; now left | right; now right].
    + intros [H|H]; [right; now left|].
      destruct (IH H) as [H'|H']; [now left | right; now right].
Qed.

Lemma dict_set_NoDup {V} key (value : V) d :
  NoDup (map fst d) -> NoDup (map fst (dict_set key value d)).
Proof.
  induction d as [|[k v] rest IH]; cbn [dict_set map fst].
  - intros _. constructor; [intros [] | constructor].
  - intros Hnd. inversion Hnd as [|? ? Hnot Hnd']; subst.
    destruct (String.eqb_spec key k) as [->|Hne]; cbn [map fst].
    + constructor; assumption.
    + constructor; [| apply IH; exact Hnd'].
      intros Hin. destruct (dict_set_key_in _ _ _ _ Hin) as [H|H];
        [congruence | contradiction].
Qed.

Lemma dict_set_registered {V} key key' (value : V) d :
  dict_get key' d <> None -> dict_get key' (dict_set key value d) <> None.
Proof.
  intros H. destruct (String.eqb_spec key' key) as [->|Hne].
  - rewrite dict_get_set_same. discriminate.
  - rewrite dict_get_set_other by exact Hne. exact H.
Qed.

End Quiet.

(** ** Properties kept by every operation of the engine *)

Section MaintainedByOps.

Import Sim SimSpec EngineSpec.

Variable I : World -> Prop.
Variable Good : RouteDict -> Prop.

Hypothesis I_view :
  forall w w', engine_view w' = engine_view w -> I w -> I w'.
Hypothesis I_update : forall vid, maintains I (update_vehicle_position vid).
Hypothesis I_completed :
  forall vid v w,
    I w -> dict_get vid (active_simulations (sim w)) = Some v ->
    I (set_vehicle vid (completed v) w).
Hypothesis I_running :
  forall running alive w, I w -> I (set_running running alive w).
Hypothesis I_broadcast : maintains I broadcast_all_vehicle_states.
Hypothesis I_initialize :
  forall route depot,
    Good route -> maintains I (initialize_vehicle_route route depot).
Hypothesis I_speed : forall m, maintains I (set_simulation_speed m).
Hypothesis I_callback : maintains I add_websocket_callback.

Lemma maintains_quiet {A} (m : M World A) :
  leaves engine_view m -> maintains I m.
Proof. intros H w Hw. apply (I_view w); [apply H | exact Hw]. Qed.

Lemma maintained_by_update_all ids : maintains I (update_all ids).
Proof.
  induction ids as [|vid rest IH]; cbn [update_all].
  - apply maintains_ret.
  - apply maintains_bind; [apply maintains_must_fun | intros v].
    apply maintains_bind.
    + destruct (status_eqb (status v) COMPLETED); [apply maintains_ret|].
      apply maintains_bind; [apply I_update | intros; apply maintains_ret].
    + intros n. apply maintains_bind; [exact IH | intros; apply maintains_ret].
Qed.

Lemma maintained_by_iteration : maintains I loop_iteration.
Proof.
  unfold loop_iteration, time.
  apply maintains_bind; [apply maintains_gets | intros t].
  apply maintains_bind; [apply maintains_gets | intros ids].
  apply maintains_bind; [apply maintained_by_update_all | intros n].
  apply maintains_bind; [apply I_broadcast | intros _].
  destruct (Nat.eqb n 0); [apply maintains_ret|].
  apply maintains_bind; [apply maintains_gets | intros t'].
  apply maintains_bind;
    [apply maintains_quiet, quiet_sleep | intros; apply maintains_ret].
Qed.

Lemma maintained_by_set_running running alive :
  maintains I (modify (set_running running alive)).
Proof. apply maintains_modify. intros w. apply I_running. Qed.

Lemma maintained_by_tick : maintains I tick.
Proof.
  unfold tick.
  apply maintains_bind; [apply maintains_gets | intros alive].
  destruct (negb alive); [apply maintains_ret|].
  apply maintains_bind; [apply maintains_gets | intros go].
  destruct (negb go); [apply maintained_by_set_running|].
  apply maintains_try; [| apply maintained_by_set_running].
  apply maintains_bind; [apply maintained_by_iteration | intros again].
  destruct again; [apply maintains_ret | apply maintained_by_set_running].
Qed.

Lemma maintained_by_complete_all ids : maintains I (complete_all ids).
Proof.
  induction ids as [|vid rest IH]; cbn [complete_all]; [apply maintains_ret|].
  intros w Hw. unfold bind at 1.
  destruct (dict_get vid (active_simulations (sim w))) as [v|] eqn:Ev;
    [| exact Hw].
  cbn [must ret]. unfold bind at 1.
  unfold assign_status, bind, modify, ret. cbn [fst snd].
  match goal with
  | |- I (snd (complete_all rest ?w1)) => apply (IH w1)
  end.
  apply (I_completed vid v); [| exact Ev].
  apply (I_view w); [reflexivity | exact Hw].
Qed.

Lemma maintained_by_stop : maintains I stop_simulation.
Proof.
  unfold stop_simulation.
  apply maintains_bind; [apply maintained_by_set_running | intros _].
  apply maintains_bind; [apply maintains_gets | intros ids].
  apply maintains_bind; [apply maintained_by_complete_all | intros _].
  apply I_broadcast.
Qed.

Lemma maintained_by_initialize_routes routes depot :
  Forall Good routes -> maintains I (initialize_routes routes depot).
Proof.
  induction 1 as [|route rest Hg _ IH]; cbn [initialize_routes].
  - apply maintains_ret.
  - apply maintains_bind; [apply I_initialize; exact Hg | intros _; exact IH].
Qed.

Lemma maintained_by_start routes depot :
  Forall Good routes -> maintains I (start_simulation routes depot).
Proof.
  intros Hg. unfold start_simulation.
  apply maintains_try; [| apply maintains_ret].
  apply maintains_bind; [apply maintained_by_stop | intros _].
  apply maintains_bind;
    [apply maintained_by_initialize_routes; exact Hg | intros _].
  apply maintains_bind; [apply maintained_by_set_running | intros _].
  apply maintains_ret.
Qed.

Lemma maintained_by_op op : good_op Good op -> maintains I (run_op op).
Proof.
  destruct op; cbn [run_op good_op]; intros Hg.
  - apply I_callback.
  - apply maintains_bind;
      [apply maintained_by_start; exact Hg | intros; apply maintains_ret].
  - apply maintained_by_stop.
  - apply maintained_by_tick.
  - apply I_speed.
  - apply maintains_ret.
Qed.

Lemma maintained_by_ops ops :
  Forall (good_op Good) ops -> forall w, I w -> I (run_ops ops w).
Proof.
  induction 1 as [|op rest Hg _ IH]; intros w Hw; cbn [run_ops]; [exact Hw|].
  apply IH. apply maintained_by_op; assumption.
Qed.

End MaintainedByOps.

(** ** Invariants of every vehicle and every snapshot *)

Section RunInvariant.

Import Sim SimSpec EngineSpec.

Variable P : VehicleState -> SimulationRoute -> Prop.
Variable Q : VehicleState -> Prop.
Variable Good : RouteDict -> Prop.

Hypothesis P_Q : forall v r, P v r -> Q v.
Hypothesis P_advance :
  forall v r w v' w',
    vehicle_ok v -> waypoints r <> [] ->
    1 <= simulation_speed_multiplier (sim w) <= 1000 ->
    P v r -> advance_vehicle v r w = (Some v', w') -> P v' r.
Hypothesis P_completed : forall v r, P v r -> P (completed v) r.
Hypothesis P_fresh :
  forall route depot g t,
    Good route -> P (fresh_vehicle route depot t) (fresh_route route depot g).

Lemma run_inv_view w w' :
  engine_view w' = engine_view w -> run_inv P Q w -> run_inv P Q w'.
Proof.
  intros Hv H. unfold run_inv.
  rewrite (view_sim _ _ Hv), (view_snapshots _ _ Hv). exact H.
Qed.

Lemma run_inv_set_vehicle vid v v' r w :
  run_inv P Q w ->
  dict_get vid (active_simulations (sim w)) = Some v ->
  dict_get vid (simulation_routes (sim w)) = Some r ->
  vehicle_ok v' -> P v' r ->
  run_inv P Q (set_vehicle vid v' w).
Proof.
  intros (Hok & Hnd & HP & HQ) Hv Hr Hv' HP'.
  split; [| split; [| split]].
  - apply engine_ok_set_vehicle; [exact Hok | exact Hv' |].
    destruct (proj2 Hok vid v Hv) as [_ (r' & Hr' & Hne)].
    exists r'. split; assumption.
  - cbn [set_vehicle set_sim sim active_simulations].
    rewrite (dict_set_keys vid v v') by exact Hv. exact Hnd.
  - intros vid0 v0 r0.
    cbn [set_vehicle set_sim sim active_simulations simulation_routes].
    destruct (String.eqb_spec vid0 vid) as [->|Hne].
    + rewrite dict_get_set_same. intros [= <-] Hr0.
      assert (r0 = r) by congruence. subst r0. exact HP'.
    + rewrite dict_get_set_other by exact Hne. apply HP.
  - exact HQ.
Qed.

Lemma run_inv_update vid :
  maintains (run_inv P Q) (update_vehicle_position vid).
Proof.
  intros w Hw. pose proof Hw as (Hok & Hnd & HP & HQ).
  unfold update_vehicle_position, bind.
  destruct (dict_get vid (active_simulations (sim w))) as [v|] eqn:Ev;
    [| exact Hw].
  cbn [must ret].
  destruct (dict_get vid (simulation_routes (sim w))) as [r|] eqn:Er;
    [| exact Hw].
  cbn [must ret].
  pose proof (quiet_advance v r w) as Hview.
  pose proof (preserves_update vid w Hok) as Hok'.
  unfold update_vehicle_position, bind in Hok'.
  rewrite Ev in Hok'. cbn [must ret] in Hok'.
  rewrite Er in Hok'. cbn [must ret] in Hok'.
  destruct (advance_vehicle v r w) as [[v'|] w'] eqn:Ha; cbn [snd] in *.
  - unfold modify in *. cbn [snd] in *.
    destruct (proj2 Hok vid v Ev) as [Hv (r' & Hr' & Hne)].
    assert (r' = r) by congruence. subst r'.
    assert (Hw' : run_inv P Q w') by (apply (run_inv_view w); assumption).
    assert (Hv' : vehicle_ok v').
    { destruct Hok' as [_ Hall]. apply (Hall vid v').
      cbn [set_vehicle set_sim sim active_simulations].
      apply dict_get_set_same. }
    apply (run_inv_set_vehicle vid v v' r); try assumption.
    + rewrite (view_sim _ _ Hview). exact Ev.
    + rewrite (view_sim _ _ Hview). exact Er.
    + apply (P_advance v r w v' w'); try assumption.
      * apply Hok.
      * apply (HP vid); assumption.
  - apply (run_inv_view w); assumption.
Qed.

Lemma run_inv_completed vid v w :
  run_inv P Q w -> dict_get vid (active_simulations (sim w)) = Some v ->
  run_inv P Q (set_vehicle vid (completed v) w).
Proof.
  intros Hw Hv. pose proof Hw as (Hok & Hnd & HP & HQ).
  destruct (proj2 Hok vid v Hv) as [Hvok (r & Hr & Hne)].
  apply (run_inv_set_vehicle vid v (completed v) r); try assumption.
  apply P_completed. apply (HP vid); assumption.
Qed.

Lemma run_inv_running running alive w :
  run_inv P Q w -> run_inv P Q (set_running running alive w).
Proof. intros H. exact H. Qed.

Lemma run_inv_broadcast :
  maintains (run_inv P Q) broadcast_all_vehicle_states.
Proof.
  intros w Hw. pose proof Hw as (Hok & Hnd & HP & HQ).
  unfold broadcast_all_vehicle_states.
  destruct (Nat.eqb _ _); [exact Hw|]. cbn [snd].
  split; [exact Hok | split; [exact Hnd | split; [exact HP|]]].
  cbn [snapshots]. apply Forall_app. split; [exact HQ|].
  constructor; [| constructor]. cbn [snap_vehicles].
  apply Forall_forall. intros v Hin.
  apply in_map_iff in Hin. destruct Hin as ([vid v0] & Heq & Hin).
  cbn [snd] in Heq. subst v0.
  pose proof (In_dict_get vid v _ Hnd Hin) as Hget.
  destruct (proj2 Hok vid v Hget) as [_ (r & Hr & _)].
  apply (P_Q v r). apply (HP vid); assumption.
Qed.

Lemma run_inv_initialize route depot :
  Good route ->
  maintains (run_inv P Q) (initialize_vehicle_route route depot).
Proof.
  intros Hg w Hw. pose proof Hw as (Hok & Hnd & HP & HQ).
  pose proof (preserves_initialize route depot w Hok) as Hok'.
  destruct (initialize_vehicle_route_spec route depot w)
    as (g & o & _ & Hinit).
  rewrite Hinit in Hok' |- *. cbn [snd] in *.
  split; [exact Hok' | split; [| split]].
  - cbn [installed sim active_simulations]. apply dict_set_NoDup. exact Hnd.
  - intros vid v r. cbn [installed sim active_simulations simulation_routes].
    destruct (String.eqb_spec vid (rd_vehicle_id route)) as [->|Hne].
    + rewrite !dict_get_set_same. intros [= <-] [= <-].
      apply (P_fresh route depot g (Osrm.now o)). exact Hg.
    + rewrite dict_get_set_other by exact Hne.
      intros Hv. rewrite dict_get_set_other by exact Hne. apply HP. exact Hv.
  - exact HQ.
Qed.

Lemma run_inv_speed m : maintains (run_inv P Q) (set_simulation_speed m).
Proof.
  intros w (Hok & Hnd & HP & HQ).
  split; [| split; [exact Hnd | split; [exact HP | exact HQ]]].
  split; [apply clamp_range | apply Hok].
Qed.

Lemma run_inv_callback : maintains (run_inv P Q) add_websocket_callback.
Proof. intros w H. exact H. Qed.

Lemma run_inv_fresh t0 network randoms :
  run_inv P Q (fresh_world t0 network randoms).
Proof.
  split; [| split; [constructor | split; [| constructor]]].
  - split; [cbn; split; lra | intros vid v H; discriminate H].
  - intros vid v r H. discriminate H.
Qed.

(** After every sequence of operations on a fresh process whose routes
    are all good, the invariant holds. *)
Lemma run_inv_ops ops t0 network randoms :
  Forall (good_op Good) ops ->
  run_inv P Q (run_ops ops (fresh_world t0 network randoms)).
Proof.
  intros Hg.
  apply (maintained_by_ops (run_inv P Q) Good); try assumption.
  - exact run_inv_view.
  - exact run_inv_update.
  - exact run_inv_completed.
  - exact run_inv_running.
  - exact run_inv_broadcast.
  - exact run_inv_initialize.
  - exact run_inv_speed.
  - exact run_inv_callback.
  - apply run_inv_fresh.
Qed.

End RunInvariant.

(** ** What holds of every vehicle in every reachable state *)

Section Reachable.

Import Sim SimSpec EngineSpec.

(** What an advance that returns has made of the vehicle. *)
Lemma advance_result v r w v' w' :
  vehicle_ok v -> waypoints r <> [] ->
  simulation_speed_multiplier (sim w) <> 0 ->
  advance_vehicle v r w = (Some v', w') ->
  (status v = COMPLETED /\ v' = v) \/
  (status v <> COMPLETED /\
   exists target ts,
     let v1 := moved v target ts (simulation_speed_multiplier (sim w))
                 (Osrm.now (osrm w)) in
     v' = v1 \/ v' = arrived v1 r (target_index v r)).
Proof.
  intros (_ & _ & Hc) Hne Hm Ha.
  destruct (status v) eqn:Es.
  5: { left. split; [reflexivity|].
       rewrite advance_completed in Ha by exact Es. congruence. }
  all: right; split; [discriminate|];
    destruct (advance_cases v r w) as (target & ts & w1 & _ & Hadv);
      [rewrite Es; discriminate | exact Hne | exact Hc | exact Hm |];
    cbv zeta in Hadv; rewrite Hadv in Ha; exists target, ts; cbv zeta;
    destruct (Rlt_dec _ _); inversion Ha; auto.
Qed.


Lemma multiplier_nonzero w :
  1 <= simulation_speed_multiplier (sim w) <= 1000 ->
  simulation_speed_multiplier (sim w) <> 0.
Proof. intros H E. rewrite E in H. lra. Qed.

(** *** Statuses *)


Lemma any_routes_are_good ops : Forall (good_op (fun _ => True)) ops.
Proof.
  induction ops as [|op rest IH]; constructor; [| exact IH].
  destruct op; cbn; auto. induction routes; constructor; auto.
Qed.


(** *** The statuses ever assigned *)























(** *** Progress *)

Lemma share_bounds a b :
  (0 <= a <= b)%Z -> (0 < b)%Z -> 0 <= IZR a / IZR b * 100 <= 100.
Proof.
  intros Ha Hb.
  assert (H0 : 0 <= IZR a) by (apply IZR_le; lia).
  assert (H1 : IZR a <= IZR b) by (apply IZR_le; lia).
  assert (H2 : 0 < IZR b) by (apply IZR_lt; lia).
  assert (H3 : 0 < / IZR b) by (apply Rinv_0_lt_compat; exact H2).
  assert (H4 : IZR b * / IZR b = 1) by (apply Rinv_r; lra).
  unfold Rdiv. split; nra.
Qed.

Lemma share_monotone a b c :
  (a <= b)%Z -> (0 < c)%Z -> IZR a / IZR c * 100 <= IZR b / IZR c * 100.
Proof.
  intros Hab Hc.
  assert (H1 : IZR a <= IZR b) by (apply IZR_le; lia).
  assert (H2 : 0 < IZR c) by (apply IZR_lt; lia).
  assert (H3 : 0 < / IZR c) by (apply Rinv_0_lt_compat; exact H2).
  unfold Rdiv. nra.
Qed.

Lemma legs_done_target v r :
  legs_done v r -> status v <> COMPLETED ->
  target_index v r = (current_order_index v + 1)%Z.
Proof.
  intros (Hl & Hc & Hn & _) Hs. destruct (Hn Hs) as [Hle _].
  unfold target_index. lia.
Qed.

Lemma legs_done_arrived v r ts target m t :
  legs_done v r -> status v <> COMPLETED ->
  legs_done (arrived (moved v target ts m t) r (target_index v r)) r.
Proof.
  intros Hd Hs. rewrite (legs_done_target v r Hd Hs).
  destruct Hd as (Hl & Hc & Hn & _). destruct (Hn Hs) as [Hle Hp].
  unfold arrived.
  destruct (Z.eqb_spec (current_order_index v + 1) 0); [lia|].
  destruct (Z.eqb_spec (current_order_index v + 1) (len (waypoints r) - 1)).
  - split; [exact Hl | split; [exact Hc | split]].
    + intros H. exfalso. apply H. reflexivity.
    + reflexivity.
  - split; [exact Hl | split; [cbn; lia | split]].
    + intros _. cbn. split; [lia | reflexivity].
    + discriminate.
Qed.

Lemma legs_done_advance v r w v' w' :
  vehicle_ok v -> waypoints r <> [] ->
  1 <= simulation_speed_multiplier (sim w) <= 1000 ->
  legs_done v r -> advance_vehicle v r w = (Some v', w') ->
  legs_done v' r.
Proof.
  intros Hv Hne Hm Hd Ha.
  destruct (advance_result v r w v' w' Hv Hne (multiplier_nonzero w Hm) Ha)
    as [[_ ->] | [Hs (target & ts & [-> | ->])]].
  - exact Hd.
  - exact Hd.
  - apply legs_done_arrived; assumption.
Qed.

Lemma route_waypoints_len route depot :
  len (route_waypoints route depot) = (len (rd_orders route) + 2)%Z.
Proof.
  unfold route_waypoints, len. rewrite !length_app, length_map.
  cbn [List.length]. lia.
Qed.

Lemma legs_done_fresh route depot g t :
  legs_done (fresh_vehicle route depot t) (fresh_route route depot g).
Proof.
  unfold legs_done. cbn [fresh_vehicle fresh_route waypoints status progress
    current_order_index].
  rewrite route_waypoints_len.
  assert (H : (0 <= len (rd_orders route))%Z) by (unfold len; lia).
  split; [lia | split; [lia | split]].
  - intros _. split; [lia|]. unfold Rdiv. lra.
  - discriminate.
Qed.

Lemma legs_done_bounds v r :
  legs_done v r -> 0 <= progress v <= 100.
Proof.
  intros (Hl & Hc & Hn & Hd).
  destruct (status v) eqn:Es.
  5: { rewrite Hd by reflexivity. lra. }
  all: destruct Hn as [Hle ->]; [discriminate|];
    apply share_bounds; lia.
Qed.

(** X9: after every sequence of operations on a fresh process, the
    progress of every vehicle is within [0, 100]; it is 100 for a
    completed vehicle, and for any other vehicle it is the index of the
    waypoint last reached over the number of legs of its route, times
    100, with that index at most the last stop. *)
Theorem progress_is_the_share_of_legs_done :
  forall (ops : list Op) (t0 : R) (network : Osrm.Network)
         (randoms : nat -> R) (vid : string) (v : VehicleState)
         (r : SimulationRoute),
    let w := run_ops ops (fresh_world t0 network randoms) in
    dict_get vid (active_simulations (sim w)) = Some v ->
    dict_get vid (simulation_routes (sim w)) = Some r ->
    0 <= progress v <= 100 /\
    (status v = COMPLETED -> progress v = 100) /\
    (status v <> COMPLETED ->
     (0 <= current_order_index v <= len (waypoints r) - 2)%Z /\
     progress v =
       IZR (current_order_index v) / IZR (len (waypoints r) - 1) * 100).
Proof.
  intros ops t0 network randoms vid v r w Hv Hr.
  assert (H : run_inv legs_done (fun _ => True) w).
  { apply (run_inv_ops _ _ (fun _ => True)).
    - auto.
    - exact legs_done_advance.
    - intros v0 r0 (Hl & Hc & _ & _).
      split; [exact Hl | split; [exact Hc | split]].
      + intros H. exfalso. apply H. reflexivity.
      + reflexivity.
    - intros route depot g t _. apply legs_done_fresh.
    - apply any_routes_are_good. }
  destruct H as (_ & _ & HP & _). specialize (HP vid v r Hv Hr).
  split; [apply (legs_done_bounds v r HP)|].
  destruct HP as (Hl & Hc & Hn & Hd).
  split; [exact Hd|]. intros Hs. destruct (Hn Hs) as [Hle Hp].
  split; [lia | exact Hp].
Qed.

(** X9 right after a start with one order. *)
Lemma progress_is_the_share_of_legs_done_example :
  let v := fresh_vehicle far_route equator_depot 0 in
  let r := fresh_route far_route equator_depot
             (Osrm.create_fallback_geometry
                (route_waypoints far_route equator_depot)) in
  0 <= progress v <= 100 /\
  (status v = COMPLETED -> progress v = 100) /\
  (status v <> COMPLETED ->
   (0 <= current_order_index v <= len (waypoints r) - 2)%Z /\
   progress v =
     IZR (current_order_index v) / IZR (len (waypoints r) - 1) * 100).
Proof.
  apply (progress_is_the_share_of_legs_done
           [Start [far_route] equator_depot] 0 Osrm.silent_network
           (fun _ => 1) "V1"); reflexivity.
Defined.

(** *** Cargo *)

Lemma fold_left_Rplus ws : forall a,
  fold_left Rplus ws a = a + fold_right Rplus 0 ws.
Proof.
  induction ws as [|x rest IH]; intros a; cbn [fold_left fold_right]; [lra|].
  rewrite IH. lra.
Qed.

Lemma fold_left_Rminus ws : forall a,
  fold_left Rminus ws a = a - fold_right Rplus 0 ws.
Proof.
  induction ws as [|x rest IH]; intros a; cbn [fold_left fold_right]; [lra|].
  rewrite IH. lra.
Qed.

Lemma sum_nonneg ws :
  Forall (fun x => 0 <= x) ws -> 0 <= fold_right Rplus 0 ws.
Proof.
  induction 1 as [|x rest Hx _ IH]; cbn [fold_right]; lra.
Qed.

Lemma sum_app xs ys :
  fold_right Rplus 0 (xs ++ ys) =
  fold_right Rplus 0 xs + fold_right Rplus 0 ys.
Proof.
  induction xs as [|x rest IH]; cbn [app fold_right]; [lra|].
  rewrite IH. lra.
Qed.

Lemma weights_nonneg orders :
  Forall (fun o => 0 <= order_weight o) orders ->
  Forall (fun x => 0 <= x) (map order_weight orders).
Proof.
  induction 1; cbn [map]; constructor; assumption.
Qed.

(** What is left is the sum of the weights of the orders not yet
    delivered. *)
Lemma undelivered_rest orders k :
  undelivered orders k =
  fold_right Rplus 0 (map order_weight (skipn (Z.to_nat k) orders)).
Proof.
  unfold undelivered, py_sum. rewrite fold_left_Rminus, fold_left_Rplus.
  rewrite <- (firstn_skipn (Z.to_nat k) orders) at 1.
  rewrite map_app, sum_app. lra.
Qed.

Lemma undelivered_bounds orders k :
  Forall (fun o => 0 <= order_weight o) orders ->
  0 <= undelivered orders k <= py_sum (map order_weight orders).
Proof.
  intros Hw. rewrite undelivered_rest. unfold py_sum.
  rewrite fold_left_Rplus.
  rewrite <- (firstn_skipn (Z.to_nat k) orders) at 3.
  rewrite map_app, sum_app.
  assert (H12 : Forall (fun o => 0 <= order_weight o)
                  (firstn (Z.to_nat k) orders ++ skipn (Z.to_nat k) orders))
    by (rewrite firstn_skipn; exact Hw).
  apply Forall_app in H12. destruct H12 as [H1 H2].
  apply weights_nonneg, sum_nonneg in H1.
  apply weights_nonneg, sum_nonneg in H2. lra.
Qed.

Lemma firstn_snoc {A} (l : list A) : forall n x,
  nth_error l n = Some x -> firstn (S n) l = firstn n l ++ [x].
Proof.
  induction l as [|y rest IH]; intros [|n] x; cbn [nth_error];
    try discriminate.
  - intros [= ->]. reflexivity.
  - intros H. cbn [firstn app]. f_equal.
    change (firstn (S n) rest = firstn n rest ++ [x]). apply IH. exact H.
Qed.

Lemma undelivered_step orders k o :
  (0 <= k)%Z -> py_nth orders k = Some o ->
  undelivered orders (k + 1) = undelivered orders k - order_weight o.
Proof.
  intros Hk Ho. rewrite py_nth_nonneg in Ho by exact Hk.
  unfold undelivered.
  replace (Z.to_nat (k + 1)) with (S (Z.to_nat k)) by lia.
  rewrite (firstn_snoc _ _ _ Ho), map_app, fold_left_app. reflexivity.
Qed.

Lemma cargo_accounted_arrived v r ts target m t :
  cargo_accounted v r -> status v <> COMPLETED ->
  cargo_accounted (arrived (moved v target ts m t) r (target_index v r)) r.
Proof.
  intros (Hl & Hw & Hc & Hb & Hn) Hs. destruct (Hn Hs) as [Hle Hcargo].
  assert (Ht : target_index v r = (current_order_index v + 1)%Z).
  { unfold target_index. lia. }
  rewrite Ht. unfold arrived.
  destruct (Z.eqb_spec (current_order_index v + 1) 0); [lia|].
  destruct (Z.eqb_spec (current_order_index v + 1) (len (waypoints r) - 1)).
  - split; [exact Hl | split; [exact Hw | split; [exact Hc | split]]].
    + cbn [current_cargo with_speed with_cargo]. lra.
    + intros H. exfalso. apply H. reflexivity.
  - destruct (py_nth_in_range (orders r) (current_order_index v)) as [o Ho];
      [lia|].
    assert (Hd : current_cargo
                   (delivered (moved v target ts m t) r
                      (current_order_index v + 1)) =
                 undelivered (orders r) (current_order_index v + 1)).
    { unfold delivered. cbn [current_cargo].
      replace (current_order_index v + 1 - 1)%Z with (current_order_index v)
        by lia.
      rewrite Ho. cbn [moved current_cargo].
      rewrite (undelivered_step _ _ _ Hc Ho), Hcargo. reflexivity. }
    split; [exact Hl | split; [exact Hw | split; [cbn; lia | split]]].
    + rewrite Hd. apply undelivered_bounds. exact Hw.
    + intros _. split; [cbn; lia | exact Hd].
Qed.

Lemma cargo_accounted_advance v r w v' w' :
  vehicle_ok v -> waypoints r <> [] ->
  1 <= simulation_speed_multiplier (sim w) <= 1000 ->
  cargo_accounted v r -> advance_vehicle v r w = (Some v', w') ->
  cargo_accounted v' r.
Proof.
  intros Hv Hne Hm Hd Ha.
  destruct (advance_result v r w v' w' Hv Hne (multiplier_nonzero w Hm) Ha)
    as [[_ ->] | [Hs (target & ts & [-> | ->])]].
  - exact Hd.
  - exact Hd.
  - apply cargo_accounted_arrived; assumption.
Qed.

Lemma cargo_accounted_fresh route depot g t :
  nonnegative_weights route ->
  cargo_accounted (fresh_vehicle route depot t) (fresh_route route depot g).
Proof.
  intros Hw. unfold cargo_accounted.
  cbn [fresh_vehicle fresh_route waypoints orders status current_cargo
       current_order_index].
  pose proof (undelivered_bounds (rd_orders route) 0 Hw) as Hb.
  assert (H0 : undelivered (rd_orders route) 0 =
               py_sum (map order_weight (rd_orders route))) by reflexivity.
  rewrite H0 in Hb.
  split; [apply route_waypoints_len | split; [exact Hw | split; [lia|]]].
  split; [lra|]. intros _. split; [unfold len; lia | reflexivity].
Qed.

(** X10: when no order of any started route has a negative weight,
    then after every sequence of operations on a fresh process the
    cargo of every vehicle lies between zero and the total weight of its
    orders, and the cargo of a vehicle that is not completed is that
    total less the weights of the orders up to the waypoint last
    reached. *)
Theorem cargo_accounts_for_undelivered_orders :
  forall (ops : list Op) (t0 : R) (network : Osrm.Network)
         (randoms : nat -> R) (vid : string) (v : VehicleState)
         (r : SimulationRoute),
    Forall (good_op nonnegative_weights) ops ->
    let w := run_ops ops (fresh_world t0 network randoms) in
    dict_get vid (active_simulations (sim w)) = Some v ->
    dict_get vid (simulation_routes (sim w)) = Some r ->
    0 <= current_cargo v <= py_sum (map order_weight (orders r)) /\
    (status v <> COMPLETED ->
     current_cargo v = undelivered (orders r) (current_order_index v) /\
     (0 <= current_order_index v <= len (orders r))%Z).
Proof.
  intros ops t0 network randoms vid v r Hg w Hv Hr.
  assert (H : run_inv cargo_accounted (fun _ => True) w).
  { apply (run_inv_ops _ _ nonnegative_weights).
    - auto.
    - exact cargo_accounted_advance.
    - intros v0 r0 (Hl & Hw & Hc & Hb & _).
      split; [exact Hl | split; [exact Hw | split; [exact Hc | split]]].
      + exact Hb.
      + intros H. exfalso. apply H. reflexivity.
    - intros route depot g t. apply cargo_accounted_fresh.
    - exact Hg. }
  destruct H as (_ & _ & HP & _).
  destruct (HP vid v r Hv Hr) as (Hl & Hw & Hc & Hb & Hn).
  split; [exact Hb|]. intros Hs. destruct (Hn Hs) as [Hle Hcargo].
  split; [exact Hcargo | lia].
Qed.

(** X10 right after a start with two orders of 120 kg and 80 kg. *)
Lemma cargo_accounts_for_undelivered_orders_example :
  let v := fresh_vehicle two_orders istanbul 0 in
  let r := fresh_route two_orders istanbul
             (Osrm.create_fallback_geometry
                (route_waypoints two_orders istanbul)) in
  0 <= current_cargo v <= py_sum (map order_weight (orders r)) /\
  (status v <> COMPLETED ->
   current_cargo v = undelivered (orders r) (current_order_index v) /\
   (0 <= current_order_index v <= len (orders r))%Z).
Proof.
  apply (cargo_accounts_for_undelivered_orders
           [Start [two_orders] istanbul] 0 Osrm.silent_network
           (fun _ => 1) "TR-01").
  - constructor; [| constructor]. cbn.
    constructor; [| constructor]. unfold nonnegative_weights. cbn.
    repeat constructor; cbn; lra.
  - reflexivity.
  - reflexivity.
Defined.

End Reachable.

(** ** Stopping, restarting and the end of the loop *)

Section StopAndStart.

Import Sim SimSpec EngineSpec.

Lemma registered_key {V} vid (d : list (string * V)) :
  In vid (map fst d) -> dict_get vid d <> None.
Proof.
  intros H. destruct (dict_get_key vid d H) as [v Hv]. congruence.
Qed.

(** The loop of [stop_simulation] over identifiers that are all
    registered: every one of them ends up completed, nothing else
    changes. *)
Lemma complete_all_spec ids : forall w,
  (forall id, In id ids -> dict_get id (active_simulations (sim w)) <> None) ->
  exists d' log',
    complete_all ids w =
    (Some tt,
     mkWorld (osrm w) (draws w) (drawn w)
       (mkSimulator d' (simulation_routes (sim w))
          (websocket_callbacks (sim w))
          (simulation_speed_multiplier (sim w))
          (is_running (sim w)) (task_alive (sim w)))
       (snapshots w) log') /\
    map fst d' = map fst (active_simulations (sim w)) /\
    (forall vid v,
       dict_get vid (active_simulations (sim w)) = Some v ->
       (In vid ids -> dict_get vid d' = Some (completed v)) /\
       (~ In vid ids -> dict_get vid d' = Some v)).
Proof.
  induction ids as [|vid rest IH]; intros w Hreg.
  - exists (active_simulations (sim w)), (status_log w).
    split; [destruct w as [o dr n [] sn lg]; reflexivity|].
    split; [reflexivity|]. intros vid v Hv. split; [intros [] | auto].
  - destruct (dict_get vid (active_simulations (sim w))) as [v0|] eqn:Ev;
      [| exfalso; apply (Hreg vid); [now left | exact Ev]].
    cbn [complete_all]. unfold bind at 1. rewrite Ev. cbn [must ret].
    unfold bind at 1. unfold assign_status, bind, modify, ret.
    cbn [fst snd].
    match goal with
    | |- context [complete_all rest ?w1] => set (w1' := w1)
    end.
    destruct (IH w1') as (d' & log' & Hrun & Hkeys & Hget).
    { intros id Hin. cbn [w1' set_vehicle set_sim sim active_simulations].
      apply dict_set_registered. apply Hreg. now right. }
    exists d', log'. split; [exact Hrun|]. split.
    + rewrite Hkeys. cbn [w1' set_vehicle set_sim sim active_simulations].
      apply (dict_set_keys vid v0). exact Ev.
    + intros vid1 v1 Hv1.
      destruct (String.eqb_spec vid1 vid) as [->|Hne].
      * assert (v1 = v0) by congruence. subst v1.
        assert (H1 : dict_get vid (active_simulations (sim w1')) =
                     Some (completed v0)).
        { cbn [w1' set_vehicle set_sim sim active_simulations].
          apply dict_get_set_same. }
        destruct (Hget vid (completed v0) H1) as [Hin Hout].
        split; [| intros Hn; exfalso; apply Hn; now left].
        intros _. destruct (in_dec string_dec vid rest) as [Hr|Hr].
        -- rewrite (Hin Hr). reflexivity.
        -- exact (Hout Hr).
      * assert (H1 : dict_get vid1 (active_simulations (sim w1')) = Some v1).
        { cbn [w1' set_vehicle set_sim sim active_simulations].
          rewrite dict_get_set_other by exact Hne. exact Hv1. }
        destruct (Hget vid1 v1 H1) as [Hin Hout]. split.
        -- intros [Heq|Hr]; [congruence | exact (Hin Hr)].
        -- intros Hn. apply Hout. intros Hr. apply Hn. now right.
Qed.

(** [stop_simulation] in full. *)
Lemma stop_spec w :
  exists d' log' snaps',
    stop_simulation w =
    (Some tt,
     mkWorld (osrm w) (draws w) (drawn w)
       (mkSimulator d' (simulation_routes (sim w))
          (websocket_callbacks (sim w))
          (simulation_speed_multiplier (sim w)) false false)
       snaps' log') /\
    map fst d' = map fst (active_simulations (sim w)) /\
    (forall vid v,
       dict_get vid (active_simulations (sim w)) = Some v ->
       dict_get vid d' = Some (completed v)) /\
    snaps' =
      (if Nat.eqb (websocket_callbacks (sim w)) 0 then snapshots w
       else snapshots w ++
            [mkSnapshot (Osrm.now (osrm w)) (map snd d') false]).
Proof.
  unfold stop_simulation. unfold bind at 1. unfold modify at 1.
  cbv beta iota. unfold bind at 1. unfold gets at 1. cbv beta iota.
  set (w0 := set_running false false w).
  destruct (complete_all_spec (map fst (active_simulations (sim w0))) w0)
    as (d' & log' & Hrun & Hkeys & Hget).
  { intros id Hin. apply registered_key. exact Hin. }
  unfold bind. rewrite Hrun. cbv beta iota.
  exists d', log',
    (if Nat.eqb (websocket_callbacks (sim w)) 0 then snapshots w
     else snapshots w ++
          [mkSnapshot (Osrm.now (osrm w)) (map snd d') false]).
  split; [| split; [exact Hkeys | split; [| reflexivity]]].
  - unfold broadcast_all_vehicle_states.
    cbn [sim websocket_callbacks w0 set_running set_sim osrm draws drawn
         snapshots status_log active_simulations is_running].
    destruct (Nat.eqb (websocket_callbacks (sim w)) 0) eqn:E; reflexivity.
  - intros vid v Hv. apply (Hget vid v Hv).
    change (active_simulations (sim w0)) with (active_simulations (sim w)).
    pose proof (dict_get_In _ _ _ Hv) as Hin.
    apply (in_map fst) in Hin. exact Hin.
Qed.

(** X11: [stop_simulation] never raises.  It leaves every registered
    vehicle COMPLETED with progress 100 and otherwise as it was (cargo,
    speed, position and fuel are not reset), keeps the registry and the
    routes, ends the loop task, and hands out exactly one snapshot, with
    the flag [simulation_active] off, when a callback is registered and
    none otherwise.  A tick after the stop does nothing. *)
Theorem stop_completes_every_vehicle :
  forall w : World,
    exists w',
      stop_simulation w = (Some tt, w') /\
      is_running (sim w') = false /\ task_alive (sim w') = false /\
      map fst (active_simulations (sim w')) =
        map fst (active_simulations (sim w)) /\
      simulation_routes (sim w') = simulation_routes (sim w) /\
      (forall vid v,
         dict_get vid (active_simulations (sim w)) = Some v ->
         exists v',
           dict_get vid (active_simulations (sim w')) = Some v' /\
           v' = with_progress 100 (with_status COMPLETED v) /\
           status v' = COMPLETED /\ progress v' = 100 /\
           current_cargo v' = current_cargo v /\ speed v' = speed v) /\
      snapshots w' =
        (if Nat.eqb (websocket_callbacks (sim w)) 0 then snapshots w
         else snapshots w ++
              [mkSnapshot (Osrm.now (osrm w))
                 (map snd (active_simulations (sim w'))) false]) /\
      tick w' = (Some tt, w').
Proof.
  intros w.
  destruct (stop_spec w) as (d' & log' & snaps' & Hrun & Hkeys & Hget & Hs).
  eexists. split; [exact Hrun|].
  cbn [sim is_running task_alive active_simulations simulation_routes
       snapshots].
  split; [reflexivity | split; [reflexivity | split; [exact Hkeys|]]].
  split; [reflexivity | split; [| split; [exact Hs | reflexivity]]].
  intros vid v Hv. exists (completed v).
  split; [exact (Hget vid v Hv) | repeat split].
Qed.

(** When every vehicle is completed no vehicle is updated. *)
Lemma update_all_completed ids : forall w,
  (forall id, In id ids ->
     exists v, dict_get id (active_simulations (sim w)) = Some v /\
               status v = COMPLETED) ->
  update_all ids w = (Some 0%nat, w).
Proof.
  induction ids as [|vid rest IH]; intros w H; [reflexivity|].
  destruct (H vid) as (v & Hv & Hs); [now left|].
  cbn [update_all]. unfold bind at 1. rewrite Hv. cbn [must ret].
  rewrite Hs. cbn [status_eqb]. unfold bind. unfold ret at 1.
  cbv beta iota. rewrite IH by (intros id Hin; apply H; now right).
  reflexivity.
Qed.

Lemma all_completed_ids w :
  (forall vid v, In (vid, v) (active_simulations (sim w)) ->
                 status v = COMPLETED) ->
  forall id, In id (map fst (active_simulations (sim w))) ->
    exists v, dict_get id (active_simulations (sim w)) = Some v /\
              status v = COMPLETED.
Proof.
  intros H id Hin. destruct (dict_get_key id _ Hin) as [v Hv].
  exists v. split; [exact Hv|]. apply (H id). apply dict_get_In. exact Hv.
Qed.

(** The tick that finds every vehicle completed: one broadcast, then
    the loop ends. *)
Lemma tick_all_completed w :
  task_alive (sim w) = true -> is_running (sim w) = true ->
  active_simulations (sim w) <> [] ->
  (forall vid v, In (vid, v) (active_simulations (sim w)) ->
                 status v = COMPLETED) ->
  tick w = (Some tt, loop_ended (snd (broadcast_all_vehicle_states w))).
Proof.
  intros Ha Hr Hne Hall. unfold tick, bind, gets. cbv beta iota.
  rewrite Ha. cbn [negb]. rewrite Hr.
  assert (Hlen : Nat.eqb (List.length (active_simulations (sim w))) 0 = false).
  { destruct (active_simulations (sim w)); [contradiction | reflexivity]. }
  rewrite Hlen. cbn [negb andb]. unfold try_except, loop_iteration, bind,
    time, gets. cbv beta iota.
  rewrite (update_all_completed _ w (all_completed_ids w Hall)).
  pose proof (broadcast_returns w) as Hb.
  destruct (broadcast_all_vehicle_states w) as [[[]|] w2];
    cbn [fst] in Hb; [|discriminate].
  cbn [Nat.eqb snd]. reflexivity.
Qed.

(** X12: the tick that finds the loop running and every registered
    vehicle completed updates no vehicle, hands out one last snapshot
    (if a callback is registered), does not sleep, and ends the loop:
    [is_running] is off and the task is over, so that any further tick
    does nothing. *)
Theorem loop_ends_when_all_completed :
  forall w : World,
    task_alive (sim w) = true -> is_running (sim w) = true ->
    active_simulations (sim w) <> [] ->
    (forall vid v, In (vid, v) (active_simulations (sim w)) ->
                   status v = COMPLETED) ->
    let w' := snd (tick w) in
    tick w = (Some tt, loop_ended (snd (broadcast_all_vehicle_states w))) /\
    active_simulations (sim w') = active_simulations (sim w) /\
    osrm w' = osrm w /\
    is_running (sim w') = false /\ task_alive (sim w') = false /\
    snapshots w' =
      (if Nat.eqb (websocket_callbacks (sim w)) 0 then snapshots w
       else snapshots w ++
            [mkSnapshot (Osrm.now (osrm w))
               (map snd (active_simulations (sim w))) true]) /\
    tick w' = (Some tt, w').
Proof.
  intros w Ha Hr Hne Hall w'. subst w'.
  rewrite (tick_all_completed w Ha Hr Hne Hall). cbn [snd].
  split; [reflexivity|].
  unfold broadcast_all_vehicle_states, loop_ended. rewrite Hr.
  destruct (Nat.eqb (websocket_callbacks (sim w)) 0); cbn [snd];
    repeat split.
Qed.

(** X12 on the world that the first tick of a route without orders
    leaves. *)
Lemma loop_ends_when_all_completed_example :
  let w' := snd (tick finished_world) in
  tick finished_world =
    (Some tt, loop_ended (snd (broadcast_all_vehicle_states finished_world)))
  /\ active_simulations (sim w') = active_simulations (sim finished_world)
  /\ osrm w' = osrm finished_world
  /\ is_running (sim w') = false /\ task_alive (sim w') = false
  /\ snapshots w' =
      (if Nat.eqb (websocket_callbacks (sim finished_world)) 0
       then snapshots finished_world
       else snapshots finished_world ++
            [mkSnapshot (Osrm.now (osrm finished_world))
               (map snd (active_simulations (sim finished_world))) true])
  /\ tick w' = (Some tt, w').
Proof.
  apply (loop_ends_when_all_completed finished_world).
  - reflexivity.
  - reflexivity.
  - discriminate.
  - intros vid v [H|[]]. inversion H. reflexivity.
Defined.

End StopAndStart.

(** ** Runs that start again, start empty, or have nothing to deliver *)

Section Restart.

Import Sim SimSpec EngineSpec.

(** [_initialize_vehicle_route] for a list of routes: it never raises
    and touches no vehicle other than those of the routes. *)
Lemma initialize_routes_spec routes depot : forall w,
  exists w',
    initialize_routes routes depot w = (Some tt, w') /\
    forall vid, ~ In vid (map rd_vehicle_id routes) ->
      dict_get vid (active_simulations (sim w')) =
      dict_get vid (active_simulations (sim w)).
Proof.
  induction routes as [|route rest IH]; intros w.
  - exists w. split; [reflexivity | auto].
  - destruct (initialize_vehicle_route_spec route depot w)
      as (g & o & _ & Hinit).
    destruct (IH (installed route depot g o w)) as (w' & Hrun & Hget).
    exists w'. split.
    + cbn [initialize_routes]. unfold bind. rewrite Hinit. exact Hrun.
    + intros vid Hn. rewrite Hget by (intros H; apply Hn; now right).
      cbn [installed sim active_simulations].
      apply dict_get_set_other. intros ->. apply Hn. now left.
Qed.

(** X13: [start_simulation] does not clear the registry.  A vehicle of
    an earlier run that the new routes do not mention is still
    registered after the start, COMPLETED with progress 100 and
    otherwise as the earlier run left it; the start itself returns
    [True] with the loop running. *)
Theorem start_keeps_vehicles_of_earlier_runs :
  forall (routes : list RouteDict) (depot : Osrm.RoutePoint) (w : World)
         (vid : string) (v : VehicleState),
    dict_get vid (active_simulations (sim w)) = Some v ->
    ~ In vid (map rd_vehicle_id routes) ->
    exists w',
      start_simulation routes depot w = (Some true, w') /\
      dict_get vid (active_simulations (sim w')) =
        Some (with_progress 100 (with_status COMPLETED v)) /\
      is_running (sim w') = true /\ task_alive (sim w') = true.
Proof.
  intros routes depot w vid v Hv Hn.
  destruct (stop_spec w) as (d' & log' & snaps' & Hstop & _ & Hget & _).
  set (ws := mkWorld _ _ _ _ _ _) in Hstop.
  destruct (initialize_routes_spec routes depot ws) as (wi & Hinit & Hother).
  exists (set_running true true wi). split; [| split; [| split]].
  - unfold start_simulation, try_except, bind. rewrite Hstop, Hinit.
    reflexivity.
  - cbn [set_running set_sim sim active_simulations].
    rewrite (Hother vid Hn). exact (Hget vid v Hv).
  - reflexivity.
  - reflexivity.
Qed.

(** X13 for a second start that does not mention the vehicle of the
    first. *)
Lemma start_keeps_vehicles_of_earlier_runs_example :
  exists w',
    start_simulation [route_b] equator_depot started_world = (Some true, w') /\
    dict_get "V1" (active_simulations (sim w')) =
      Some (with_progress 100
              (with_status COMPLETED
                 (fresh_vehicle far_route equator_depot 0))) /\
    is_running (sim w') = true /\ task_alive (sim w') = true.
Proof.
  apply (start_keeps_vehicles_of_earlier_runs [route_b] equator_depot
           started_world "V1" (fresh_vehicle far_route equator_depot 0)).
  - reflexivity.
  - cbn. intros [H|[]]. discriminate H.
Defined.

Lemma stop_empty w :
  active_simulations (sim w) = [] ->
  stop_simulation w =
  (Some tt, snd (broadcast_all_vehicle_states (set_running false false w))).
Proof.
  intros He. unfold stop_simulation, bind, modify, gets. cbv beta iota.
  change (active_simulations (sim (set_running false false w)))
    with (active_simulations (sim w)).
  rewrite He. cbn [map complete_all]. unfold ret at 1. cbv beta iota.
  pose proof (broadcast_returns (set_running false false w)) as Hb.
  destruct (broadcast_all_vehicle_states _) as [[[]|] w2]; cbn [fst] in Hb;
    [reflexivity | discriminate].
Qed.

Lemma start_empty depot w :
  active_simulations (sim w) = [] ->
  start_simulation [] depot w =
  (Some true,
   set_running true true
     (snd (broadcast_all_vehicle_states (set_running false false w)))).
Proof.
  intros He. unfold start_simulation, try_except, bind.
  rewrite (stop_empty w He). reflexivity.
Qed.

(** The tick of a loop that has no vehicle. *)
Lemma tick_empty w :
  task_alive (sim w) = true -> active_simulations (sim w) = [] ->
  tick w = (Some tt, loop_ended w).
Proof.
  intros Ha He. unfold tick, bind, gets. cbv beta iota.
  rewrite Ha. cbn [negb]. cbv beta iota. rewrite He.
  cbn [negb List.length Nat.eqb]. rewrite andb_false_r. reflexivity.
Qed.

(** X14: a start without routes on an engine without vehicles returns
    [True] and sets [is_running], yet the status report says that the
    engine is idle; the first tick of the loop finds nothing to do and
    ends the loop without a broadcast and without a sleep. *)
Theorem start_without_routes_ends_at_once :
  forall (round : R -> Z -> R) (depot : Osrm.RoutePoint) (w : World),
    active_simulations (sim w) = [] ->
    let w' := snd (start_simulation [] depot w) in
    fst (start_simulation [] depot w) = Some true /\
    is_running (sim w') = true /\
    Status.get_simulation_status round (sim w') = Status.NoVehicles /\
    tick w' = (Some tt, loop_ended w') /\
    snapshots (snd (tick w')) = snapshots w' /\
    osrm (snd (tick w')) = osrm w' /\
    is_running (sim (snd (tick w'))) = false.
Proof.
  intros round depot w He w'. subst w'.
  rewrite (start_empty depot w He). cbn [fst snd].
  set (wb := snd (broadcast_all_vehicle_states (set_running false false w))).
  assert (Hsim : sim wb = sim (set_running false false w))
    by apply (keeps_broadcast (fun s => s)).
  assert (Hact : active_simulations (sim (set_running true true wb)) = []).
  { cbn [set_running set_sim sim active_simulations]. rewrite Hsim. exact He. }
  split; [reflexivity | split; [reflexivity | split]].
  - unfold Status.get_simulation_status. rewrite Hact. reflexivity.
  - rewrite (tick_empty (set_running true true wb) eq_refl Hact).
    repeat split.
Qed.

(** X14 on a fresh process. *)
Lemma start_without_routes_example :
  let w' := snd (start_simulation [] equator_depot quiet_world) in
  fst (start_simulation [] equator_depot quiet_world) = Some true /\
  is_running (sim w') = true /\
  Status.get_simulation_status no_rounding (sim w') = Status.NoVehicles /\
  tick w' = (Some tt, loop_ended w') /\
  snapshots (snd (tick w')) = snapshots w' /\
  osrm (snd (tick w')) = osrm w' /\
  is_running (sim (snd (tick w'))) = false.
Proof.
  apply (start_without_routes_ends_at_once no_rounding equator_depot
           quiet_world).
  reflexivity.
Defined.

(** X15: a route without orders completes in the first tick.  The
    vehicle stands at the depot, which is also its only target, so it
    arrives at once: after the first tick it is COMPLETED with progress
    100, speed 0 and no fuel used, still at the depot, and COMPLETED is
    the only status ever assigned to it; the second tick finds every
    vehicle completed and ends the loop. *)
Theorem route_without_orders_completes_at_once :
  forall (vid : string) (depot : Osrm.RoutePoint) (t0 : R)
         (network : Osrm.Network) (randoms : nat -> R),
    -90 <= Osrm.latitude depot <= 90 ->
    let w1 := run_ops [Start [empty_route vid] depot; Tick]
                (fresh_world t0 network randoms) in
    let w2 := run_ops [Tick] w1 in
    (exists v,
       active_simulations (sim w1) = [(vid, v)] /\
       status v = COMPLETED /\ progress v = 100 /\ speed v = 0 /\
       fuel_used v = 0 /\ current_cargo v = 0 /\
       latitude v = Osrm.latitude depot /\
       longitude v = Osrm.longitude depot) /\
    status_log w1 = [(vid, COMPLETED)] /\
    is_running (sim w1) = true /\
    active_simulations (sim w2) = active_simulations (sim w1) /\
    is_running (sim w2) = false /\ task_alive (sim w2) = false.
Proof.
  intros vid depot t0 network randoms Hlat.
  cbn [run_ops run_op]. rewrite snd_bind_ret.
  destruct (start_single (empty_route vid) depot t0 network randoms)
    as (g & o & Hnow & ->).
  set (w1 := set_running true true _).
  set (v0 := mkVehicleState vid (Osrm.latitude depot) (Osrm.longitude depot)
               0 0 IDLE
               (py_sum (map order_weight (rd_orders (empty_route vid))))
               0 0 0 (Osrm.now o)).
  set (r0 := mkSimulationRoute vid (route_waypoints (empty_route vid) depot)
               (Some g) 0 0 (rd_orders (empty_route vid))).
  assert (Hv0 : dict_get vid (active_simulations (sim w1)) = Some v0).
  { cbn. rewrite String.eqb_refl. reflexivity. }
  assert (Hr0 : dict_get vid (simulation_routes (sim w1)) = Some r0).
  { cbn. rewrite String.eqb_refl. reflexivity. }
  assert (Ha : exists vf wf,
             advance_vehicle v0 r0 w1 = (Some vf, wf) /\
             status vf = COMPLETED /\ progress vf = 100 /\ speed vf = 0 /\
             fuel_used vf = 0 /\ current_cargo vf = 0 /\
             latitude vf = Osrm.latitude depot /\
             longitude vf = Osrm.longitude depot /\
             sim wf = sim w1 /\ status_log wf = [(vid, COMPLETED)]).
  { rewrite (advance_waiting_near v0 r0 w1 depot);
      try reflexivity; try exact Hlat.
    - eexists _, _. split; [reflexivity|]. repeat split.
    - cbn [latitude longitude v0]. rewrite GeoFacts.calculate_distance_same.
      lra. }
  destruct Ha as (vf & wf & Ha & Hs & Hp & Hsp & Hf & Hc & Hla & Hlo & Hsim
                  & Hlog).
  assert (Hu : update_vehicle_position vid w1 = (Some tt, set_vehicle vid vf wf)).
  { apply (update_vehicle_position_spec vid v0 r0); assumption. }
  assert (Hall : update_all (map fst (active_simulations (sim w1))) w1
                 = (Some 1%nat, set_vehicle vid vf wf)).
  { apply (update_all_cons_active vid [] w1 v0 (set_vehicle vid vf wf) 0
             (set_vehicle vid vf wf));
      [exact Hv0 | discriminate | exact Hu | reflexivity]. }
  rewrite (tick_active w1 0 (set_vehicle vid vf wf));
    [| reflexivity | reflexivity | discriminate | exact Hall].
  cbn [snd].
  set (w2 := after_iteration (Osrm.now (osrm w1)) (set_vehicle vid vf wf)).
  assert (Hsim2 : sim w2 =
                  mkSimulator [(vid, vf)] (simulation_routes (sim w1))
                    (websocket_callbacks (sim w1))
                    (simulation_speed_multiplier (sim w1)) true true).
  { unfold w2. rewrite after_iteration_sim.
    cbn [set_vehicle set_sim sim]. rewrite Hsim.
    cbn. rewrite String.eqb_refl. reflexivity. }
  split; [| split; [| split]].
  - exists vf. rewrite Hsim2. repeat split; assumption.
  - unfold w2. rewrite after_iteration_status_log. exact Hlog.
  - rewrite Hsim2. reflexivity.
  - rewrite (tick_all_completed w2).
    + cbn [snd loop_ended set_running set_sim sim active_simulations
           is_running task_alive].
      rewrite (keeps_broadcast (fun s => s) w2). repeat split.
    + rewrite Hsim2. reflexivity.
    + rewrite Hsim2. reflexivity.
    + rewrite Hsim2. discriminate.
    + rewrite Hsim2. intros vid' v' [H|[]]. inversion H; subst. exact Hs.
Qed.

(** X15 for a depot on the equator. *)
Lemma route_without_orders_example :
  let w1 := run_ops [Start [empty_route "V1"] equator_depot; Tick]
              quiet_world in
  let w2 := run_ops [Tick] w1 in
  (exists v,
     active_simulations (sim w1) = [("V1"%string, v)] /\
     status v = COMPLETED /\ progress v = 100 /\ speed v = 0 /\
     fuel_used v = 0 /\ current_cargo v = 0 /\
     latitude v = Osrm.latitude equator_depot /\
     longitude v = Osrm.longitude equator_depot) /\
  status_log w1 = [("V1"%string, COMPLETED)] /\
  is_running (sim w1) = true /\
  active_simulations (sim w2) = active_simulations (sim w1) /\
  is_running (sim w2) = false /\ task_alive (sim w2) = false.
Proof.
  apply (route_without_orders_completes_at_once "V1" equator_depot 0
           Osrm.silent_network (fun _ => 1)).
  cbn. split; lra.
Defined.

End Restart.

(** ** The loop never raises; the status report *)

Section Robustness.

Import Sim SimSpec EngineSpec.

(** In a state within the engine's bounds, the update of a registered
    vehicle returns and keeps the bounds and the registry's keys. *)
Lemma update_returns vid w :
  engine_ok (sim w) ->
  dict_get vid (active_simulations (sim w)) <> None ->
  exists w',
    update_vehicle_position vid w = (Some tt, w') /\
    engine_ok (sim w') /\
    forall id, dict_get id (active_simulations (sim w)) <> None ->
               dict_get id (active_simulations (sim w')) <> None.
Proof.
  intros Hok Hreg.
  destruct (dict_get vid (active_simulations (sim w))) as [v|] eqn:Ev;
    [| contradiction].
  destruct (proj2 Hok vid v Ev) as [Hv (r & Er & Hne)].
  assert (Hadv : exists v' w', advance_vehicle v r w = (Some v', w')).
  { destruct (status v) eqn:Es.
    5: { exists v, w. apply advance_completed. exact Es. }
    all: destruct (advance_bounds v r w) as (v' & w' & Ha & _);
      [ rewrite Es; discriminate | exact Hne | apply Hv
      | destruct Hok as [Hm _]; lra | exists v', w'; exact Ha ]. }
  destruct Hadv as (v' & w' & Ha).
  pose proof (update_vehicle_position_spec vid v r w v' w' Ev Er Ha) as Hu.
  exists (set_vehicle vid v' w'). split; [exact Hu | split].
  - pose proof (preserves_update vid w Hok) as H. rewrite Hu in H. exact H.
  - intros id Hid. cbn [set_vehicle set_sim sim active_simulations].
    apply dict_set_registered.
    pose proof (advance_keeps_simulator v r w) as Hs. rewrite Ha in Hs.
    cbn [snd] in Hs. rewrite Hs. exact Hid.
Qed.

Lemma update_all_returns ids : forall w,
  engine_ok (sim w) ->
  (forall id, In id ids ->
              dict_get id (active_simulations (sim w)) <> None) ->
  exists n w', update_all ids w = (Some n, w').
Proof.
  induction ids as [|vid rest IH]; intros w Hok Hreg.
  - exists 0%nat, w. reflexivity.
  - destruct (dict_get vid (active_simulations (sim w))) as [v|] eqn:Ev;
      [| exfalso; apply (Hreg vid); [now left | exact Ev]].
    cbn [update_all]. unfold bind at 1. rewrite Ev. cbn [must ret].
    destruct (status_eqb (status v) COMPLETED).
    + destruct (IH w Hok) as (n & w' & Hrun);
        [intros id Hin; apply Hreg; now right|].
      unfold bind. unfold ret at 1. cbv beta iota. rewrite Hrun.
      eexists _, _. reflexivity.
    + destruct (update_returns vid w Hok) as (w1 & Hu & Hok1 & Hkeys);
        [rewrite Ev; discriminate|].
      destruct (IH w1 Hok1) as (n & w' & Hrun);
        [intros id Hin; apply Hkeys, Hreg; now right|].
      unfold bind. rewrite Hu. unfold ret at 1. cbv beta iota. rewrite Hrun.
      eexists _, _. reflexivity.
Qed.

Lemma loop_iteration_returns w :
  engine_ok (sim w) -> exists again w', loop_iteration w = (Some again, w').
Proof.
  intros Hok.
  destruct (update_all_returns (map fst (active_simulations (sim w))) w Hok)
    as (n & w1 & Hrun); [intros id Hin; apply registered_key; exact Hin|].
  unfold loop_iteration, bind, time, gets. rewrite Hrun.
  pose proof (broadcast_returns w1) as Hb.
  destruct (broadcast_all_vehicle_states w1) as [[[]|] w2];
    cbn [fst] in Hb; [|discriminate].
  destruct (Nat.eqb n 0); [eexists _, _; reflexivity|].
  unfold sleep, lift, Osrm.sleep, modify, ret. eexists _, _. reflexivity.
Qed.

(** X16: no tick ever raises.  After every sequence of operations on a
    fresh process, the update of every registered vehicle returns (no
    missing route, no index out of range, no division by zero), and so
    does the whole pass of the loop over the vehicles: the loop's
    handler for exceptions is never entered. *)
Theorem tick_loop_never_raises :
  forall (ops : list Op) (t0 : R) (network : Osrm.Network)
         (randoms : nat -> R),
    let w := run_ops ops (fresh_world t0 network randoms) in
    (forall vid v,
       dict_get vid (active_simulations (sim w)) = Some v ->
       exists w', update_vehicle_position vid w = (Some tt, w')) /\
    (exists again w', loop_iteration w = (Some again, w')).
Proof.
  intros ops t0 network randoms w.
  pose proof (engine_invariant ops t0 network randoms) as Hok.
  fold w in Hok. split.
  - intros vid v Hv.
    destruct (update_returns vid w Hok) as (w' & Hu & _);
      [rewrite Hv; discriminate | exists w'; exact Hu].
  - apply loop_iteration_returns. exact Hok.
Qed.

(** *** The status report *)

Lemma dict_set_length {V} key (value : V) d :
  (List.length d <= List.length (dict_set key value d))%nat.
Proof.
  induction d as [|[k v] rest IH]; cbn [dict_set List.length]; [lia|].
  destruct (String.eqb key k); cbn [List.length]; lia.
Qed.

Lemma fleet_update n vid :
  maintains (fun w => (n <= List.length (active_simulations (sim w)))%nat)
            (update_vehicle_position vid).
Proof.
  intros w Hw. unfold update_vehicle_position, bind.
  destruct (dict_get vid (active_simulations (sim w))) as [v|]; [| exact Hw].
  cbn [must ret].
  destruct (dict_get vid (simulation_routes (sim w))) as [r|]; [| exact Hw].
  cbn [must ret].
  pose proof (advance_keeps_simulator v r w) as Hs.
  destruct (advance_vehicle v r w) as [[v'|] w']; cbn [snd] in *.
  - unfold modify. cbn [snd set_vehicle set_sim sim active_simulations].
    rewrite Hs. pose proof (dict_set_length vid v' (active_simulations (sim w))).
    lia.
  - rewrite Hs. exact Hw.
Qed.

(** The number of registered vehicles never goes down. *)
Lemma fleet_never_shrinks ops w :
  (List.length (active_simulations (sim w)) <=
   List.length (active_simulations (sim (run_ops ops w))))%nat.
Proof.
  set (n := List.length (active_simulations (sim w))).
  apply (maintained_by_ops
           (fun w => (n <= List.length (active_simulations (sim w)))%nat)
           (fun _ => True)).
  - intros w1 w2 Hv. rewrite (view_sim _ _ Hv). auto.
  - apply fleet_update.
  - intros vid v w1 Hw _. cbn [set_vehicle set_sim sim active_simulations].
    pose proof (dict_set_length vid (completed v)
                  (active_simulations (sim w1))). lia.
  - intros running alive w1 Hw. exact Hw.
  - intros w1 Hw. rewrite (keeps_broadcast (fun s => s)). exact Hw.
  - intros route depot _ w1 Hw.
    destruct (initialize_vehicle_route_spec route depot w1)
      as (g & o & _ & Hinit).
    rewrite Hinit. cbn [snd installed sim active_simulations].
    match goal with
    | |- (_ <= List.length (dict_set ?k ?v ?d))%nat =>
        pose proof (dict_set_length k v d)
    end. lia.
  - intros m w1 Hw. exact Hw.
  - intros w1 Hw. exact Hw.
  - apply any_routes_are_good.
  - unfold n. lia.
Qed.

(** X17: once a vehicle is registered, the status report never says
    "idle" again, whatever operations follow (stops and completed runs
    included): the number of registered vehicles never goes down, the
    report gives the statistics, with the running flag, the number of
    vehicles and, at most that many, the number of vehicles that are
    neither idle nor completed. *)
Theorem status_report_is_never_idle_again :
  forall (round : R -> Z -> R) (ops : list Op) (w : World),
    active_simulations (sim w) <> [] ->
    let s := sim (run_ops ops w) in
    (List.length (active_simulations (sim w)) <=
     List.length (active_simulations s))%nat /\
    exists active average fuel,
      Status.get_simulation_status round s =
        Status.Statistics (is_running s)
          (List.length (active_simulations s)) active average fuel
          (simulation_speed_multiplier s) update_interval /\
      (active <= List.length (active_simulations s))%nat.
Proof.
  intros round ops w Hne s.
  pose proof (fleet_never_shrinks ops w) as Hlen. fold s in Hlen.
  split; [exact Hlen|].
  unfold Status.get_simulation_status.
  destruct (active_simulations s) as [|kv rest] eqn:Es.
  - exfalso. destruct (active_simulations (sim w)); [contradiction|].
    cbn [List.length] in Hlen. lia.
  - eexists _, _, _. split.
    + rewrite length_map. reflexivity.
    + rewrite <- (length_map snd (kv :: rest)). apply filter_length_le.
Qed.

(** X17 from the world right after a start. *)
Lemma status_report_is_never_idle_again_example :
  let s := sim (run_ops [Stop; Tick] started_world) in
  (List.length (active_simulations (sim started_world)) <=
   List.length (active_simulations s))%nat /\
  exists active average fuel,
    Status.get_simulation_status no_rounding s =
      Status.Statistics (is_running s)
        (List.length (active_simulations s)) active average fuel
        (simulation_speed_multiplier s) update_interval /\
    (active <= List.length (active_simulations s))%nat.
Proof.
  apply (status_report_is_never_idle_again no_rounding [Stop; Tick]
           started_world).
  discriminate.
Defined.

End Robustness.

(** ** The retry loop of the distance matrix *)

Section MatrixFetch.

Import Osrm OsrmSpec Matrix MatrixSpec.

(** One attempt, by what the request is answered. *)
Lemma table_attempt_spec coords attempt w :
  table_attempt coords attempt w =
  match outcome (table_answer w coords) with
  | Delivered m => (Some (Some m), asked coords w)
  | Raised => (Some None, backed_off attempt (asked coords w))
  | Declined => (Some None, switched attempt (asked coords w))
  end.
Proof.
  unfold table_attempt, try_except, bind, http_get, table_answer, outcome,
    backed_off, switched, asked.
  destruct (table_reply _ _ _ _) as [|status body].
  - destruct (attempt <? max_retries - 1)%nat; reflexivity.
  - destruct (status =? 200)%Z.
    + destruct body as [data|]; cbn [must ret raise].
      * destruct (is_ok (tbl_code data)).
        -- destruct (tbl_distances data); cbn [must ret raise].
           ++ reflexivity.
           ++ destruct (attempt <? max_retries - 1)%nat; reflexivity.
        -- unfold gets, ret, modify. cbn [client].
           destruct (_ && _)%bool; reflexivity.
      * destruct (attempt <? max_retries - 1)%nat; reflexivity.
    + unfold gets, ret, modify. cbn [client].
      destruct (_ && _)%bool; reflexivity.
Qed.

Lemma backoff_delay attempt :
  Rmax 0 (retry_delay * (INR attempt + 1)) = retry_delay * (INR attempt + 1)
  /\ 0 <= retry_delay * (INR attempt + 1).
Proof.
  pose proof (pos_INR attempt) as Hp. unfold retry_delay.
  split; [apply Rmax_right|]; lra.
Qed.

(** What one attempt does to the world, whatever the answer. *)
Lemma table_attempt_step coords attempt w :
  exists r w1,
    table_attempt coords attempt w = (Some r, w1) /\
    sent w1 = S (sent w) /\
    now w <= now w1 <=
      now w + (if (attempt <? max_retries - 1)%nat
               then retry_delay * (INR attempt + 1) else 0) /\
    net w1 = net w /\
    primary_url (client w1) = primary_url (client w) /\
    fallback_url (client w1) = fallback_url (client w) /\
    route_cache (client w1) = route_cache (client w) /\
    (current_url (client w1) = current_url (client w) \/
     current_url (client w1) = fallback_url (client w)) /\
    exists rest,
      events w1 =
      events w ++ Requested Table (current_url (client w)) coords :: rest.
Proof.
  rewrite table_attempt_spec.
  destruct (backoff_delay attempt) as [Hmax Hpos].
  destruct (outcome (table_answer w coords)) as [m| |].
  - eexists _, _. split; [reflexivity|]. cbn [asked sent now net client].
    repeat split; try reflexivity; try (destruct (_ <? _)%nat; lra).
    + now left.
    + exists []. reflexivity.
  - eexists _, _. split; [reflexivity|]. unfold backed_off.
    destruct (attempt <? max_retries - 1)%nat;
      cbn [sleep modify snd asked sent now net client events].
    + rewrite Hmax. repeat split; try reflexivity; try lra.
      * now left.
      * exists [Slept (retry_delay * (INR attempt + 1))].
        rewrite <- app_assoc. reflexivity.
    + repeat split; try reflexivity; try lra.
      * now left.
      * exists []. reflexivity.
  - eexists _, _. split; [reflexivity|]. unfold switched.
    cbn [asked client].
    destruct (_ && _)%bool;
      cbn [asked set_client set_current_url sent now net client events
           primary_url fallback_url current_url route_cache];
      repeat split; try reflexivity; try (destruct (_ <? _)%nat; lra).
    + now right.
    + exists []. reflexivity.
    + now left.
    + exists []. reflexivity.
Qed.

(** What the attempts of one call do to the world together. *)
Lemma table_attempts_bounds coords attempts : forall w,
  let w' := snd (table_attempts coords attempts w) in
  (sent w <= sent w' <= sent w + List.length attempts)%nat /\
  (attempts <> [] -> (S (sent w) <= sent w')%nat) /\
  now w <= now w' <= now w + backoff_budget attempts /\
  net w' = net w /\
  primary_url (client w') = primary_url (client w) /\
  fallback_url (client w') = fallback_url (client w) /\
  route_cache (client w') = route_cache (client w) /\
  (current_url (client w') = current_url (client w) \/
   current_url (client w') = fallback_url (client w)) /\
  exists rest, events w' = events w ++ rest.
Proof.
  induction attempts as [|attempt rest IH]; intros w w'.
  - subst w'. cbn [table_attempts raise snd List.length backoff_budget].
    repeat split; try reflexivity; try lia; try lra.
    + intros H. contradiction.
    + now left.
    + exists []. rewrite app_nil_r. reflexivity.
  - destruct (table_attempt_step coords attempt w)
      as (r & w1 & Hrun & Hs & Hn & Hnet & Hp & Hf & Hc & Hu & ev & Hev).
    subst w'. cbn [table_attempts]. unfold bind. rewrite Hrun.
    cbn [List.length backoff_budget].
    assert (Hrest : 0 <= backoff_budget rest).
    { clear. induction rest as [|a l IHl]; cbn [backoff_budget]; [lra|].
      pose proof (pos_INR a). unfold retry_delay.
      destruct (_ <? _)%nat; lra. }
    set (d := if (attempt <? max_retries - 1)%nat
              then retry_delay * (INR attempt + 1) else 0) in *.
    destruct r as [m|].
    + cbn [ret snd]. repeat split; try assumption; try lia; try lra.
      eexists. exact Hev.
    + specialize (IH w1). cbv zeta in IH.
      destruct IH as (Is & _ & In' & Inet & Ip & If & Ic & Iu & ev' & Iev).
      repeat split; try lia; try lra; try congruence.
      * destruct Iu as [Iu|Iu]; [destruct Hu as [Hu|Hu] |];
          [left | right | right]; congruence.
      * exists ((Requested Table (current_url (client w)) coords :: ev) ++ ev').
        rewrite Iev, Hev, <- app_assoc. reflexivity.
Qed.

(** X18: one call of [_fetch_distance_matrix], whatever the service
    answers, sends at least one and at most three requests, sleeps for
    at most three seconds in all, leaves the route cache alone, and
    leaves the client either on the endpoint it was on or on the
    secondary endpoint. *)
Theorem distance_matrix_fetch_is_bounded :
  forall (coords : list (R * R)) (w : World),
    let w' := snd (fetch_distance_matrix coords w) in
    (S (sent w) <= sent w' <= sent w + 3)%nat /\
    now w <= now w' <= now w + 3 /\
    net w' = net w /\
    primary_url (client w') = primary_url (client w) /\
    fallback_url (client w') = fallback_url (client w) /\
    route_cache (client w') = route_cache (client w) /\
    (current_url (client w') = current_url (client w) \/
     current_url (client w') = fallback_url (client w)).
Proof.
  intros coords w w'. subst w'. unfold fetch_distance_matrix.
  destruct (table_attempts_bounds coords (seq 0 max_retries) w)
    as (Hs & Hs1 & Hn & Hnet & Hp & Hf & Hc & Hu & _).
  rewrite length_seq in Hs.
  assert (Hm : max_retries = 3%nat) by reflexivity.
  assert (Hb : backoff_budget (seq 0 max_retries) = 3).
  { cbn. unfold retry_delay. lra. }
  rewrite Hb in Hn.
  assert (Hs2 : (S (sent w) <= sent (snd (table_attempts coords
                                           (seq 0 max_retries) w)))%nat)
    by (apply Hs1; discriminate).
  repeat split; try assumption; try lia; try lra.
Qed.

(** Three requests that all raise: the same endpoint three times, with
    sleeps of 1 s and 2 s in between, and no switch. *)
Lemma fetch_unreachable coords w :
  (forall k, (k < 3)%nat ->
     table_reply (net w) (sent w + k) (current_url (client w)) coords
     = NetworkError) ->
  fetch_distance_matrix coords w =
  (None,
   mkWorld (now w + 1 + 2) (sent w + 3)
     (events w ++
      [Requested Table (current_url (client w)) coords; Slept 1;
       Requested Table (current_url (client w)) coords; Slept 2;
       Requested Table (current_url (client w)) coords])
     (net w) (client w)).
Proof.
  intros H.
  pose proof (H 0%nat ltac:(lia)) as H0. rewrite Nat.add_0_r in H0.
  pose proof (H 1%nat ltac:(lia)) as H1. rewrite Nat.add_1_r in H1.
  pose proof (H 2%nat ltac:(lia)) as H2.
  replace (sent w + 2)%nat with (S (S (sent w))) in H2 by lia.
  unfold fetch_distance_matrix. cbn [max_retries seq table_attempts].
  unfold bind at 1. rewrite table_attempt_spec. unfold table_answer at 1.
  rewrite H0. cbn [outcome].
  set (w1 := backed_off 0 (asked coords w)).
  assert (A1 : table_answer w1 coords = NetworkError) by exact H1.
  unfold bind at 1. rewrite table_attempt_spec, A1. cbn [outcome].
  set (w2 := backed_off 1 (asked coords w1)).
  assert (A2 : table_answer w2 coords = NetworkError) by exact H2.
  unfold bind at 1. rewrite table_attempt_spec, A2. cbn [outcome raise].
  unfold w2, w1, backed_off, asked, sleep, modify.
  cbn [max_retries Nat.sub Nat.ltb Nat.leb snd now sent events net client].
  destruct (backoff_delay 0) as [M0 _]. destruct (backoff_delay 1) as [M1 _].
  rewrite M0, M1.
  assert (D0 : retry_delay * (INR 0 + 1) = 1)
    by (unfold retry_delay; simpl; lra).
  assert (D1 : retry_delay * (INR 1 + 1) = 2)
    by (unfold retry_delay; simpl; lra).
  rewrite D0, D1. rewrite <- !app_assoc. cbn [app].
  replace (S (S (S (sent w)))) with (sent w + 3)%nat by lia.
  reflexivity.
Qed.

(** X19: when the three requests of a call all fail to connect,
    [_fetch_distance_matrix] asks the same endpoint three times, sleeps
    1 s after the first and 2 s after the second failure, and raises;
    it does not switch endpoints, so the secondary endpoint is never
    tried for a host that cannot be reached. *)
Theorem unreachable_host_is_retried_not_replaced :
  forall (coords : list (R * R)) (w : World),
    (forall k, (k < 3)%nat ->
       table_reply (net w) (sent w + k) (current_url (client w)) coords
       = NetworkError) ->
    let '(result, w') := fetch_distance_matrix coords w in
    result = None /\
    events w' =
      events w ++
      [Requested Table (current_url (client w)) coords; Slept 1;
       Requested Table (current_url (client w)) coords; Slept 2;
       Requested Table (current_url (client w)) coords] /\
    now w' = now w + 3 /\
    client w' = client w.
Proof.
  intros coords w H. rewrite (fetch_unreachable coords w H).
  cbn [now events client]. repeat split. lra.
Qed.

(** X19 on a fresh client whose service does not answer. *)
Lemma unreachable_host_example :
  let '(result, w') :=
    fetch_distance_matrix [(0, 0); (1, 0)] silent_world in
  result = None /\
  events w' =
    events silent_world ++
    [Requested Table (current_url (client silent_world)) [(0, 0); (1, 0)];
     Slept 1;
     Requested Table (current_url (client silent_world)) [(0, 0); (1, 0)];
     Slept 2;
     Requested Table (current_url (client silent_world)) [(0, 0); (1, 0)]] /\
  now w' = now silent_world + 3 /\
  client w' = client silent_world.
Proof.
  apply (unreachable_host_is_retried_not_replaced [(0, 0); (1, 0)]
           silent_world).
  intros k Hk. reflexivity.
Defined.

Lemma table_attempts_cons coords attempt rest w :
  table_attempts coords (attempt :: rest) w =
  match table_attempt coords attempt w with
  | (Some (Some m), w1) => (Some m, w1)
  | (Some None, w1) => table_attempts coords rest w1
  | (None, w1) => (None, w1)
  end.
Proof.
  cbn [table_attempts]. unfold bind.
  destruct (table_attempt coords attempt w) as [[[m|]|] w1]; reflexivity.
Qed.

(** A first answer that is no success without being an exception, on
    the primary endpoint: the client moves to the secondary endpoint
    and asks it next, without a sleep. *)
Lemma fetch_declined coords w :
  current_url (client w) = primary_url (client w) ->
  outcome (table_answer w coords) = Declined ->
  let w' := snd (fetch_distance_matrix coords w) in
  current_url (client w') = fallback_url (client w) /\
  exists rest,
    events w' =
    events w ++
    Requested Table (primary_url (client w)) coords ::
    Requested Table (fallback_url (client w)) coords :: rest.
Proof.
  intros Hp Hd w'. subst w'.
  unfold fetch_distance_matrix.
  change (seq 0 max_retries) with [0; 1; 2]%nat.
  rewrite table_attempts_cons, table_attempt_spec, Hd.
  set (w1 := switched 0 (asked coords w)).
  assert (Hw1 : w1 = set_client (set_current_url (fallback_url (client w))
                                   (client w)) (asked coords w)).
  { unfold w1, switched. cbn [asked client]. rewrite Hp, String.eqb_refl.
    reflexivity. }
  destruct (table_attempts_bounds coords [1; 2]%nat w1)
    as (_ & _ & _ & _ & _ & Hf & _ & Hu & _).
  destruct (table_attempt_step coords 1 w1)
    as (r & w2 & Hrun & _ & _ & _ & _ & Hf2 & _ & Hu2 & ev & Hev).
  assert (Hcur : current_url (client w1) = fallback_url (client w))
    by (rewrite Hw1; reflexivity).
  assert (Hfb : fallback_url (client w1) = fallback_url (client w))
    by (rewrite Hw1; reflexivity).
  assert (Hev1 : events w1 =
                 events w ++ [Requested Table (primary_url (client w)) coords]).
  { rewrite Hw1. cbn [set_client asked events]. rewrite Hp. reflexivity. }
  split.
  - destruct Hu as [Hu|Hu]; rewrite Hu; congruence.
  - rewrite table_attempts_cons, Hrun.
    destruct r as [m|].
    + cbn [snd]. exists ev. rewrite Hev, Hev1, Hcur, <- app_assoc.
      reflexivity.
    + destruct (table_attempts_bounds coords [2]%nat w2)
        as (_ & _ & _ & _ & _ & _ & _ & _ & ev' & Hev').
      cbv zeta in Hev'. exists (ev ++ ev').
      rewrite Hev', Hev, Hev1, Hcur, <- !app_assoc. reflexivity.
Qed.

(** X20: when the client is on its primary endpoint and the first
    request of a call is answered with a status other than 200,
    [_fetch_distance_matrix] moves the client to the secondary endpoint
    and sends its next request there at once; when the call is over,
    whatever its outcome, the client is still on the secondary
    endpoint. *)
Theorem http_failure_moves_to_secondary_endpoint :
  forall (coords : list (R * R)) (w : World) (status : Z)
         (body : option TableBody),
    current_url (client w) = primary_url (client w) ->
    table_reply (net w) (sent w) (primary_url (client w)) coords
      = Reply status body ->
    status <> 200%Z ->
    let w' := snd (fetch_distance_matrix coords w) in
    current_url (client w') = fallback_url (client w) /\
    exists rest,
      events w' =
      events w ++
      Requested Table (primary_url (client w)) coords ::
      Requested Table (fallback_url (client w)) coords :: rest.
Proof.
  intros coords w status body Hp Hr Hs.
  apply fetch_declined; [exact Hp|].
  unfold table_answer. rewrite Hp, Hr. cbn [outcome].
  destruct (Z.eqb_spec status 200); [contradiction | reflexivity].
Qed.

(** X20 on a fresh client whose service answers 503 to everything. *)
Lemma http_failure_example :
  let w := mkWorld 0 0 [] refusing_network init_client in
  let w' := snd (fetch_distance_matrix [(0, 0); (1, 0)] w) in
  current_url (client w') = fallback_url (client w) /\
  exists rest,
    events w' =
    events w ++
    Requested Table (primary_url (client w)) [(0, 0); (1, 0)] ::
    Requested Table (fallback_url (client w)) [(0, 0); (1, 0)] :: rest.
Proof.
  apply (http_failure_moves_to_secondary_endpoint [(0, 0); (1, 0)]
           (mkWorld 0 0 [] refusing_network init_client) 503 None).
  - reflexivity.
  - reflexivity.
  - discriminate.
Defined.

End MatrixFetch.

(** ** The haversine matrix *)

Section HaversineMatrix.

Import Osrm OsrmSpec Matrix MatrixSpec.

Lemma nth_error_enumerate_from {A} (l : list A) : forall start i,
  nth_error (combine (seq start (List.length l)) l) i =
  option_map (fun x => ((start + i)%nat, x)) (nth_error l i).
Proof.
  induction l as [|x rest IH]; intros start i.
  - destruct i; reflexivity.
  - destruct i as [|i]; cbn [List.length seq combine nth_error option_map].
    + rewrite Nat.add_0_r. reflexivity.
    + rewrite IH. destruct (nth_error rest i); cbn [option_map];
        [|reflexivity].
      replace (S start + i)%nat with (start + S i)%nat by lia.
      reflexivity.
Qed.

Lemma nth_error_enumerate {A} (l : list A) i x :
  nth_error l i = Some x -> nth_error (enumerate l) i = Some (i, x).
Proof.
  intros H. unfold enumerate. rewrite nth_error_enumerate_from, H.
  reflexivity.
Qed.

Lemma enumerate_length {A} (l : list A) :
  List.length (enumerate l) = List.length l.
Proof.
  unfold enumerate. rewrite length_combine, length_seq. lia.
Qed.

Lemma haversine_same p : Geo.haversine_distance p p = 0.
Proof.
  destruct p as [lat lon]. rewrite haversine_is_calculate_distance.
  apply GeoFacts.calculate_distance_same.
Qed.

Lemma haversine_sym p q :
  Geo.haversine_distance p q = Geo.haversine_distance q p.
Proof.
  destruct p as [a b], q as [c d]. rewrite !haversine_is_calculate_distance.
  apply calculate_distance_sym.
Qed.

Lemma haversine_bounds p q : 0 <= Geo.haversine_distance p q <= 6371 * PI.
Proof.
  destruct p as [a b], q as [c d]. rewrite haversine_is_calculate_distance.
  apply calculate_distance_bounds.
Qed.

(** Every entry of the matrix is the haversine distance of its two
    points: the test that spares the diagonal changes nothing. *)
Lemma haversine_matrix_entry points i j p q :
  nth_error points i = Some p -> nth_error points j = Some q ->
  entry (calculate_haversine_matrix points) i j =
  Some (Geo.haversine_distance (latlon_of p) (latlon_of q)).
Proof.
  intros Hp Hq. unfold entry, calculate_haversine_matrix.
  rewrite nth_error_map, (nth_error_enumerate _ _ _ Hp). cbn [option_map].
  rewrite nth_error_map, (nth_error_enumerate _ _ _ Hq).
  cbn [option_map fst snd].
  destruct (Nat.eqb_spec i j) as [->|Hne]; [| reflexivity].
  assert (p = q) by congruence. subst q.
  rewrite haversine_same. reflexivity.
Qed.

(** X21: the fallback matrix over [n] points has [n] rows of [n]
    entries; the entry in row [i] and column [j] is the haversine
    distance between point [i] and point [j], so the matrix is
    symmetric with a zero diagonal, and every entry lies between zero
    and half the circumference of the globe. *)
Theorem haversine_matrix_is_square_and_symmetric :
  forall (points : list RoutePoint) (i j : nat) (p q : RoutePoint),
    nth_error points i = Some p -> nth_error points j = Some q ->
    let m := calculate_haversine_matrix points in
    let d := Geo.haversine_distance (latitude p, longitude p)
                                    (latitude q, longitude q) in
    List.length m = List.length points /\
    Forall (fun row => List.length row = List.length points) m /\
    entry m i j = Some d /\ entry m j i = Some d /\
    entry m i i = Some 0 /\
    0 <= d <= 6371 * PI.
Proof.
  intros points i j p q Hp Hq m d. subst m d.
  split; [| split; [| split; [| split; [| split]]]].
  - unfold calculate_haversine_matrix.
    rewrite length_map. apply enumerate_length.
  - unfold calculate_haversine_matrix. apply Forall_forall.
    intros row Hin. apply in_map_iff in Hin. destruct Hin as (ip & <- & _).
    rewrite length_map. apply enumerate_length.
  - apply (haversine_matrix_entry points i j p q Hp Hq).
  - rewrite (haversine_matrix_entry points j i q p Hq Hp).
    unfold latlon_of. rewrite haversine_sym. reflexivity.
  - rewrite (haversine_matrix_entry points i i p p Hp Hp).
    rewrite haversine_same. reflexivity.
  - apply haversine_bounds.
Qed.

(** X21 on the depot and one stop. *)
Lemma haversine_matrix_example :
  let m := calculate_haversine_matrix [origin; stop_east] in
  let d := Geo.haversine_distance (latitude origin, longitude origin)
             (latitude stop_east, longitude stop_east) in
  List.length m = List.length [origin; stop_east] /\
  Forall (fun row => List.length row = List.length [origin; stop_east]) m /\
  entry m 0 1 = Some d /\ entry m 1 0 = Some d /\
  entry m 0 0 = Some 0 /\
  0 <= d <= 6371 * PI.
Proof.
  apply (haversine_matrix_is_square_and_symmetric [origin; stop_east] 0 1
           origin stop_east); reflexivity.
Defined.

End HaversineMatrix.

(** ** The distance matrix call and its cache *)

Section MatrixCall.

Import Osrm OsrmSpec Matrix MatrixSpec.

Variable round : R -> Z -> R.
Variable hash : list (R * R) -> Z.

Lemma matrix_get_put_same key e cache :
  matrix_get key (matrix_put key e cache) = Some e.
Proof.
  induction cache as [|[k e'] rest IH]; cbn [matrix_put matrix_get].
  - rewrite Z.eqb_refl. reflexivity.
  - destruct (key =? k)%Z eqn:E; cbn [matrix_get]; rewrite E;
      [reflexivity | exact IH].
Qed.

Lemma matrix_lookup_miss s key :
  matrix_miss s key ->
  match matrix_get key (distance_cache s) with
  | Some entry =>
      if Rlt_dec (now (world s) - matrix_timestamp entry) cache_ttl
      then Some (matrix entry) else None
  | None => None
  end = None.
Proof.
  unfold matrix_miss. destruct (matrix_get _ _); [|reflexivity].
  intros H. destruct (Rlt_dec _ _); [contradiction | reflexivity].
Qed.

Lemma long_list {A} (l : list A) :
  (2 <= List.length l)%nat -> (List.length l <=? 1)%nat = false.
Proof. intros H. apply Nat.leb_gt. lia. Qed.

(** A call that finds a fresh entry under its key. *)
Lemma distance_matrix_hit points s e :
  (2 <= List.length points)%nat ->
  matrix_get (generate_cache_key round hash points) (distance_cache s)
    = Some e ->
  now (world s) - matrix_timestamp e < cache_ttl ->
  get_distance_matrix_async round hash points s = (Some (matrix e), s).
Proof.
  intros Hl Hget Hfresh. unfold get_distance_matrix_async.
  rewrite (long_list _ Hl). unfold bind, gets. rewrite Hget.
  destruct (Rlt_dec _ _); [reflexivity | contradiction].
Qed.

(** A call that finds none: the matrix of the service, stored under
    the key with the time at which the fetch ended, or else the
    haversine matrix, not stored. *)
Lemma distance_matrix_miss points s :
  (2 <= List.length points)%nat ->
  matrix_miss s (generate_cache_key round hash points) ->
  get_distance_matrix_async round hash points s =
  match fetch_distance_matrix (lonlat points) (world s) with
  | (Some m, w1) =>
      (Some m,
       mkStore w1
         (matrix_put (generate_cache_key round hash points)
            (mkMatrixEntry m (now w1)) (distance_cache s)))
  | (None, w1) =>
      (Some (calculate_haversine_matrix points),
       mkStore w1 (distance_cache s))
  end.
Proof.
  intros Hl Hmiss. unfold get_distance_matrix_async.
  rewrite (long_list _ Hl). unfold bind at 1. unfold gets.
  rewrite (matrix_lookup_miss _ _ Hmiss).
  unfold try_except, bind, on_world.
  destruct (fetch_distance_matrix (lonlat points) (world s)) as [[m|] w1];
    reflexivity.
Qed.

(** X22: [get_distance_matrix_async] never raises.  It always returns
    a matrix, after at most three requests and at most three seconds of
    sleeping; for no point or a single point the matrix is the 1 by 1
    zero matrix (also for no point at all), and neither the cache nor
    the service is consulted. *)
Theorem distance_matrix_always_answers :
  forall (points : list RoutePoint) (s : Store),
    exists m s',
      get_distance_matrix_async round hash points s = (Some m, s') /\
      (sent (world s) <= sent (world s') <= sent (world s) + 3)%nat /\
      now (world s) <= now (world s') <= now (world s) + 3 /\
      ((List.length points <= 1)%nat -> m = [[0]] /\ s' = s).
Proof.
  intros points s. unfold get_distance_matrix_async.
  destruct (Nat.leb_spec (List.length points) 1) as [Hshort|Hlong].
  - exists [[0]], s. split; [reflexivity|]. repeat split; lia || lra.
  - unfold bind at 1. unfold gets.
    destruct (match matrix_get _ _ with Some _ => _ | None => _ end) as [m|].
    + exists m, s. split; [reflexivity|].
      repeat split; try lia; try lra; intros; lia.
    + unfold try_except, bind, on_world.
      destruct (table_attempts_bounds (lonlat points) (seq 0 max_retries)
                  (world s)) as (Hs & _ & Hn & _).
      fold (fetch_distance_matrix (lonlat points)) in Hs, Hn.
      rewrite length_seq in Hs.
      assert (Hm : max_retries = 3%nat) by reflexivity.
      assert (Hb : backoff_budget (seq 0 max_retries) = 3)
        by (cbn; unfold retry_delay; lra).
      rewrite Hb in Hn.
      destruct (fetch_distance_matrix (lonlat points) (world s))
        as [[m|] w1]; cbn [snd] in Hs, Hn; unfold modify, ret;
        eexists _, _; (split; [reflexivity|]); cbn [world];
        repeat split; try lia; try lra; intros; lia.
Qed.

(** X23: a matrix obtained from the service is stored under the cache
    key of the points and returned, without any request, to every call
    made less than an hour after the fetch whose points have the same
    key - the same points, or points that [round] and [hash] do not
    tell apart. *)
Theorem distance_matrix_is_cached_by_key :
  forall (points points' : list RoutePoint) (s s2 : Store)
         (distances : list (list R)),
    (2 <= List.length points)%nat -> (2 <= List.length points')%nat ->
    matrix_miss s (generate_cache_key round hash points) ->
    table_answer (world s) (lonlat points) =
      Reply 200 (Some (mkTableBody (Some "Ok"%string) (Some distances))) ->
    generate_cache_key round hash points' =
      generate_cache_key round hash points ->
    distance_cache s2 =
      distance_cache (snd (get_distance_matrix_async round hash points s)) ->
    now (world s2) - now (world s) < cache_ttl ->
    let m := map (map (fun d => d / 1000)) distances in
    fst (get_distance_matrix_async round hash points s) = Some m /\
    get_distance_matrix_async round hash points' s2 = (Some m, s2).
Proof.
  intros points points' s s2 distances Hl Hl' Hmiss Hans Hkey Hcache Hfresh m.
  assert (Hfetch : fetch_distance_matrix (lonlat points) (world s) =
                   (Some m, asked (lonlat points) (world s))).
  { unfold fetch_distance_matrix.
    change (seq 0 max_retries) with [0; 1; 2]%nat.
    rewrite table_attempts_cons, table_attempt_spec, Hans. reflexivity. }
  rewrite (distance_matrix_miss points s Hl Hmiss), Hfetch in Hcache |- *.
  cbn [fst snd distance_cache] in Hcache |- *.
  split; [reflexivity|].
  apply (distance_matrix_hit points' s2
           (mkMatrixEntry m (now (asked (lonlat points) (world s)))) Hl').
  - rewrite Hcache, Hkey. apply matrix_get_put_same.
  - exact Hfresh.
Qed.

(** X24: when the cache holds no fresh entry and the three requests of
    the call all fail to connect, [get_distance_matrix_async] returns
    the haversine matrix of the points after three requests and three
    seconds of sleeping; the matrix is not stored in the cache and the
    client stays on its endpoint. *)
Theorem distance_matrix_falls_back_to_haversine :
  forall (points : list RoutePoint) (s : Store),
    (2 <= List.length points)%nat ->
    matrix_miss s (generate_cache_key round hash points) ->
    (forall k, (k < 3)%nat ->
       table_reply (net (world s)) (sent (world s) + k)
         (current_url (client (world s))) (lonlat points) = NetworkError) ->
    exists s',
      get_distance_matrix_async round hash points s =
        (Some (calculate_haversine_matrix points), s') /\
      distance_cache s' = distance_cache s /\
      client (world s') = client (world s) /\
      now (world s') = now (world s) + 3 /\
      sent (world s') = (sent (world s) + 3)%nat.
Proof.
  intros points s Hl Hmiss Hdown.
  rewrite (distance_matrix_miss points s Hl Hmiss).
  rewrite (fetch_unreachable (lonlat points) (world s) Hdown).
  eexists. split; [reflexivity|]. cbn [distance_cache world client now sent].
  repeat split. lra.
Qed.

(** *** Clearing the caches, and their statistics *)

Lemma count_valid_le {K E} (stamp : E -> R) t (cache : list (K * E)) :
  (count_valid stamp t cache <= List.length cache)%nat.
Proof. unfold count_valid. apply filter_length_le. Qed.

(** X25: the statistics never count more valid entries than entries
    and report a time to live of 3600 s.  After [clear_cache] they count
    nothing, clock, request log and endpoints are as before, and every
    call goes to the service again: a route geometry call sends its
    request and a distance matrix call for two points or more sends at
    least one, whatever had been cached. *)
Theorem clear_cache_empties_both_caches :
  forall s : Store,
    (exists stats,
       get_cache_stats s = (Some stats, s) /\
       (valid_distance_entries stats <= distance_cache_size stats)%nat /\
       (valid_route_entries stats <= route_cache_size stats)%nat /\
       cache_ttl_seconds stats = 3600) /\
    let s' := snd (clear_cache s) in
    fst (get_cache_stats s') = Some (mkCacheStats 0 0 0 0 3600) /\
    now (world s') = now (world s) /\
    events (world s') = events (world s) /\
    current_url (client (world s')) = current_url (client (world s)) /\
    primary_url (client (world s')) = primary_url (client (world s)) /\
    fallback_url (client (world s')) = fallback_url (client (world s)) /\
    (forall start finish via,
       sent (snd (get_route_geometry_async start finish via (world s')))
       = S (sent (world s'))) /\
    (forall points,
       (2 <= List.length points)%nat ->
       (S (sent (world s')) <=
        sent (world (snd (get_distance_matrix_async round hash points s'))))
       %nat).
Proof.
  intros s. split.
  - eexists. split; [reflexivity|].
    cbn [valid_distance_entries distance_cache_size valid_route_entries
         route_cache_size cache_ttl_seconds].
    split; [apply count_valid_le | split; [apply count_valid_le|]].
    reflexivity.
  - cbv zeta. do 6 (split; [reflexivity|]). split.
    + intros start finish via.
      destruct (route_geometry_miss start finish via
                  (world (snd (clear_cache s))))
        as (g & w' & Hrun & _ & Hsent & _); [exact I|].
      rewrite Hrun. exact Hsent.
    + intros points Hl.
      rewrite (distance_matrix_miss points (snd (clear_cache s)) Hl I).
      destruct (table_attempts_bounds (lonlat points) (seq 0 max_retries)
                  (world (snd (clear_cache s)))) as (_ & Hs & _).
      fold (fetch_distance_matrix (lonlat points)) in Hs.
      specialize (Hs ltac:(discriminate)).
      destruct (fetch_distance_matrix (lonlat points)
                  (world (snd (clear_cache s)))) as [[m|] w1];
        cbn [snd world] in Hs |- *; exact Hs.
Qed.

End MatrixCall.

Section MatrixCallExamples.

Import Osrm OsrmSpec Matrix MatrixSpec.

(** X23 for two points and a service that answers; ten minutes later
    two other points, which the stand-in hash does not tell apart from
    them, are given the same matrix. *)
Lemma distance_matrix_is_cached_example :
  let s := fresh_store 0 answering_network in
  let s1 := snd (get_distance_matrix_async no_round constant_hash
                   [origin; stop_east] s) in
  let s2 := mkStore (snd (sleep 600 (world s1))) (distance_cache s1) in
  let m := map (map (fun d => d / 1000)) [[0; 1500]; [1500; 0]] in
  fst (get_distance_matrix_async no_round constant_hash
         [origin; stop_east] s) = Some m /\
  get_distance_matrix_async no_round constant_hash [stop_east; stop_north] s2
    = (Some m, s2).
Proof.
  apply (distance_matrix_is_cached_by_key no_round constant_hash
           [origin; stop_east] [stop_east; stop_north]
           (fresh_store 0 answering_network)).
  - cbn. lia.
  - cbn. lia.
  - exact I.
  - reflexivity.
  - reflexivity.
  - reflexivity.
  - cbn. unfold cache_ttl, Rmax. destruct (Rle_dec 0 600); lra.
Defined.

(** X24 for two points and a service that does not answer. *)
Lemma distance_matrix_falls_back_example :
  exists s',
    get_distance_matrix_async no_round constant_hash [origin; stop_east]
      (fresh_store 0 silent_network) =
      (Some (calculate_haversine_matrix [origin; stop_east]), s') /\
    distance_cache s' = distance_cache (fresh_store 0 silent_network) /\
    client (world s') = client (world (fresh_store 0 silent_network)) /\
    now (world s') = now (world (fresh_store 0 silent_network)) + 3 /\
    sent (world s') = (sent (world (fresh_store 0 silent_network)) + 3)%nat.
Proof.
  apply (distance_matrix_falls_back_to_haversine no_round constant_hash
           [origin; stop_east] (fresh_store 0 silent_network)).
  - cbn. lia.
  - exact I.
  - intros k Hk. reflexivity.
Defined.

End MatrixCallExamples.

(** ** The endpoint in use, across calls *)

Section Endpoint.

Import Osrm OsrmSpec Matrix MatrixSpec.

Variable round : R -> Z -> R.
Variable hash : list (R * R) -> Z.

(** [get_route_geometry_async] leaves the three URLs alone. *)
Lemma route_geometry_urls start finish via w :
  let w' := snd (get_route_geometry_async start finish via w) in
  primary_url (client w') = primary_url (client w) /\
  fallback_url (client w') = fallback_url (client w) /\
  current_url (client w') = current_url (client w).
Proof.
  unfold get_route_geometry_async, bind, gets.
  set (coords := lonlat ([start] ++ via ++ [finish])).
  destruct (match cache_get _ _ with Some _ => _ | None => _ end) as [g|].
  - repeat split.
  - unfold try_except, bind.
    pose proof (fetch_route_world coords w) as Hw.
    destruct (fetch_route_geometry coords w) as [[g|] w1]; cbn [snd] in Hw;
      subst w1; unfold modify, ret; repeat split.
Qed.

(** [get_optimized_route_order] sends its one request and does nothing
    else to the world. *)
Lemma trip_world depot delivery_points w :
  snd (get_optimized_route_order depot delivery_points w) =
  requested Trip (lonlat (depot :: delivery_points)) w.
Proof.
  unfold get_optimized_route_order, bind, try_except, http_get, requested.
  destruct (trip_reply _ _ _ _) as [|st body]; [reflexivity|].
  destruct (st =? 200)%Z; [|reflexivity].
  destruct body as [data|]; [|reflexivity]. cbn [must ret].
  destruct (is_ok (tb_code data)); [|reflexivity].
  destruct (tb_trips data) as [|trip rest]; [reflexivity|].
  unfold bind.
  destruct (trip_legs trip) as [legs|]; [|reflexivity]. cbn [must ret].
  destruct (waypoint_indices legs); reflexivity.
Qed.

Lemma snd_bind_ret_store {A} (m : M Store A) (s : Store) :
  snd (bind m (fun _ => ret tt) s) = snd (m s).
Proof. unfold bind. destruct (m s) as [[a|] s']; reflexivity. Qed.

(** No call changes the primary or the secondary URL, and after any
    call the client is on the endpoint it was on or on the secondary
    one. *)
(** The world after a distance matrix call: as before, or as the
    fetch left it. *)
Lemma distance_matrix_world points s :
  world (snd (get_distance_matrix_async round hash points s)) = world s \/
  world (snd (get_distance_matrix_async round hash points s)) =
    snd (fetch_distance_matrix (lonlat points) (world s)).
Proof.
  unfold get_distance_matrix_async.
  destruct (_ <=? 1)%nat; [left; reflexivity|].
  unfold bind, gets. cbv beta iota.
  destruct (matrix_get _ _) as [e|].
  - destruct (Rlt_dec _ _); [left; reflexivity|].
    right. unfold try_except, on_world.
    destruct (fetch_distance_matrix (lonlat points) (world s)) as [[m|] w1];
      reflexivity.
  - right. unfold try_except, on_world.
    destruct (fetch_distance_matrix (lonlat points) (world s)) as [[m|] w1];
      reflexivity.
Qed.

Lemma call_urls c s :
  let s' := snd (run_call round hash c s) in
  primary_url (client (world s')) = primary_url (client (world s)) /\
  fallback_url (client (world s')) = fallback_url (client (world s)) /\
  (current_url (client (world s')) = current_url (client (world s)) \/
   current_url (client (world s')) = fallback_url (client (world s))).
Proof.
  assert (Hsame : forall s0 : Store,
            primary_url (client (world s0)) = primary_url (client (world s0))
            /\ fallback_url (client (world s0)) =
               fallback_url (client (world s0))
            /\ (current_url (client (world s0)) =
                current_url (client (world s0)) \/
                current_url (client (world s0)) =
                fallback_url (client (world s0)))).
  { intros s0. split; [reflexivity | split; [reflexivity | now left]]. }
  destruct c as [points | start finish via | depot pts | |]; cbn [run_call].
  - cbv zeta. rewrite snd_bind_ret_store.
    destruct (distance_matrix_world points s) as [Hw|Hw]; rewrite Hw;
      [apply Hsame|].
    destruct (table_attempts_bounds (lonlat points) (seq 0 max_retries)
                (world s)) as (_ & _ & _ & _ & Hp & Hf & _ & Hu & _).
    split; [exact Hp | split; [exact Hf | exact Hu]].
  - cbv zeta. rewrite snd_bind_ret_store. unfold on_world.
    destruct (route_geometry_urls start finish via (world s))
      as (Hp & Hf & Hc).
    destruct (get_route_geometry_async start finish via (world s))
      as [r w1]. cbn [snd world] in *.
    split; [assumption | split; [assumption | now left]].
  - cbv zeta. rewrite snd_bind_ret_store. unfold on_world.
    pose proof (trip_world depot pts (world s)) as Hw.
    destruct (get_optimized_route_order depot pts (world s)) as [r w1].
    cbn [snd world] in *. subst w1.
    split; [reflexivity | split; [reflexivity | now left]].
  - split; [reflexivity | split; [reflexivity | now left]].
  - apply Hsame.
Qed.

(** X26: the client never goes back to its primary endpoint.  No call
    (distance matrix, route geometry, visit order, clearing the caches,
    statistics) changes the primary or the secondary URL, and once the
    client is on the secondary endpoint it is still there after every
    sequence of calls. *)
Theorem secondary_endpoint_is_never_left :
  forall (calls : list Call) (s : Store),
    current_url (client (world s)) = fallback_url (client (world s)) ->
    let s' := run_calls round hash calls s in
    current_url (client (world s')) = fallback_url (client (world s)) /\
    primary_url (client (world s')) = primary_url (client (world s)) /\
    fallback_url (client (world s')) = fallback_url (client (world s)).
Proof.
  intros calls. induction calls as [|c rest IH]; intros s Hs.
  - cbn. auto.
  - cbn [run_calls].
    destruct (call_urls c s) as (Hp & Hf & Hu). cbv zeta in Hp, Hf, Hu.
    assert (Hs1 : current_url (client (world (snd (run_call round hash c s))))
                  = fallback_url (client (world (snd (run_call round hash c s))))).
    { rewrite Hf. destruct Hu as [Hu|Hu]; rewrite Hu; auto. }
    destruct (IH _ Hs1) as (I1 & I2 & I3). cbv zeta.
    rewrite I1, I2, I3. auto.
Qed.

End Endpoint.

Section EndpointExample.

Import Osrm OsrmSpec Matrix MatrixSpec.

(** X26 for a client that has switched, over a call of each kind. *)
Lemma secondary_endpoint_example :
  let calls :=
    [DistanceMatrix [origin; stop_east]; RouteGeometryOf origin stop_east [];
     OptimizedOrder origin [stop_east]; ClearCache; CacheStatsOf] in
  let s' := run_calls no_round constant_hash calls switched_store in
  current_url (client (world s')) =
    fallback_url (client (world switched_store)) /\
  primary_url (client (world s')) =
    primary_url (client (world switched_store)) /\
  fallback_url (client (world s')) =
    fallback_url (client (world switched_store)).
Proof.
  apply (secondary_endpoint_is_never_left no_round constant_hash
           [DistanceMatrix [origin; stop_east];
            RouteGeometryOf origin stop_east [];
            OptimizedOrder origin [stop_east]; ClearCache; CacheStatsOf]
           switched_store).
  reflexivity.
Defined.

End EndpointExample.

(** ** The route cache, and the visit order of a trip that succeeds *)

Section RouteCache.

Import Osrm OsrmSpec.

Lemma cache_get_put_same key e cache :
  cache_get key (cache_put key e cache) = Some e.
Proof.
  induction cache as [|[k e'] rest IH]; cbn [cache_put cache_get].
  - destruct (key_eq_dec key key); [reflexivity | contradiction].
  - destruct (key_eq_dec key k) as [E|E]; cbn [cache_get].
    + destruct (key_eq_dec key k); [reflexivity | contradiction].
    + destruct (key_eq_dec key k); [contradiction | exact IH].
Qed.

Lemma is_ok_code code : is_ok code = false -> code <> Some "Ok"%string.
Proof.
  destruct code as [c|]; cbn [is_ok]; [| discriminate].
  intros H [= ->]. discriminate H.
Qed.

(** Every answer that is not a failure makes the route request
    succeed. *)
Lemma fetch_route_succeeds coords w :
  ~ route_failure (route_answer w coords) ->
  exists g, fetch_route_geometry coords w = (Some g, requested Route coords w).
Proof.
  intros Hok. rewrite <- fetch_route_world.
  unfold fetch_route_geometry, bind, http_get. unfold route_answer in Hok.
  destruct (route_reply _ _ _ _) as [|st body].
  - exfalso. apply Hok. constructor.
  - destruct (Z.eqb_spec st 200) as [->|Hst];
      [| exfalso; apply Hok; constructor; exact Hst].
    destruct body as [data|]; [| exfalso; apply Hok; apply route_bad_json].
    cbn [must ret].
    destruct (is_ok (rb_code data)) eqn:Eok;
      [| exfalso; apply Hok; apply route_bad_code, is_ok_code; exact Eok].
    destruct (rb_routes data) as [|route rest] eqn:Er;
      [exfalso; apply Hok; apply route_no_routes; exact Er|].
    unfold bind.
    destruct (rj_coordinates route) as [c|] eqn:Ec;
      [| exfalso; apply Hok;
         apply (route_malformed data route rest Er); auto].
    cbn [must ret].
    destruct (rj_distance route) as [d|] eqn:Ed;
      [| exfalso; apply Hok;
         apply (route_malformed data route rest Er); auto].
    cbn [must ret].
    destruct (rj_duration route) as [t|] eqn:Et;
      [| exfalso; apply Hok;
         apply (route_malformed data route rest Er); auto].
    cbn [must ret]. eexists. reflexivity.
Qed.

(** X27: a geometry obtained from the service is stored under the
    path and returned, without any request, to every call for the same
    path made less than an hour (3600 s) later; a call made an hour
    later or more sends a request again. *)
Theorem route_geometry_is_cached_for_an_hour :
  forall (start finish : RoutePoint) (via : list RoutePoint)
         (w w2 : World),
    let coords := lonlat ([start] ++ via ++ [finish]) in
    cache_miss w coords ->
    ~ route_failure (route_answer w coords) ->
    route_cache (client w2) =
      route_cache (client (snd (get_route_geometry_async start finish via w)))
    ->
    exists g,
      fst (get_route_geometry_async start finish via w) = Some g /\
      (now w2 - now w < cache_ttl ->
       get_route_geometry_async start finish via w2 = (Some g, w2)) /\
      (~ now w2 - now w < cache_ttl ->
       sent (snd (get_route_geometry_async start finish via w2))
       = S (sent w2)).
Proof.
  intros start finish via w w2 coords Hmiss Hok Hcache.
  destruct (fetch_route_succeeds coords w Hok) as [g Hfetch].
  assert (Hrun : get_route_geometry_async start finish via w =
                 (Some g,
                  set_client
                    (set_route_cache
                       (cache_put coords (mkCacheEntry g (now w))
                                  (route_cache (client w)))
                       (client w))
                    (requested Route coords w))).
  { unfold get_route_geometry_async, bind, gets. fold coords.
    rewrite (cached_lookup_miss _ _ Hmiss).
    unfold try_except, bind. rewrite Hfetch. reflexivity. }
  rewrite Hrun in Hcache |- *. cbn [fst snd] in Hcache |- *.
  cbn [set_client set_route_cache client route_cache] in Hcache.
  assert (Hget : cache_get coords (route_cache (client w2)) =
                 Some (mkCacheEntry g (now w)))
    by (rewrite Hcache; apply cache_get_put_same).
  exists g. split; [reflexivity | split].
  - intros Hfresh.
    apply (route_geometry_hit start finish via w2 (mkCacheEntry g (now w)));
      assumption.
  - intros Hstale.
    destruct (route_geometry_miss start finish via w2)
      as (g2 & w3 & Hrun2 & _ & Hsent & _).
    + unfold cache_miss. fold coords. rewrite Hget. exact Hstale.
    + rewrite Hrun2. exact Hsent.
Qed.

(** X27 for a road fetched at time 0 and asked for again ten minutes
    later. *)
Lemma route_geometry_is_cached_example :
  let w := failing_world in
  let w2 := snd (sleep 600 world_with_cached_road) in
  exists g,
    fst (get_route_geometry_async origin stop_east [] w) = Some g /\
    (now w2 - now w < cache_ttl ->
     get_route_geometry_async origin stop_east [] w2 = (Some g, w2)) /\
    (~ now w2 - now w < cache_ttl ->
     sent (snd (get_route_geometry_async origin stop_east [] w2))
     = S (sent w2)).
Proof.
  apply (route_geometry_is_cached_for_an_hour origin stop_east []
           failing_world (snd (sleep 600 world_with_cached_road))).
  - exact I.
  - apply road_body_is_no_failure.
  - reflexivity.
Defined.

Lemma waypoint_indices_length legs : forall idxs,
  waypoint_indices legs = Some idxs -> List.length idxs = List.length legs.
Proof.
  induction legs as [|[i|] rest IH]; intros idxs; cbn [waypoint_indices].
  - intros [= <-]. reflexivity.
  - destruct (waypoint_indices rest) as [r|]; [| discriminate].
    intros [= <-]. cbn [List.length]. rewrite (IH r eq_refl). reflexivity.
  - discriminate.
Qed.

(** X28: when the trip request succeeds, the visit order is the list
    of the waypoint indices of the first trip without the entries that
    are not positive (the depot), each lowered by one, in the order of
    the trip.  Every index returned is non-negative and there are at
    most as many as legs; the indices are not compared with the number
    of delivery points.  One request is sent and nothing else
    changes. *)
Theorem optimized_order_drops_the_depot :
  forall (depot : RoutePoint) (delivery_points : list RoutePoint)
         (w : World) (data : TripBody) (trip : TripJson)
         (rest : list TripJson) (legs : list (option Z)) (idxs : list Z),
    trip_answer w depot delivery_points = Reply 200 (Some data) ->
    tb_code data = Some "Ok"%string ->
    tb_trips data = trip :: rest ->
    trip_legs trip = Some legs ->
    waypoint_indices legs = Some idxs ->
    let order := map (fun idx => (idx - 1)%Z)
                     (filter (fun idx => (0 <? idx)%Z) idxs) in
    get_optimized_route_order depot delivery_points w =
      (Some order, requested Trip (lonlat (depot :: delivery_points)) w) /\
    Forall (fun i => (0 <= i)%Z) order /\
    (List.length order <= List.length legs)%nat /\
    (forall i, In i order <-> In (i + 1)%Z idxs /\ (0 <= i)%Z).
Proof.
  intros depot pts w data trip rest legs idxs Hans Hcode Htrips Hlegs Hidx
    order.
  split; [| split; [| split]].
  - unfold trip_answer in Hans.
    unfold get_optimized_route_order, bind, try_except, http_get, requested.
    rewrite Hans. cbn [Z.eqb Pos.eqb must ret]. rewrite Hcode, Htrips.
    cbn [is_ok]. change (String.eqb "Ok" "Ok") with true. cbv iota.
    unfold bind. rewrite Hlegs. cbn [must ret]. rewrite Hidx. reflexivity.
  - apply Forall_forall. intros i Hi. apply in_map_iff in Hi.
    destruct Hi as (idx & <- & Hin). apply filter_In in Hin.
    destruct Hin as [_ Hpos]. apply Z.ltb_lt in Hpos. lia.
  - unfold order. rewrite length_map.
    rewrite <- (waypoint_indices_length legs idxs Hidx).
    apply filter_length_le.
  - intros i. unfold order. rewrite in_map_iff. split.
    + intros (idx & <- & Hin). apply filter_In in Hin.
      destruct Hin as [Hin Hpos]. apply Z.ltb_lt in Hpos.
      replace (idx - 1 + 1)%Z with idx by lia. split; [exact Hin | lia].
    + intros [Hin Hpos]. exists (i + 1)%Z. split; [lia|].
      apply filter_In. split; [exact Hin | apply Z.ltb_lt; lia].
Qed.

End RouteCache.

Section TripExample.

Import Osrm OsrmSpec MatrixSpec.

(** X28 for two stops that the service visits in reverse. *)
Lemma optimized_order_example :
  let w := mkWorld 0 0 [] trip_network init_client in
  let order := map (fun idx => (idx - 1)%Z)
                   (filter (fun idx => (0 <? idx)%Z) [0; 2; 1]%Z) in
  get_optimized_route_order origin [stop_east; stop_north] w =
    (Some order,
     requested Trip (lonlat (origin :: [stop_east; stop_north])) w) /\
  Forall (fun i => (0 <= i)%Z) order /\
  (List.length order <= List.length [Some 0; Some 2; Some 1]%Z)%nat /\
  (forall i, In i order <-> In (i + 1)%Z [0; 2; 1]%Z /\ (0 <= i)%Z).
Proof.
  apply (optimized_order_drops_the_depot origin [stop_east; stop_north]
           (mkWorld 0 0 [] trip_network init_client) trip_body
           (mkTripJson (Some [Some 0; Some 2; Some 1]%Z)) []);
    reflexivity.
Defined.

End TripExample.

(** ** Which route a start registers, and who counts as active *)

Section Registry.

Import Sim SimSpec EngineSpec.

Lemma initialize_routes_app routes1 routes2 depot : forall w,
  initialize_routes (routes1 ++ routes2) depot w =
  initialize_routes routes2 depot (snd (initialize_routes routes1 depot w)).
Proof.
  induction routes1 as [|route rest IH]; intros w; [reflexivity|].
  cbn [app initialize_routes]. unfold bind.
  destruct (initialize_vehicle_route_spec route depot w)
    as (g & o & _ & Hinit).
  rewrite Hinit. cbn [snd]. apply IH.
Qed.

(** Initialising a list of routes never raises, takes no sleep, and
    leaves the vehicles and routes of other identifiers alone. *)
Lemma initialize_routes_frame routes depot : forall w,
  exists w',
    initialize_routes routes depot w = (Some tt, w') /\
    Osrm.now (osrm w') = Osrm.now (osrm w) /\
    forall vid, ~ In vid (map rd_vehicle_id routes) ->
      dict_get vid (active_simulations (sim w')) =
        dict_get vid (active_simulations (sim w)) /\
      dict_get vid (simulation_routes (sim w')) =
        dict_get vid (simulation_routes (sim w)).
Proof.
  induction routes as [|route rest IH]; intros w.
  - exists w. split; [reflexivity | split; [reflexivity | auto]].
  - destruct (initialize_vehicle_route_spec route depot w)
      as (g & o & Hnow & Hinit).
    destruct (IH (installed route depot g o w)) as (w' & Hrun & Hn & Hget).
    exists w'. split; [| split].
    + cbn [initialize_routes]. unfold bind. rewrite Hinit. exact Hrun.
    + rewrite Hn. cbn [installed osrm]. exact Hnow.
    + intros vid Hnot.
      destruct (Hget vid) as [Ha Hr]; [intros H; apply Hnot; now right|].
      rewrite Ha, Hr. cbn [installed sim active_simulations simulation_routes].
      assert (Hne : vid <> rd_vehicle_id route)
        by (intros ->; apply Hnot; now left).
      rewrite !dict_get_set_other by exact Hne. auto.
Qed.

(** X29: [start_simulation] on well-formed routes returns [True].  For
    every vehicle it registers the last route of the list that names
    the vehicle (an earlier route for the same vehicle is overwritten):
    the vehicle stands at the depot, idle, with speed, heading, fuel and
    progress 0 and loaded with the sum of the weights of that route's
    orders (its time stamp is whatever the clock shows when it is
    created); its waypoints are the depot, the orders in order, and the
    depot; a geometry is always attached. *)
Theorem start_registers_the_last_route_of_a_vehicle :
  forall (routes1 : list RouteDict) (route : RouteDict)
         (routes2 : list RouteDict) (depot : Osrm.RoutePoint) (w : World),
    ~ In (rd_vehicle_id route) (map rd_vehicle_id routes2) ->
    exists g t w',
      start_simulation (routes1 ++ route :: routes2) depot w
        = (Some true, w') /\
      dict_get (rd_vehicle_id route) (active_simulations (sim w')) =
        Some (mkVehicleState (rd_vehicle_id route) (Osrm.latitude depot)
                (Osrm.longitude depot) 0 0 IDLE
                (py_sum (map order_weight (rd_orders route))) 0 0 0 t) /\
      dict_get (rd_vehicle_id route) (simulation_routes (sim w')) =
        Some (mkSimulationRoute (rd_vehicle_id route)
                ([depot] ++ map order_waypoint (rd_orders route) ++ [depot])
                (Some g) (get_or (rd_total_distance route) 0)
                (get_or (rd_estimated_time route) 0) (rd_orders route)).
Proof.
  intros routes1 route routes2 depot w Hnot.
  destruct (stop_spec w) as (d' & log' & snaps' & Hstop & _).
  set (ws := mkWorld _ _ _ _ _ _) in Hstop.
  destruct (initialize_routes_frame routes1 depot ws) as (w1 & H1 & Hn1 & _).
  destruct (initialize_vehicle_route_spec route depot w1)
    as (g & o & Hnow & Hinit).
  destruct (initialize_routes_frame routes2 depot (installed route depot g o w1))
    as (w2 & H2 & Hn2 & Hget).
  destruct (Hget (rd_vehicle_id route) Hnot) as [Ha Hr].
  exists g, (Osrm.now o), (set_running true true w2).
  split; [| split].
  - unfold start_simulation, try_except. unfold bind at 1. rewrite Hstop.
    unfold bind at 1. rewrite initialize_routes_app, H1. cbn [snd].
    cbn [initialize_routes]. unfold bind at 1. rewrite Hinit, H2.
    reflexivity.
  - cbn [set_running set_sim sim active_simulations]. rewrite Ha.
    cbn [installed sim active_simulations]. rewrite dict_get_set_same.
    reflexivity.
  - cbn [set_running set_sim sim simulation_routes]. rewrite Hr.
    cbn [installed sim simulation_routes]. rewrite dict_get_set_same.
    reflexivity.
Qed.

(** X29 for a list that names vehicle "V1" twice: the route without
    orders, which comes last, is the one registered. *)
Lemma start_registers_the_last_route_example :
  exists g t w',
    start_simulation ([far_route] ++ empty_route "V1" :: [route_b])
      equator_depot quiet_world = (Some true, w') /\
    dict_get (rd_vehicle_id (empty_route "V1"))
      (active_simulations (sim w')) =
      Some (mkVehicleState (rd_vehicle_id (empty_route "V1"))
              (Osrm.latitude equator_depot) (Osrm.longitude equator_depot)
              0 0 IDLE
              (py_sum (map order_weight (rd_orders (empty_route "V1"))))
              0 0 0 t) /\
    dict_get (rd_vehicle_id (empty_route "V1"))
      (simulation_routes (sim w')) =
      Some (mkSimulationRoute (rd_vehicle_id (empty_route "V1"))
              ([equator_depot] ++
               map order_waypoint (rd_orders (empty_route "V1")) ++
               [equator_depot])
              (Some g) (get_or (rd_total_distance (empty_route "V1")) 0)
              (get_or (rd_estimated_time (empty_route "V1")) 0)
              (rd_orders (empty_route "V1"))).
Proof.
  apply (start_registers_the_last_route_of_a_vehicle [far_route]
           (empty_route "V1") [route_b] equator_depot quiet_world).
  cbn. intros [H|[]]. discriminate H.
Defined.

Lemma counts_by_status vehicles :
  List.length (filter Status.is_active vehicles) =
    (count_status MOVING vehicles + count_status DELIVERING vehicles +
     count_status RETURNING vehicles)%nat /\
  Status.ws_active_count vehicles =
    (List.length (filter Status.is_active vehicles) +
     count_status IDLE vehicles)%nat /\
  List.length vehicles =
    (Status.ws_active_count vehicles +
     count_status COMPLETED vehicles)%nat.
Proof.
  unfold Status.ws_active_count, count_status, Status.is_active.
  induction vehicles as [|v rest IH]; [repeat split|].
  destruct IH as (I1 & I2 & I3). cbn [filter List.length].
  destruct (status v);
    cbn [status_eqb orb negb List.length]; repeat split; lia.
Qed.

(** X30: the engine and the web-socket layer count different vehicles
    as active.  Whatever the vehicles of a non-empty registry are doing,
    [active_vehicles] of the status report is the number of vehicles
    that are MOVING, DELIVERING or RETURNING, while the [active_count]
    that the web-socket layer derives from a snapshot of the same
    vehicles is the number of vehicles that are not COMPLETED: the two
    differ by the vehicles that are idle. *)
Theorem active_counts_differ_by_idle_vehicles :
  forall (round : R -> Z -> R) (s : Simulator),
    active_simulations s <> [] ->
    let vehicles := map snd (active_simulations s) in
    let active :=
      (count_status MOVING vehicles + count_status DELIVERING vehicles +
       count_status RETURNING vehicles)%nat in
    (exists average fuel : R,
       Status.get_simulation_status round s =
         Status.Statistics (is_running s) (List.length vehicles) active
           average fuel (simulation_speed_multiplier s) update_interval) /\
    Status.ws_active_count vehicles =
      (active + count_status IDLE vehicles)%nat /\
    List.length vehicles =
      (Status.ws_active_count vehicles +
       count_status COMPLETED vehicles)%nat.
Proof.
  intros round s Hne vehicles active.
  destruct (counts_by_status vehicles) as (H1 & H2 & H3).
  fold active in H1. split; [| split; [| exact H3]].
  - unfold Status.get_simulation_status.
    destruct (active_simulations s) as [|p rest] eqn:E; [contradiction|].
    fold vehicles.
    change (map snd (p :: rest)) with vehicles. rewrite H1.
    eexists _, _. reflexivity.
  - rewrite H2, H1. reflexivity.
Qed.

(** X30 during a delivery pause: one of four vehicles is delivering,
    one moving, one idle; the report counts two, the web-socket layer
    three. *)
Lemma active_counts_differ_example :
  let vehicles := map snd (active_simulations pausing_engine) in
  let active :=
    (count_status MOVING vehicles + count_status DELIVERING vehicles +
     count_status RETURNING vehicles)%nat in
  (exists average fuel : R,
     Status.get_simulation_status no_rounding pausing_engine =
       Status.Statistics (is_running pausing_engine) (List.length vehicles)
         active average fuel (simulation_speed_multiplier pausing_engine)
         update_interval) /\
  Status.ws_active_count vehicles =
    (active + count_status IDLE vehicles)%nat /\
  List.length vehicles =
    (Status.ws_active_count vehicles +
     count_status COMPLETED vehicles)%nat.
Proof.
  apply (active_counts_differ_by_idle_vehicles no_rounding pausing_engine).
  discriminate.
Defined.

End Registry.
